(** * Storage provisioner: filesystem operations

    A shallow embedding of [worker/storageprovisioner/filesystem_ops.go]:
    the four batch executors ([createFilesystems], [attachFilesystems],
    [detachFilesystems], [removeFilesystems]), the two source resolvers
    ([filesystemParamsBySource], [filesystemAttachmentParamsBySource]) and
    their helpers.

    Conventions of the embedding:
    - Go maps are [gmap]s; a [range] over a map visits its entries in an
      order chosen by a [RangeOrder], about which nothing is known but that
      it is a permutation of the entries.
    - Calls that leave the file (provider sources, the provider registry,
      the controller facade, the scheduler, the logger) append an [event]
      to the history kept in the [context]; what such a call returns is
      given by an oracle that may depend on the whole history so far.
    - A Go function returning [error] is a computation in the monad [M]:
      it ends with a value, with an error, or with a run-time panic
      (index out of range, nil dereference), and always with the
      context as it has been left. *)

From Stdlib Require Import Ascii String NArith.
From stdpp Require Import base option list gmap strings fin_maps sorting.

#[local] Set Warnings "-clear-no-such-hyp".

Local Open Scope string_scope.
Local Open Scope list_scope.

(** ** Tags (package [names]) *)

(** [names.FilesystemTag], [names.VolumeTag] and [names.MachineTag] are
    structs around one string; the zero value holds the empty string. *)
Record FilesystemTag := { ft_id : string }.
Record VolumeTag := { vt_id : string }.
Record MachineTag := { mt_id : string }.

#[global] Instance FilesystemTag_eq_dec : EqDecision FilesystemTag.
Proof. solve_decision. Defined.
#[global] Instance VolumeTag_eq_dec : EqDecision VolumeTag.
Proof. solve_decision. Defined.
#[global] Instance MachineTag_eq_dec : EqDecision MachineTag.
Proof. solve_decision. Defined.

#[global] Instance FilesystemTag_countable : Countable FilesystemTag :=
  inj_countable' ft_id Build_FilesystemTag (fun t => match t with Build_FilesystemTag _ => eq_refl end).

(** The interface [names.Tag], as far as this file stores values in it. *)
Inductive Tag :=
| TagFilesystem (t : FilesystemTag)
| TagVolume (t : VolumeTag)
| TagMachine (t : MachineTag).

(** The methods of package [names] used here. The package is not part of
    the repository, so its functions are taken as an interface. *)
Class Names := {
  Tag_String : Tag -> string;
  Tag_Id : Tag -> string;
  ReadableString : Tag -> string;
}.

(** ** Parameters and results (packages [storage] and [params]) *)

(** [storage.ProviderType] is a string type. *)
Abbreviation ProviderType := string (only parsing).

(** [storage.FilesystemParams]: the fields this file reads or sets. *)
Record FilesystemParams := {
  fp_Tag : FilesystemTag;
  fp_Volume : VolumeTag;
  fp_Size : N;
  fp_Provider : ProviderType;
}.

(** [storage.FilesystemAttachmentParams], with the embedded
    [AttachmentParams] flattened. *)
Record FilesystemAttachmentParams := {
  fap_Provider : ProviderType;
  fap_Machine : MachineTag;
  fap_InstanceId : string;
  fap_ReadOnly : bool;
  fap_Filesystem : FilesystemTag;
  fap_FilesystemId : string;
  fap_Path : string;
}.

(** [storage.Filesystem] with its embedded [FilesystemInfo]. *)
Record Filesystem := {
  fs_Tag : FilesystemTag;
  fs_Volume : VolumeTag;
  fs_FilesystemId : string;
  fs_Size : N;
}.

(** [storage.FilesystemAttachment] with its embedded info. *)
Record FilesystemAttachment := {
  fa_Filesystem : FilesystemTag;
  fa_Machine : MachineTag;
  fa_Path : string;
  fa_ReadOnly : bool;
}.

(** [params.Filesystem] and [params.FilesystemInfo]. *)
Record params_Filesystem := {
  pf_FilesystemTag : string;
  pf_VolumeTag : string;
  pf_FilesystemId : string;
  pf_Pool : string;
  pf_Size : N;
}.

(** [params.FilesystemAttachment] and [params.FilesystemAttachmentInfo]. *)
Record params_FilesystemAttachment := {
  pfa_FilesystemTag : string;
  pfa_MachineTag : string;
  pfa_MountPoint : string;
  pfa_ReadOnly : bool;
}.

(** [params.RemoveFilesystemParams]. *)
Record RemoveFilesystemParams := {
  rfp_Provider : string;
  rfp_FilesystemId : string;
  rfp_Destroy : bool;
}.

(** [params.MachineStorageId]. *)
Record MachineStorageId := {
  msi_MachineTag : string;
  msi_AttachmentTag : string;
}.

#[global] Instance MachineStorageId_eq_dec : EqDecision MachineStorageId.
Proof. solve_decision. Defined.

#[global] Instance MachineStorageId_countable : Countable MachineStorageId :=
  inj_countable' (fun i => (msi_MachineTag i, msi_AttachmentTag i))
    (fun p => Build_MachineStorageId p.1 p.2)
    (fun i => match i with Build_MachineStorageId _ _ => eq_refl end).

(** [params.EntityStatusArgs] (the [Data] map is never set here). *)
Record EntityStatusArgs := {
  esa_Tag : string;
  esa_Status : string;
  esa_Info : string;
}.

(** An error value produced outside this file is known by its text
    ([err.Error()]); [None] is Go's [nil]. *)
Abbreviation extError := (option string) (only parsing).

(** [storage.CreateFilesystemsResult]. *)
Record CreateFilesystemsResult := {
  cfr_Filesystem : option Filesystem;
  cfr_Error : extError;
}.

(** [storage.AttachFilesystemsResult]. *)
Record AttachFilesystemsResult := {
  afr_FilesystemAttachment : option FilesystemAttachment;
  afr_Error : extError;
}.

(** [params.ErrorResult]. *)
Record ErrorResult := { er_Error : extError }.

(** Modelled from the spec: the status vocabulary of package [core/status]
    ("Status vocabulary (produced, fixed set)"); [Status_String] is the
    text each status is transmitted as. *)
Inductive Status :=
| Pending | Attaching | Attached | Detaching | Detached | Destroying | Error.

Definition Status_String (s : Status) : string :=
  match s with
  | Pending => "pending"
  | Attaching => "attaching"
  | Attached => "attached"
  | Detaching => "detaching"
  | Detached => "detached"
  | Destroying => "destroying"
  | Error => "error"
  end.

(** ** Operations *)

(** Modelled from the spec: the embedded [exponentialBackoff] struct, whose
    declaration is in another file ("a retry/backoff state (current delay,
    attempt count)"). Nothing in this file reads it. *)
Record exponentialBackoff := { eb_delay : N; eb_attempt : N }.

Record createFilesystemOp := {
  cfo_backoff : exponentialBackoff;
  cfo_args : FilesystemParams;
}.

Record removeFilesystemOp := {
  rfo_backoff : exponentialBackoff;
  rfo_tag : FilesystemTag;
}.

Record attachFilesystemOp := {
  afo_backoff : exponentialBackoff;
  afo_args : FilesystemAttachmentParams;
}.

Record detachFilesystemOp := {
  dfo_backoff : exponentialBackoff;
  dfo_args : FilesystemAttachmentParams;
}.

(** The interface [scheduleOp]. The executors store in it what a map
    lookup [ops[key]] returned, which is a nil pointer when the key is
    absent: hence the [option]. *)
Inductive scheduleOp :=
| OpCreate (op : option createFilesystemOp)
| OpRemove (op : option removeFilesystemOp)
| OpAttach (op : option attachFilesystemOp)
| OpDetach (op : option detachFilesystemOp).

(** ** Errors (package [errors]) *)

(** [errNonDynamic] is the package's sentinel; [errorNew] stands for any
    other error value, known by its text; [Annotated] is the result of
    [errors.Annotate] and [errors.Annotatef], keeping the format and its
    arguments apart. [errors.Trace] adds a source location only and is
    the identity here. *)
Inductive error :=
| errNonDynamic
| errorNew (text : string)
| Annotated (cause : error) (format : string) (args : list string).

(** [errors.Cause]. *)
Fixpoint Cause (e : error) : error :=
  match e with
  | Annotated c _ _ => Cause c
  | _ => e
  end.

#[global] Instance error_eq_dec : EqDecision error.
Proof.
  refine (fix go (x y : error) {struct x} : Decision (x = y) :=
    match x, y with
    | errNonDynamic, errNonDynamic => left eq_refl
    | errorNew a, errorNew b => cast_if (decide (a = b))
    | Annotated c f a, Annotated c' f' a' =>
        cast_if_and3 (go c c') (decide (f = f')) (decide (a = a'))
    | _, _ => right _
    end); abstract congruence.
Defined.

(** ** The history of calls *)

Inductive LogLevel := Debug | LError | Critical.

(** An argument of a log call: a string (a tag's text, a source name, an
    error's text), or one of the composite values the file prints. *)
Inductive logArg :=
| LStr (s : string)
| LFilesystemParams (ps : list FilesystemParams)
| LAttachmentParams (ps : list FilesystemAttachmentParams)
| LNilSource.

Inductive event :=
| CallFilesystemSource (baseStorageDir sourceName : string) (provider : ProviderType)
| CallValidateFilesystemParams (p : FilesystemParams)
| CallCreateFilesystems (ps : list FilesystemParams)
| CallAttachFilesystems (ps : list FilesystemAttachmentParams)
| CallDetachFilesystems (ps : list FilesystemAttachmentParams)
| CallDestroyFilesystems (ids : list string)
| CallReleaseFilesystems (ids : list string)
| CallRemoveFilesystemParams (tags : list FilesystemTag)
| CallScheduleOperations (ops : list scheduleOp)
| CallSetStatus (statuses : list EntityStatusArgs)
| CallSetFilesystemInfo (fss : list params_Filesystem)
| CallSetFilesystemAttachmentInfo (fas : list params_FilesystemAttachment)
| CallRemoveEntities (tags : list Tag)
| CallRemoveAttachments (ids : list MachineStorageId)
| CallRemovePendingFilesystemAttachment (id : MachineStorageId)
| CallLog (level : LogLevel) (format : string) (args : list logArg).

Definition history := list event.

(** What a bulk call returns: the per-entity results, or a top-level
    error (the results are never looked at next to a non-nil error). *)
Inductive bulk (A : Type) :=
| BulkResults (results : list A)
| BulkError (err : string).
Arguments BulkResults {A} results.
Arguments BulkError {A} err.

(** [storage.FilesystemSource]: each method answers from the history of
    calls so far and its arguments. *)
Record FilesystemSource := {
  ValidateFilesystemParams : history -> FilesystemParams -> extError;
  CreateFilesystems : history -> list FilesystemParams -> bulk CreateFilesystemsResult;
  AttachFilesystems : history -> list FilesystemAttachmentParams -> bulk AttachFilesystemsResult;
  DetachFilesystems : history -> list FilesystemAttachmentParams -> bulk extError;
  DestroyFilesystems : history -> list string -> bulk extError;
  ReleaseFilesystems : history -> list string -> bulk extError;
}.

(** The controller facade [ctx.config.Filesystems]. *)
Record FilesystemAccessor := {
  SetFilesystemInfo : history -> list params_Filesystem -> bulk ErrorResult;
  SetFilesystemAttachmentInfo : history -> list params_FilesystemAttachment -> bulk ErrorResult;
}.

(** Functions of package [storageprovisioner] that are declared in other
    files and answer from outside the worker: [filesystemSource] (which
    asks the provider registry; a nil source next to a nil error is
    possible in Go and kept), [removeFilesystemParams], [removeEntities]
    and [removeAttachments]. *)
Record Collaborators := {
  filesystemSource_result :
    history -> string -> string -> ProviderType -> option FilesystemSource * option error;
  removeFilesystemParams_result :
    history -> list FilesystemTag -> bulk RemoveFilesystemParams;
  removeEntities_result : history -> list Tag -> extError;
  removeAttachments_result : history -> list MachineStorageId -> extError;
}.

(** [config]: the fields of the worker's configuration used here; the
    registry is reached through [filesystemSource] only. *)
Record config := {
  StorageDir : string;
  Filesystems : FilesystemAccessor;
}.

(** [context]: the worker's state, with the history of the calls made
    through it. *)
Record context := {
  ctx_config : config;
  ctx_collab : Collaborators;
  IsCAASModel : bool;
  managedFilesystemSource : option FilesystemSource;
  ctx_filesystems : gmap FilesystemTag Filesystem;
  ctx_filesystemAttachments : gmap MachineStorageId FilesystemAttachment;
  events : history;
}.

(** ** The monad of executors *)

Inductive outcome (A : Type) :=
| Ok (a : A)
| Err (e : error)
| Panic.
Arguments Ok {A} a.
Arguments Err {A} e.
Arguments Panic {A}.

Definition M (A : Type) : Type := context -> outcome A * context.

#[global] Instance M_ret : MRet M := fun A a ctx => (Ok a, ctx).
#[global] Instance M_bind : MBind M := fun A B f m ctx =>
  match m ctx with
  | (Ok a, ctx') => f a ctx'
  | (Err e, ctx') => (Err e, ctx')
  | (Panic, ctx') => (Panic, ctx')
  end.

Definition fail {A} (e : error) : M A := fun ctx => (Err e, ctx).
Definition panic {A} : M A := fun ctx => (Panic, ctx).
Definition get : M context := fun ctx => (Ok ctx, ctx).
Definition modify (f : context -> context) : M unit := fun ctx => (Ok tt, f ctx).

(** Index [l[i]]: a panic when out of range. *)
Definition index {A} (l : list A) (i : nat) : M A :=
  match l !! i with
  | Some x => mret x
  | None => panic
  end.

(** Dereference [*p]: a panic on nil. *)
Definition deref {A} (p : option A) : M A :=
  match p with
  | Some x => mret x
  | None => panic
  end.

Definition set_events (h : history) (ctx : context) : context :=
  {| ctx_config := ctx_config ctx; ctx_collab := ctx_collab ctx;
     IsCAASModel := IsCAASModel ctx;
     managedFilesystemSource := managedFilesystemSource ctx;
     ctx_filesystems := ctx_filesystems ctx;
     ctx_filesystemAttachments := ctx_filesystemAttachments ctx;
     events := h |}.

Definition set_filesystems (m : gmap FilesystemTag Filesystem) (ctx : context) : context :=
  {| ctx_config := ctx_config ctx; ctx_collab := ctx_collab ctx;
     IsCAASModel := IsCAASModel ctx;
     managedFilesystemSource := managedFilesystemSource ctx;
     ctx_filesystems := m;
     ctx_filesystemAttachments := ctx_filesystemAttachments ctx;
     events := events ctx |}.

Definition set_filesystemAttachments
    (m : gmap MachineStorageId FilesystemAttachment) (ctx : context) : context :=
  {| ctx_config := ctx_config ctx; ctx_collab := ctx_collab ctx;
     IsCAASModel := IsCAASModel ctx;
     managedFilesystemSource := managedFilesystemSource ctx;
     ctx_filesystems := ctx_filesystems ctx;
     ctx_filesystemAttachments := m;
     events := events ctx |}.

(** Record a call in the history. *)
Definition emit (e : event) : M unit :=
  modify (fun ctx => set_events (events ctx ++ [e]) ctx).

(** Make a call: the oracle answers from the history before the call,
    and the call is recorded. *)
Definition call {A} (e : event) (answer : history -> A) : M A :=
  ctx ← get;
  _ ← emit e;
  mret (answer (events ctx)).

Definition logf (level : LogLevel) (format : string) (args : list logArg) : M unit :=
  emit (CallLog level format args).

(** [for i, x := range l] over a slice, threading the loop's variables
    [b]; the body's error or panic leaves the loop. *)
Fixpoint rangeSlice {A B} (body : nat -> A -> B -> M B) (i : nat) (l : list A) (b : B) : M B :=
  match l with
  | [] => mret b
  | x :: l' => b' ← body i x b; rangeSlice body (S i) l' b'
  end.

(** The order in which [range] visits a map: any permutation of its
    entries. *)
Record RangeOrder := {
  range : forall (K : Type) `{Countable K} (A : Type), gmap K A -> list (K * A);
  range_perm : forall (K : Type) `{Countable K} (A : Type) (m : gmap K A),
    range K A m ≡ₚ map_to_list m;
}.
Arguments range _ {K _ _ A} m.

Definition range_canonical : RangeOrder :=
  {| range := fun K _ _ A m => map_to_list m;
     range_perm := fun K _ _ A m => reflexivity _ |}.

(** ** [filepath.Join] (Go's standard library, Unix)

    [Join] drops empty elements, joins the rest with a slash and cleans
    the result with [Clean]. [Clean] reads the path from left to right
    and writes to a buffer [out] (kept reversed here), where [dotdot] is
    the length of the prefix that a [..] element may not remove. *)
Module filepath.

Definition Separator : ascii := "/"%char.

Definition isSep (c : ascii) : bool := bool_decide (c = Separator).

Definition dot : ascii := "."%char.

(** Is the element that starts here finished: end of path or separator? *)
Definition atEnd (rest : list ascii) : bool :=
  match rest with
  | [] => true
  | c :: _ => isSep c
  end.

(** The [..] case when it can backtrack: [out.w--], then back to the
    last separator above [dotdot]. *)
Fixpoint backtrack (dotdot : nat) (out : list ascii) : list ascii :=
  match out with
  | [] => []
  | c :: out' =>
      if bool_decide (dotdot < length out') && negb (isSep c)
      then backtrack dotdot out'
      else out'
  end.

(** Copy a path element to the buffer, up to the next separator. *)
Fixpoint copyElement (rest out : list ascii) : list ascii * list ascii :=
  match rest with
  | [] => ([], out)
  | c :: rest' => if isSep c then (rest, out) else copyElement rest' (c :: out)
  end.

Fixpoint cleanLoop (fuel : nat) (rooted : bool) (rest out : list ascii) (dotdot : nat)
  : list ascii :=
  match fuel with
  | O => out
  | S fuel' =>
      match rest with
      | [] => out
      | c :: rest1 =>
          if isSep c then
            (* empty path element *)
            cleanLoop fuel' rooted rest1 out dotdot
          else if bool_decide (c = dot) && atEnd rest1 then
            (* . element *)
            cleanLoop fuel' rooted rest1 out dotdot
          else if bool_decide (c = dot) &&
                  match rest1 with
                  | c1 :: rest2 => bool_decide (c1 = dot) && atEnd rest2
                  | [] => false
                  end then
            (* .. element: remove to last separator *)
            let rest2 := tail rest1 in
            if bool_decide (dotdot < length out) then
              cleanLoop fuel' rooted rest2 (backtrack dotdot out) dotdot
            else if negb rooted then
              let out1 := if bool_decide (0 < length out) then Separator :: out else out in
              let out2 := dot :: dot :: out1 in
              cleanLoop fuel' rooted rest2 out2 (length out2)
            else
              cleanLoop fuel' rooted rest2 out dotdot
          else
            (* real path element: add slash if needed, copy element *)
            let out1 :=
              if (rooted && negb (bool_decide (length out = 1))) ||
                 (negb rooted && negb (bool_decide (length out = 0)))
              then Separator :: out else out in
            let '(rest', out2) := copyElement rest out1 in
            cleanLoop fuel' rooted rest' out2 dotdot
      end
  end.

Definition Clean (path : string) : string :=
  match list_ascii_of_string path with
  | [] => "."
  | (c :: _) as p =>
      let rooted := isSep c in
      let out :=
        if rooted
        then cleanLoop (length p) true (tail p) [Separator] 1
        else cleanLoop (length p) false p [] 0 in
      match out with
      | [] => "."
      | _ => string_of_list_ascii (rev out)
      end
  end.

(** [strings.Join(elems, "/")]. *)
Fixpoint joinSep (elems : list string) : string :=
  match elems with
  | [] => EmptyString
  | [e] => e
  | e :: rest => e +:+ "/" +:+ joinSep rest
  end.

Fixpoint Join (elem : list string) : string :=
  match elem with
  | [] => EmptyString
  | e :: rest =>
      if bool_decide (e = EmptyString) then Join rest else Clean (joinSep elem)
  end.

End filepath.

(** ** The functions of [filesystem_ops.go] *)

Section FilesystemOps.

Context {names : Names}.
Context (ro : RangeOrder).

(** Zero values. *)
Definition VolumeTag_zero : VolumeTag := {| vt_id := EmptyString |}.
Definition FilesystemTag_zero : FilesystemTag := {| ft_id := EmptyString |}.
Definition FilesystemParams_zero : FilesystemParams :=
  {| fp_Tag := FilesystemTag_zero; fp_Volume := VolumeTag_zero; fp_Size := 0%N;
     fp_Provider := EmptyString |}.
Definition RemoveFilesystemParams_zero : RemoveFilesystemParams :=
  {| rfp_Provider := EmptyString; rfp_FilesystemId := EmptyString;
     rfp_Destroy := false |}.

(** The map of resolved sources: a name can be bound to a nil source. *)
Abbreviation sourceMap := (gmap string (option FilesystemSource)).

(** [filesystemSources[sourceName]] read with one result: nil when the
    name is absent. *)
Definition sourceOf (filesystemSources : sourceMap) (sourceName : string)
  : option FilesystemSource :=
  default None (filesystemSources !! sourceName).

(** [m[k] = append(m[k], x)]. *)
Definition appendTo {A} (k : string) (x : A) (m : gmap string (list A))
  : gmap string (list A) :=
  <[k := default [] (m !! k) ++ [x]]> m.

(** A method call on an interface value: a panic when it is nil. *)
Definition method {A} (src : option FilesystemSource) (e : event)
    (answer : FilesystemSource -> history -> A) : M A :=
  s ← deref src; call e (answer s).

(** [filesystemSource], declared in another file of the package: the
    call is recorded and answered by the collaborators. *)
Definition filesystemSource (baseStorageDir sourceName : string) (provider : ProviderType)
  : M (option FilesystemSource * option error) :=
  ctx ← get;
  call (CallFilesystemSource baseStorageDir sourceName provider)
       (fun h => filesystemSource_result (ctx_collab ctx) h baseStorageDir sourceName provider).

(** The first loop of [filesystemParamsBySource] (lines 376-394). *)
Definition resolveParamsSource (baseStorageDir : string)
    (managed : option FilesystemSource)
    (params : FilesystemParams) (filesystemSources : sourceMap) : M sourceMap :=
  let sourceName := fp_Provider params in
  match filesystemSources !! sourceName with
  | Some _ => mret filesystemSources
  | None =>
      if decide (fp_Volume params ≠ VolumeTag_zero) then
        mret (<[sourceName := managed]> filesystemSources)
      else
        r ← filesystemSource baseStorageDir sourceName (fp_Provider params);
        let '(src, err) := r in
        match err with
        | Some e =>
            if decide (Cause e = errNonDynamic) then
              mret (<[sourceName := None]> filesystemSources)
            else fail (Annotated e "getting filesystem source" [])
        | None => mret (<[sourceName := src]> filesystemSources)
        end
  end.

(** The second loop of [filesystemParamsBySource] (lines 396-405). *)
Definition collectParams (filesystemSources : sourceMap)
    (paramsBySource : gmap string (list FilesystemParams)) (param : FilesystemParams)
  : gmap string (list FilesystemParams) :=
  let sourceName := fp_Provider param in
  match sourceOf filesystemSources sourceName with
  | None => paramsBySource
  | Some _ => appendTo sourceName param paramsBySource
  end.

(** [filesystemParamsBySource] separates the filesystem parameters by
    filesystem source. *)
Definition filesystemParamsBySource (baseStorageDir : string)
    (params : list FilesystemParams) (managed : option FilesystemSource)
  : M (gmap string (list FilesystemParams) * sourceMap) :=
  filesystemSources ←
    rangeSlice (fun _ => resolveParamsSource baseStorageDir managed) 0 params ∅;
  let paramsBySource := foldl (collectParams filesystemSources) ∅ params in
  mret (paramsBySource, filesystemSources).

(** Line 447: the filesystem is not in the cache, or it is backed by a
    volume ([!ok || filesystem.Volume != (names.VolumeTag{})]). *)
Definition viaManagedSource (filesystems : gmap FilesystemTag Filesystem)
    (params : FilesystemAttachmentParams) : bool :=
  match filesystems !! fap_Filesystem params with
  | None => true
  | Some filesystem => bool_decide (fs_Volume filesystem ≠ VolumeTag_zero)
  end.

(** The loop body of [filesystemAttachmentParamsBySource] (lines 441-457). *)
Definition resolveAttachmentSource (baseStorageDir : string)
    (filesystems : gmap FilesystemTag Filesystem)
    (managed : option FilesystemSource)
    (params : FilesystemAttachmentParams)
    (st : gmap string (list FilesystemAttachmentParams) * sourceMap)
  : M (gmap string (list FilesystemAttachmentParams) * sourceMap) :=
  let '(paramsBySource, filesystemSources) := st in
  let sourceName := fap_Provider params in
  let paramsBySource := appendTo sourceName params paramsBySource in
  match filesystemSources !! sourceName with
  | Some _ => mret (paramsBySource, filesystemSources)
  | None =>
      if viaManagedSource filesystems params
      then mret (paramsBySource, <[sourceName := managed]> filesystemSources)
      else
        r ← filesystemSource baseStorageDir sourceName (fap_Provider params);
        let '(src, err) := r in
        match err with
        | Some e => fail (Annotated e "getting filesystem source" [])
        | None => mret (paramsBySource, <[sourceName := src]> filesystemSources)
        end
  end.

(** [filesystemAttachmentParamsBySource] separates the filesystem
    attachment parameters by filesystem source. *)
Definition filesystemAttachmentParamsBySource (baseStorageDir : string)
    (filesystemAttachmentParams : list FilesystemAttachmentParams)
    (filesystems : gmap FilesystemTag Filesystem)
    (managed : option FilesystemSource)
  : M (gmap string (list FilesystemAttachmentParams) * sourceMap) :=
  rangeSlice (fun _ => resolveAttachmentSource baseStorageDir filesystems managed)
    0 filesystemAttachmentParams (∅, ∅).

(** [validateFilesystemParams] validates a collection of filesystem
    parameters: the valid ones in order, and one result per parameter. *)
Definition validateFilesystemParams (filesystemSource : option FilesystemSource)
    (filesystemParams : list FilesystemParams)
  : M (list FilesystemParams * list extError) :=
  rangeSlice (fun i params '(valid, results) =>
      err ← method filesystemSource (CallValidateFilesystemParams params)
              (fun s h => ValidateFilesystemParams s h params);
      let valid := match err with None => valid ++ [params] | Some _ => valid end in
      mret (valid, <[i := err]> results))
    0 filesystemParams ([], replicate (length filesystemParams) None).

(** [filesystemsFromStorage]. *)
Definition filesystemsFromStorage (l : list Filesystem) : list params_Filesystem :=
  (fun f =>
     {| pf_FilesystemTag := Tag_String (TagFilesystem (fs_Tag f));
        pf_VolumeTag :=
          if decide (fs_Volume f ≠ VolumeTag_zero)
          then Tag_String (TagVolume (fs_Volume f)) else EmptyString;
        pf_FilesystemId := fs_FilesystemId f;
        pf_Pool := EmptyString;
        pf_Size := fs_Size f |}) <$> l.

(** [filesystemAttachmentsFromStorage]. *)
Definition filesystemAttachmentsFromStorage (l : list FilesystemAttachment)
  : list params_FilesystemAttachment :=
  (fun f =>
     {| pfa_FilesystemTag := Tag_String (TagFilesystem (fa_Filesystem f));
        pfa_MachineTag := Tag_String (TagMachine (fa_Machine f));
        pfa_MountPoint := fa_Path f;
        pfa_ReadOnly := fa_ReadOnly f |}) <$> l.

(** Functions of the package declared in other files, seen from here as
    calls: [scheduleOperations], [setStatus],
    [removePendingFilesystemAttachment], [removeEntities],
    [removeAttachments], [removeFilesystemParams]. *)
Definition scheduleOperations (ops : list scheduleOp) : M unit :=
  emit (CallScheduleOperations ops).

Definition setStatus (statuses : list EntityStatusArgs) : M unit :=
  emit (CallSetStatus statuses).

Definition removePendingFilesystemAttachment (id : MachineStorageId) : M unit :=
  emit (CallRemovePendingFilesystemAttachment id).

Definition ofExtError (r : extError) : M unit :=
  match r with
  | None => mret tt
  | Some e => fail (errorNew e)
  end.

Definition removeEntities (tags : list Tag) : M unit :=
  ctx ← get;
  r ← call (CallRemoveEntities tags) (fun h => removeEntities_result (ctx_collab ctx) h tags);
  ofExtError r.

Definition removeAttachments (ids : list MachineStorageId) : M unit :=
  ctx ← get;
  r ← call (CallRemoveAttachments ids)
        (fun h => removeAttachments_result (ctx_collab ctx) h ids);
  ofExtError r.

Definition removeFilesystemParams (tags : list FilesystemTag)
  : M (list RemoveFilesystemParams) :=
  ctx ← get;
  r ← call (CallRemoveFilesystemParams tags)
        (fun h => removeFilesystemParams_result (ctx_collab ctx) h tags);
  match r with
  | BulkResults l => mret l
  | BulkError e => fail (errorNew e)
  end.

(** Modelled from the spec: [updateFilesystem], declared in another file
    ("a successfully created filesystem is ... merged into the local
    cache"): the filesystem is stored in the cache under its tag. *)
Definition updateFilesystem (info : Filesystem) : M unit :=
  modify (fun ctx => set_filesystems (<[fs_Tag info := info]> (ctx_filesystems ctx)) ctx).

(** [errors.Annotate] around the rest of a function: [if err != nil
    { return errors.Annotate(err, ...) }]. *)
Definition annotate {A} (format : string) (args : list string) (m : M A) : M A :=
  fun ctx =>
    match m ctx with
    | (Err e, ctx') => (Err (Annotated e format args), ctx')
    | r => r
    end.

(** *** [createFilesystems] *)

(** The three slices a create pass accumulates (lines 33-35). *)
Record createAcc := {
  ca_reschedule : list scheduleOp;
  ca_filesystems : list Filesystem;
  ca_statuses : list EntityStatusArgs;
}.

Definition createAcc_empty : createAcc :=
  {| ca_reschedule := []; ca_filesystems := []; ca_statuses := [] |}.

(** Lines 42-55: one [error] status per validation error. *)
Definition recordValidationErrors (filesystemParams : list FilesystemParams)
    (validationErrors : list extError) (statuses : list EntityStatusArgs)
  : M (list EntityStatusArgs) :=
  rangeSlice (fun i err statuses =>
      match err with
      | None => mret statuses
      | Some e =>
          p ← index filesystemParams i;
          let statuses := statuses ++
            [{| esa_Tag := Tag_String (TagFilesystem (fp_Tag p));
                esa_Status := Status_String Error;
                esa_Info := e |}] in
          _ ← logf Debug "failed to validate parameters for %s: %v"
                [LStr (ReadableString (TagFilesystem (fp_Tag p))); LStr e];
          mret statuses
      end)
    0 validationErrors statuses.

(** Lines 64-88: the results of one bulk call. The status is appended as
    [attaching] and, through the pointer [entityStatus], turned into
    [pending] when the result holds an error. *)
Definition interpretCreateResults (ops : gmap FilesystemTag createFilesystemOp)
    (filesystemParams : list FilesystemParams)
    (results : list CreateFilesystemsResult) (acc : createAcc) : M createAcc :=
  rangeSlice (fun i result acc =>
      p ← index filesystemParams i;
      let tag := Tag_String (TagFilesystem (fp_Tag p)) in
      match cfr_Error result with
      | Some e =>
          _ ← logf Debug "failed to create %s: %v"
                [LStr (ReadableString (TagFilesystem (fp_Tag p))); LStr e];
          mret {| ca_reschedule := ca_reschedule acc ++ [OpCreate (ops !! fp_Tag p)];
                  ca_filesystems := ca_filesystems acc;
                  ca_statuses := ca_statuses acc ++
                    [{| esa_Tag := tag; esa_Status := Status_String Pending;
                        esa_Info := e |}] |}
      | None =>
          filesystem ← deref (cfr_Filesystem result);
          mret {| ca_reschedule := ca_reschedule acc;
                  ca_filesystems := ca_filesystems acc ++ [filesystem];
                  ca_statuses := ca_statuses acc ++
                    [{| esa_Tag := tag; esa_Status := Status_String Attaching;
                        esa_Info := EmptyString |}] |}
      end)
    0 results acc.

(** Lines 37-88: the body of the loop over the sources. *)
Definition createFromSource (ops : gmap FilesystemTag createFilesystemOp)
    (filesystemSources : sourceMap)
    (sourceName : string) (filesystemParams : list FilesystemParams)
    (acc : createAcc) : M createAcc :=
  _ ← logf Debug "creating filesystems: %v" [LFilesystemParams filesystemParams];
  let filesystemSource := sourceOf filesystemSources sourceName in
  v ← validateFilesystemParams filesystemSource filesystemParams;
  let '(validFilesystemParams, validationErrors) := v in
  statuses ← recordValidationErrors filesystemParams validationErrors (ca_statuses acc);
  let acc := {| ca_reschedule := ca_reschedule acc;
                ca_filesystems := ca_filesystems acc;
                ca_statuses := statuses |} in
  let filesystemParams := validFilesystemParams in
  if decide (length filesystemParams = 0) then mret acc
  else
    r ← method filesystemSource (CallCreateFilesystems filesystemParams)
          (fun s h => CreateFilesystems s h filesystemParams);
    match r with
    | BulkError err =>
        fail (Annotated (errorNew err) "creating filesystems from source %q" [sourceName])
    | BulkResults results => interpretCreateResults ops filesystemParams results acc
    end.

(** Lines 36-89: the loop over the sources. *)
Definition createFromSources (ops : gmap FilesystemTag createFilesystemOp)
    (filesystemSources : sourceMap)
    (paramsBySource : list (string * list FilesystemParams)) (acc : createAcc)
  : M createAcc :=
  rangeSlice (fun _ '(sourceName, filesystemParams) =>
      createFromSource ops filesystemSources sourceName filesystemParams)
    0 paramsBySource acc.

(** Lines 92-115: publish the created filesystems to the controller and
    record them in the cache. *)
Definition publishFilesystems (filesystems : list Filesystem) : M unit :=
  if decide (length filesystems = 0) then mret tt
  else
    ctx ← get;
    let args := filesystemsFromStorage filesystems in
    r ← call (CallSetFilesystemInfo args)
          (fun h => SetFilesystemInfo (Filesystems (ctx_config ctx)) h args);
    match r with
    | BulkError err =>
        fail (Annotated (errorNew err) "publishing filesystems to state" [])
    | BulkResults errorResults =>
        _ ← rangeSlice (fun i result (_ : unit) =>
               match er_Error result with
               | Some e =>
                   f ← index filesystems i;
                   logf LError "publishing filesystem %s to state: %v"
                     [LStr (Tag_Id (TagFilesystem (fs_Tag f))); LStr e]
               | None => mret tt
               end) 0 errorResults tt;
        rangeSlice (fun _ v (_ : unit) => updateFilesystem v) 0 filesystems tt
    end.

(** [createFilesystems] creates filesystems with the specified
    parameters. *)
Definition createFilesystems (ops : gmap FilesystemTag createFilesystemOp) : M unit :=
  ctx ← get;
  let filesystemParams := (fun kv => cfo_args kv.2) <$> range ro ops in
  r ← filesystemParamsBySource (StorageDir (ctx_config ctx)) filesystemParams
        (managedFilesystemSource ctx);
  let '(paramsBySource, filesystemSources) := r in
  acc ← createFromSources ops filesystemSources (range ro paramsBySource) createAcc_empty;
  _ ← scheduleOperations (ca_reschedule acc);
  _ ← setStatus (ca_statuses acc);
  publishFilesystems (ca_filesystems acc).

(** *** [attachFilesystems] *)

(** [params.MachineStorageId] of an attachment's machine and filesystem. *)
Definition storageId (machine : MachineTag) (filesystem : FilesystemTag) : MachineStorageId :=
  {| msi_MachineTag := Tag_String (TagMachine machine);
     msi_AttachmentTag := Tag_String (TagFilesystem filesystem) |}.

(** Lines 122-125: the arguments of one operation, with the default
    mount path. *)
Definition attachArgs (storageDir : string) (op : attachFilesystemOp)
  : FilesystemAttachmentParams :=
  let args := afo_args op in
  if decide (fap_Path args = EmptyString) then
    {| fap_Provider := fap_Provider args;
       fap_Machine := fap_Machine args;
       fap_InstanceId := fap_InstanceId args;
       fap_ReadOnly := fap_ReadOnly args;
       fap_Filesystem := fap_Filesystem args;
       fap_FilesystemId := fap_FilesystemId args;
       fap_Path := filepath.Join [storageDir; Tag_Id (TagFilesystem (fap_Filesystem args))] |}
  else args.

(** [setFilesystemAttachmentInfo]. *)
Definition setFilesystemAttachmentInfo (filesystemAttachments : list FilesystemAttachment)
  : M unit :=
  if decide (length filesystemAttachments = 0) then mret tt
  else
    ctx ← get;
    let args := filesystemAttachmentsFromStorage filesystemAttachments in
    r ← call (CallSetFilesystemAttachmentInfo args)
          (fun h => SetFilesystemAttachmentInfo (Filesystems (ctx_config ctx)) h args);
    match r with
    | BulkError err =>
        fail (Annotated (errorNew err) "publishing filesystems to state" [])
    | BulkResults errorResults =>
        rangeSlice (fun i result (_ : unit) =>
            a ← index filesystemAttachments i;
            match er_Error result with
            | Some e =>
                fail (Annotated (errorNew e) "publishing attachment of %s to %s to state"
                        [ReadableString (TagFilesystem (fa_Filesystem a));
                         ReadableString (TagMachine (fa_Machine a))])
            | None =>
                (* Record the filesystem attachment in the context. *)
                let id := storageId (fa_Machine a) (fa_Filesystem a) in
                _ ← modify (fun ctx =>
                       set_filesystemAttachments
                         (<[id := a]> (ctx_filesystemAttachments ctx)) ctx);
                removePendingFilesystemAttachment id
            end) 0 errorResults tt
    end.

Record attachAcc := {
  aa_reschedule : list scheduleOp;
  aa_filesystemAttachments : list FilesystemAttachment;
  aa_statuses : list EntityStatusArgs;
}.

Definition attachAcc_empty : attachAcc :=
  {| aa_reschedule := []; aa_filesystemAttachments := []; aa_statuses := [] |}.

(** Lines 148-178: the results of one bulk call. *)
Definition interpretAttachResults (ops : gmap MachineStorageId attachFilesystemOp)
    (filesystemAttachmentParams : list FilesystemAttachmentParams)
    (results : list AttachFilesystemsResult) (acc : attachAcc) : M attachAcc :=
  rangeSlice (fun i result acc =>
      p ← index filesystemAttachmentParams i;
      let tag := Tag_String (TagFilesystem (fap_Filesystem p)) in
      match afr_Error result with
      | Some e =>
          (* Reschedule the filesystem attachment. *)
          let id := storageId (fap_Machine p) (fap_Filesystem p) in
          _ ← logf Debug "failed to attach %s to %s: %v"
                [LStr (ReadableString (TagFilesystem (fap_Filesystem p)));
                 LStr (ReadableString (TagMachine (fap_Machine p))); LStr e];
          mret {| aa_reschedule := aa_reschedule acc ++ [OpAttach (ops !! id)];
                  aa_filesystemAttachments := aa_filesystemAttachments acc;
                  aa_statuses := aa_statuses acc ++
                    [{| esa_Tag := tag; esa_Status := Status_String Attaching;
                        esa_Info := e |}] |}
      | None =>
          a ← deref (afr_FilesystemAttachment result);
          mret {| aa_reschedule := aa_reschedule acc;
                  aa_filesystemAttachments := aa_filesystemAttachments acc ++ [a];
                  aa_statuses := aa_statuses acc ++
                    [{| esa_Tag := tag; esa_Status := Status_String Attached;
                        esa_Info := EmptyString |}] |}
      end)
    0 results acc.

(** Lines 142-178: the body of the loop over the sources. *)
Definition attachFromSource (ops : gmap MachineStorageId attachFilesystemOp)
    (filesystemSources : sourceMap)
    (sourceName : string) (filesystemAttachmentParams : list FilesystemAttachmentParams)
    (acc : attachAcc) : M attachAcc :=
  _ ← logf Debug "attaching filesystems: %+v" [LAttachmentParams filesystemAttachmentParams];
  let filesystemSource := sourceOf filesystemSources sourceName in
  r ← method filesystemSource (CallAttachFilesystems filesystemAttachmentParams)
        (fun s h => AttachFilesystems s h filesystemAttachmentParams);
  match r with
  | BulkError err =>
      fail (Annotated (errorNew err) "attaching filesystems from source %q" [sourceName])
  | BulkResults results =>
      interpretAttachResults ops filesystemAttachmentParams results acc
  end.

(** [attachFilesystems] creates filesystem attachments with the specified
    parameters. *)
Definition attachFilesystems (ops : gmap MachineStorageId attachFilesystemOp) : M unit :=
  ctx ← get;
  let filesystemAttachmentParams :=
    (fun kv => attachArgs (StorageDir (ctx_config ctx)) kv.2) <$> range ro ops in
  r ← filesystemAttachmentParamsBySource (StorageDir (ctx_config ctx))
        filesystemAttachmentParams (ctx_filesystems ctx) (managedFilesystemSource ctx);
  let '(paramsBySource, filesystemSources) := r in
  acc ← rangeSlice (fun _ '(sourceName, filesystemAttachmentParams) =>
           attachFromSource ops filesystemSources sourceName filesystemAttachmentParams)
         0 (range ro paramsBySource) attachAcc_empty;
  _ ← scheduleOperations (aa_reschedule acc);
  _ ← setStatus (aa_statuses acc);
  setFilesystemAttachmentInfo (aa_filesystemAttachments acc).

(** *** [removeFilesystems] *)

(** [partitionRemoveFilesystemParams]: the tags and ids to destroy, then
    the tags and ids to release. *)
Definition partitionRemoveFilesystemParams (removeTags : list FilesystemTag)
    (removeParams : list RemoveFilesystemParams)
  : M (list FilesystemTag * list string * list FilesystemTag * list string) :=
  rangeSlice (fun i args '(destroyTags, destroyIds, releaseTags, releaseIds) =>
      tag ← index removeTags i;
      if rfp_Destroy args then
        mret (destroyTags ++ [tag], destroyIds ++ [rfp_FilesystemId args],
              releaseTags, releaseIds)
      else
        mret (destroyTags, destroyIds,
              releaseTags ++ [tag], releaseIds ++ [rfp_FilesystemId args]))
    0 removeParams ([], [], [], []).

Record removeAcc := {
  ra_remove : list Tag;
  ra_reschedule : list scheduleOp;
  ra_statuses : list EntityStatusArgs;
}.

Definition removeAcc_empty : removeAcc :=
  {| ra_remove := []; ra_reschedule := []; ra_statuses := [] |}.

(** Lines 227-240: the results of one destroy or release call. *)
Definition interpretRemoveResults (ops : gmap FilesystemTag removeFilesystemOp)
    (tags : list FilesystemTag) (errs : list extError) (acc : removeAcc) : M removeAcc :=
  rangeSlice (fun i err acc =>
      tag ← index tags i;
      match err with
      | None =>
          mret {| ra_remove := ra_remove acc ++ [TagFilesystem tag];
                  ra_reschedule := ra_reschedule acc;
                  ra_statuses := ra_statuses acc |}
      | Some e =>
          (* Failed to destroy or release filesystem; reschedule and update status. *)
          mret {| ra_remove := ra_remove acc;
                  ra_reschedule := ra_reschedule acc ++ [OpRemove (ops !! tag)];
                  ra_statuses := ra_statuses acc ++
                    [{| esa_Tag := Tag_String (TagFilesystem tag);
                        esa_Status := Status_String Destroying;
                        esa_Info := e |}] |}
      end)
    0 errs acc.

(** Lines 219-242: the closure [removeFilesystems]; [f] is the method of
    the source it is given, [e] the event of calling it. *)
Definition removeFilesystemsWith (ops : gmap FilesystemTag removeFilesystemOp)
    (tags : list FilesystemTag) (ids : list string)
    (e : list string -> event) (f : history -> list string -> bulk extError)
    (acc : removeAcc) : M removeAcc :=
  if decide (length ids = 0) then mret acc
  else
    r ← call (e ids) (fun h => f h ids);
    match r with
    | BulkError err => fail (errorNew err)
    | BulkResults errs => interpretRemoveResults ops tags errs acc
    end.

(** Lines 244-262: the body of the loop over the sources. Taking the
    method value of a nil source panics. *)
Definition removeFromSource (ops : gmap FilesystemTag removeFilesystemOp)
    (removeFilesystemParamsByTag : gmap FilesystemTag RemoveFilesystemParams)
    (filesystemSources : sourceMap)
    (sourceName : string) (filesystemParams : list FilesystemParams)
    (acc : removeAcc) : M removeAcc :=
  _ ← logf Debug "removing filesystems from %q: %v"
        [LStr sourceName; LFilesystemParams filesystemParams];
  let filesystemSource := sourceOf filesystemSources sourceName in
  let removeTags := fp_Tag <$> filesystemParams in
  let removeParams :=
    (fun args => default RemoveFilesystemParams_zero
                   (removeFilesystemParamsByTag !! fp_Tag args)) <$> filesystemParams in
  parts ← partitionRemoveFilesystemParams removeTags removeParams;
  let '(destroyTags, destroyIds, releaseTags, releaseIds) := parts in
  s ← deref filesystemSource;
  acc ← removeFilesystemsWith ops destroyTags destroyIds
          CallDestroyFilesystems (DestroyFilesystems s) acc;
  s ← deref filesystemSource;
  removeFilesystemsWith ops releaseTags releaseIds
    CallReleaseFilesystems (ReleaseFilesystems s) acc.

(** Lines 198-206: the parameters by tag, and the filesystem parameters
    (zero beyond the results of [removeFilesystemParams]). *)
Definition removeParamsByTag (tags : list FilesystemTag)
    (removeFilesystemParams : list RemoveFilesystemParams)
  : M (gmap FilesystemTag RemoveFilesystemParams * list FilesystemParams) :=
  rangeSlice (fun i args '(byTag, filesystemParams) =>
      tag ← index tags i;
      mret (<[tag := args]> byTag,
            <[i := {| fp_Tag := tag; fp_Volume := VolumeTag_zero; fp_Size := 0%N;
                      fp_Provider := rfp_Provider args |}]> filesystemParams))
    0 removeFilesystemParams (∅, replicate (length tags) FilesystemParams_zero).

(** [removeFilesystems] destroys or releases filesystems with the
    specified parameters. *)
Definition removeFilesystems (ops : gmap FilesystemTag removeFilesystemOp) : M unit :=
  ctx ← get;
  let tags := (fun kv => kv.1) <$> range ro ops in
  removeFilesystemParams ← removeFilesystemParams tags;
  r ← removeParamsByTag tags removeFilesystemParams;
  let '(removeFilesystemParamsByTag, filesystemParams) := r in
  r ← filesystemParamsBySource (StorageDir (ctx_config ctx)) filesystemParams
        (managedFilesystemSource ctx);
  let '(paramsBySource, filesystemSources) := r in
  acc ← rangeSlice (fun _ '(sourceName, filesystemParams) =>
           removeFromSource ops removeFilesystemParamsByTag filesystemSources
             sourceName filesystemParams)
         0 (range ro paramsBySource) removeAcc_empty;
  _ ← scheduleOperations (ra_reschedule acc);
  _ ← setStatus (ra_statuses acc);
  annotate "removing filesystems from state" [] (removeEntities (ra_remove acc)).

(** *** [detachFilesystems] *)

Record detachAcc := {
  da_reschedule : list scheduleOp;
  da_statuses : list EntityStatusArgs;
  da_remove : list MachineStorageId;
}.

Definition detachAcc_empty : detachAcc :=
  {| da_reschedule := []; da_statuses := []; da_remove := [] |}.

(** Lines 323-351: the results of one bulk call. *)
Definition interpretDetachResults (ops : gmap MachineStorageId detachFilesystemOp)
    (filesystemAttachmentParams : list FilesystemAttachmentParams)
    (errs : list extError) (acc : detachAcc) : M detachAcc :=
  rangeSlice (fun i err acc =>
      p ← index filesystemAttachmentParams i;
      let tag := Tag_String (TagFilesystem (fap_Filesystem p)) in
      let id := storageId (fap_Machine p) (fap_Filesystem p) in
      match err with
      | Some e =>
          _ ← logf Debug "failed to detach %s from %s: %v"
                [LStr (ReadableString (TagFilesystem (fap_Filesystem p)));
                 LStr (ReadableString (TagMachine (fap_Machine p))); LStr e];
          mret {| da_reschedule := da_reschedule acc ++ [OpDetach (ops !! id)];
                  da_statuses := da_statuses acc ++
                    [{| esa_Tag := tag; esa_Status := Status_String Detaching;
                        esa_Info := e |}];
                  da_remove := da_remove acc |}
      | None =>
          mret {| da_reschedule := da_reschedule acc;
                  da_statuses := da_statuses acc ++
                    [{| esa_Tag := tag; esa_Status := Status_String Detached;
                        esa_Info := EmptyString |}];
                  da_remove := da_remove acc ++ [id] |}
      end)
    0 errs acc.

(** Lines 313-351: the body of the loop over the sources. *)
Definition detachFromSource (ops : gmap MachineStorageId detachFilesystemOp)
    (filesystemSources : sourceMap)
    (sourceName : string) (filesystemAttachmentParams : list FilesystemAttachmentParams)
    (acc : detachAcc) : M detachAcc :=
  _ ← logf Debug "detaching filesystems: %+v" [LAttachmentParams filesystemAttachmentParams];
  ctx ← get;
  let ok := bool_decide (is_Some (filesystemSources !! sourceName)) in
  let filesystemSource := sourceOf filesystemSources sourceName in
  if negb ok && IsCAASModel ctx then
    _ ← logf Critical "sfsdfsdfsdfdsfds filesystemSource -> %+v" [LNilSource];
    mret acc
  else
    r ← method filesystemSource (CallDetachFilesystems filesystemAttachmentParams)
          (fun s h => DetachFilesystems s h filesystemAttachmentParams);
    match r with
    | BulkError err =>
        fail (Annotated (errorNew err) "detaching filesystems from source %q" [sourceName])
    | BulkResults errs =>
        interpretDetachResults ops filesystemAttachmentParams errs acc
    end.

(** Lines 312-352: the loop over the sources. *)
Definition detachFromSources (ops : gmap MachineStorageId detachFilesystemOp)
    (filesystemSources : sourceMap)
    (paramsBySource : list (string * list FilesystemAttachmentParams)) (acc : detachAcc)
  : M detachAcc :=
  rangeSlice (fun _ '(sourceName, filesystemAttachmentParams) =>
      detachFromSource ops filesystemSources sourceName filesystemAttachmentParams)
    0 paramsBySource acc.

(** [detachFilesystems] destroys filesystem attachments with the
    specified parameters. *)
Definition detachFilesystems (ops : gmap MachineStorageId detachFilesystemOp) : M unit :=
  ctx ← get;
  let filesystemAttachmentParams := (fun kv => dfo_args kv.2) <$> range ro ops in
  r ← filesystemAttachmentParamsBySource (StorageDir (ctx_config ctx))
        filesystemAttachmentParams (ctx_filesystems ctx) (managedFilesystemSource ctx);
  let '(paramsBySource, filesystemSources) := r in
  acc ← detachFromSources ops filesystemSources (range ro paramsBySource) detachAcc_empty;
  _ ← scheduleOperations (da_reschedule acc);
  _ ← setStatus (da_statuses acc);
  _ ← annotate "removing attachments from state" [] (removeAttachments (da_remove acc));
  rangeSlice (fun _ id (_ : unit) =>
      modify (fun ctx =>
        set_filesystemAttachments (delete id (ctx_filesystemAttachments ctx)) ctx))
    0 (da_remove acc) tt.

End FilesystemOps.

(** ** Concrete collaborators, for evaluating the executors *)

(** A rendering of tags: kind, dash, id; [Id] is the id itself. *)
Definition plainNames : Names :=
  {| Tag_String t :=
       match t with
       | TagFilesystem t => "filesystem-" +:+ ft_id t
       | TagVolume t => "volume-" +:+ vt_id t
       | TagMachine t => "machine-" +:+ mt_id t
       end;
     Tag_Id t :=
       match t with
       | TagFilesystem t => ft_id t
       | TagVolume t => vt_id t
       | TagMachine t => mt_id t
       end;
     ReadableString t :=
       match t with
       | TagFilesystem t => "filesystem " +:+ ft_id t
       | TagVolume t => "volume " +:+ vt_id t
       | TagMachine t => "machine " +:+ mt_id t
       end |}.

Definition filesystemOf (p : FilesystemParams) : Filesystem :=
  {| fs_Tag := fp_Tag p; fs_Volume := fp_Volume p;
     fs_FilesystemId := "id-" +:+ ft_id (fp_Tag p); fs_Size := fp_Size p |}.

Definition attachmentOf (p : FilesystemAttachmentParams) : FilesystemAttachment :=
  {| fa_Filesystem := fap_Filesystem p; fa_Machine := fap_Machine p;
     fa_Path := fap_Path p; fa_ReadOnly := fap_ReadOnly p |}.

(** A source on which every parameter is valid and every call succeeds
    for every entity. *)
Definition goodSource : FilesystemSource :=
  {| ValidateFilesystemParams _ _ := None;
     CreateFilesystems _ ps :=
       BulkResults ((fun p => {| cfr_Filesystem := Some (filesystemOf p);
                                 cfr_Error := None |}) <$> ps);
     AttachFilesystems _ ps :=
       BulkResults ((fun p => {| afr_FilesystemAttachment := Some (attachmentOf p);
                                 afr_Error := None |}) <$> ps);
     DetachFilesystems _ ps := BulkResults ((fun _ => None) <$> ps);
     DestroyFilesystems _ ids := BulkResults ((fun _ => None) <$> ids);
     ReleaseFilesystems _ ids := BulkResults ((fun _ => None) <$> ids) |}.

(** A source that rejects the parameters of size 0 and fails to create,
    attach, detach, destroy or release every entity. *)
Definition badSource : FilesystemSource :=
  {| ValidateFilesystemParams _ p :=
       if decide (fp_Size p = 0%N) then Some "invalid size" else None;
     CreateFilesystems _ ps :=
       BulkResults ((fun _ => {| cfr_Filesystem := None;
                                 cfr_Error := Some "no space" |}) <$> ps);
     AttachFilesystems _ ps :=
       BulkResults ((fun _ => {| afr_FilesystemAttachment := None;
                                 afr_Error := Some "not mounted" |}) <$> ps);
     DetachFilesystems _ ps := BulkResults ((fun _ => Some "busy") <$> ps);
     DestroyFilesystems _ ids := BulkResults ((fun _ => Some "in use") <$> ids);
     ReleaseFilesystems _ ids := BulkResults ((fun _ => Some "in use") <$> ids) |}.

(** A controller that accepts every record. *)
Definition goodAccessor : FilesystemAccessor :=
  {| SetFilesystemInfo _ fss := BulkResults ((fun _ => {| er_Error := None |}) <$> fss);
     SetFilesystemAttachmentInfo _ fas :=
       BulkResults ((fun _ => {| er_Error := None |}) <$> fas) |}.

(** A controller that takes the batch and rejects every record. *)
Definition rejectingAccessor : FilesystemAccessor :=
  {| SetFilesystemInfo _ fss :=
       BulkResults ((fun _ => {| er_Error := Some "not found" |}) <$> fss);
     SetFilesystemAttachmentInfo _ fas :=
       BulkResults ((fun _ => {| er_Error := Some "not found" |}) <$> fas) |}.

(** A registry that knows [loop] (good), [flaky] (bad) and reports
    [static] as non-dynamic; anything else is an error. *)
Definition testCollaborators : Collaborators :=
  {| filesystemSource_result _ _ sourceName _ :=
       if decide (sourceName = "loop") then (Some goodSource, None)
       else if decide (sourceName = "flaky") then (Some badSource, None)
       else if decide (sourceName = "static") then
         (None, Some (Annotated errNonDynamic "getting storage source %q params" [sourceName]))
       else (None, Some (errorNew "unknown provider"));
     removeFilesystemParams_result _ tags :=
       BulkResults ((fun t => {| rfp_Provider := "loop";
                                 rfp_FilesystemId := "id-" +:+ ft_id t;
                                 rfp_Destroy := bool_decide (ft_id t = "0") |}) <$> tags);
     removeEntities_result _ _ := None;
     removeAttachments_result _ _ := None |}.

Definition testContext (acc : FilesystemAccessor) (caas : bool)
    (cache : gmap FilesystemTag Filesystem) : context :=
  {| ctx_config := {| StorageDir := "/storage"; Filesystems := acc |};
     ctx_collab := testCollaborators;
     IsCAASModel := caas;
     managedFilesystemSource := Some goodSource;
     ctx_filesystems := cache;
     ctx_filesystemAttachments := ∅;
     events := [] |}.

Definition fsTag (id : string) : FilesystemTag := {| ft_id := id |}.

Definition createOp (id : string) (provider : ProviderType) (size : N) : createFilesystemOp :=
  {| cfo_backoff := {| eb_delay := 0; eb_attempt := 0 |};
     cfo_args := {| fp_Tag := fsTag id; fp_Volume := {| vt_id := EmptyString |};
                    fp_Size := size; fp_Provider := provider |} |}.

Definition attachParams (id : string) (provider : ProviderType) (path : string)
  : FilesystemAttachmentParams :=
  {| fap_Provider := provider; fap_Machine := {| mt_id := "0" |};
     fap_InstanceId := "inst-0"; fap_ReadOnly := false;
     fap_Filesystem := fsTag id; fap_FilesystemId := "id-" +:+ id;
     fap_Path := path |}.

Definition attachOp (id : string) (provider : ProviderType) (path : string)
  : attachFilesystemOp :=
  {| afo_backoff := {| eb_delay := 0; eb_attempt := 0 |};
     afo_args := attachParams id provider path |}.


Definition removeOp (id : string) : removeFilesystemOp :=
  {| rfo_backoff := {| eb_delay := 0; eb_attempt := 0 |}; rfo_tag := fsTag id |}.

Definition attachKey (id : string) : MachineStorageId :=
  {| msi_MachineTag := "machine-0"; msi_AttachmentTag := "filesystem-" +:+ id |}.

(** A controller that takes the batch and rejects its first record
    only. *)
Definition rejectFirstAccessor : FilesystemAccessor :=
  {| SetFilesystemInfo _ fss :=
       BulkResults (imap (fun i _ =>
         {| er_Error := if decide (i = 0%nat) then Some "not found" else None |}) fss);
     SetFilesystemAttachmentInfo _ fas :=
       BulkResults (imap (fun i _ =>
         {| er_Error := if decide (i = 0%nat) then Some "not found" else None |}) fas) |}.

(** A source that destroys every filesystem and fails to release any. *)
Definition mixedSource : FilesystemSource :=
  {| ValidateFilesystemParams _ _ := None;
     CreateFilesystems := CreateFilesystems goodSource;
     AttachFilesystems := AttachFilesystems goodSource;
     DetachFilesystems := DetachFilesystems goodSource;
     DestroyFilesystems := DestroyFilesystems goodSource;
     ReleaseFilesystems := ReleaseFilesystems badSource |}.

Definition twoCreateOps : gmap FilesystemTag createFilesystemOp :=
  {[ fsTag "1" := createOp "1" "flaky" 0; fsTag "2" := createOp "2" "flaky" 3 ]}.

Definition twoCreateParams : list FilesystemParams :=
  [cfo_args (createOp "1" "flaky" 0); cfo_args (createOp "2" "flaky" 3)].

Definition twoAttachOps : gmap MachineStorageId attachFilesystemOp :=
  {[ attachKey "0" := attachOp "0" "loop" "/mnt/0";
     attachKey "1" := attachOp "1" "loop" "/mnt/1" ]}.

Definition twoRemoveOps : gmap FilesystemTag removeFilesystemOp :=
  {[ fsTag "0" := removeOp "0"; fsTag "1" := removeOp "1" ]}.

Definition twoRemoveParams : gmap FilesystemTag RemoveFilesystemParams :=
  {[ fsTag "0" := {| rfp_Provider := "loop"; rfp_FilesystemId := "id-0";
                     rfp_Destroy := true |};
     fsTag "1" := {| rfp_Provider := "loop"; rfp_FilesystemId := "id-1";
                     rfp_Destroy := false |} ]}.

Definition removeBatch : list FilesystemParams :=
  [{| fp_Tag := fsTag "0"; fp_Volume := {| vt_id := EmptyString |}; fp_Size := 0;
      fp_Provider := "loop" |};
   {| fp_Tag := fsTag "1"; fp_Volume := {| vt_id := EmptyString |}; fp_Size := 0;
      fp_Provider := "loop" |}].

(** A cache that knows the filesystem [0], which is not backed by a
    volume. *)
Definition cacheOfZero : gmap FilesystemTag Filesystem :=
  {[ fsTag "0" := {| fs_Tag := fsTag "0"; fs_Volume := {| vt_id := EmptyString |};
                     fs_FilesystemId := "id-0"; fs_Size := 1 |} ]}.

Definition mixedSources : gmap string (option FilesystemSource) :=
  {[ "loop" := Some mixedSource ]}.

Definition flakySources : gmap string (option FilesystemSource) :=
  {[ "flaky" := Some badSource ]}.

(** A source that cannot be reached: its parameters are valid, and
    every bulk call fails as a whole. *)
Definition downSource : FilesystemSource :=
  {| ValidateFilesystemParams _ _ := None;
     CreateFilesystems _ _ := BulkError "connection refused";
     AttachFilesystems _ _ := BulkError "connection refused";
     DetachFilesystems _ _ := BulkError "connection refused";
     DestroyFilesystems _ _ := BulkError "connection refused";
     ReleaseFilesystems _ _ := BulkError "connection refused" |}.

Definition downSources : gmap string (option FilesystemSource) :=
  {[ "down" := Some downSource ]}.

(** A map of sources that binds a name to the nil source. *)
Definition nilSources : gmap string (option FilesystemSource) :=
  {[ "static" := None ]}.

Definition twoAttachParams : list FilesystemAttachmentParams :=
  [attachParams "0" "loop" "/mnt/0"; attachParams "1" "loop" "/mnt/1"].

(** The answer of a source that attaches the first filesystem and fails
    to attach the second. *)
Definition secondFails : list AttachFilesystemsResult :=
  [{| afr_FilesystemAttachment := Some (attachmentOf (attachParams "0" "loop" "/mnt/0"));
      afr_Error := None |};
   {| afr_FilesystemAttachment := None; afr_Error := Some "not mounted" |}].

(** A source that rejects the parameters of size 0 and cannot be reached
    for anything else: every bulk call fails as a whole. *)
Definition pickySource : FilesystemSource :=
  {| ValidateFilesystemParams := ValidateFilesystemParams badSource;
     CreateFilesystems := CreateFilesystems downSource;
     AttachFilesystems := AttachFilesystems downSource;
     DetachFilesystems := DetachFilesystems downSource;
     DestroyFilesystems := DestroyFilesystems downSource;
     ReleaseFilesystems := ReleaseFilesystems downSource |}.

(** A registry that knows [loop] (good), [down] and [picky], and a
    controller that has filesystem [0] destroyed and the others
    released, all by [down]. *)
Definition outageCollaborators : Collaborators :=
  {| filesystemSource_result _ _ sourceName _ :=
       if decide (sourceName = "loop") then (Some goodSource, None)
       else if decide (sourceName = "down") then (Some downSource, None)
       else if decide (sourceName = "picky") then (Some pickySource, None)
       else (None, Some (errorNew "unknown provider"));
     removeFilesystemParams_result _ tags :=
       BulkResults ((fun t => {| rfp_Provider := "down";
                                 rfp_FilesystemId := "id-" +:+ ft_id t;
                                 rfp_Destroy := bool_decide (ft_id t = "0") |}) <$> tags);
     removeEntities_result _ _ := None;
     removeAttachments_result _ _ := None |}.

Definition outageContext : context :=
  {| ctx_config := {| StorageDir := "/storage"; Filesystems := goodAccessor |};
     ctx_collab := outageCollaborators;
     IsCAASModel := false;
     managedFilesystemSource := Some goodSource;
     ctx_filesystems := ∅;
     ctx_filesystemAttachments := ∅;
     events := [] |}.


Definition pickyOps : gmap FilesystemTag createFilesystemOp :=
  {[ fsTag "1" := createOp "1" "picky" 0; fsTag "2" := createOp "2" "picky" 3 ]}.

Definition outageOps : gmap FilesystemTag createFilesystemOp :=
  {[ fsTag "1" := createOp "1" "loop" 1; fsTag "2" := createOp "2" "down" 1 ]}.


Definition mixedCreateOps : gmap FilesystemTag createFilesystemOp :=
  {[ fsTag "1" := createOp "1" "loop" 1; fsTag "2" := createOp "2" "flaky" 3 ]}.

(** The value of an outcome, or a default. *)
Definition okOr {A} (d : A) (r : outcome A) : A :=
  match r with
  | Ok a => a
  | _ => d
  end.

(** Does the source bound under a name accept parameters of size 0? *)
Definition acceptsSizeZero (s : option (option FilesystemSource)) : bool :=
  match s with
  | Some (Some s) =>
      bool_decide (ValidateFilesystemParams s [] (cfo_args (createOp "9" "loop" 0)) = None)
  | _ => false
  end.

(** ** The vocabulary of the properties *)

(** The context after the calls [evs] have been recorded. *)
Definition emitted (evs : history) (ctx : context) : context :=
  set_events (events ctx ++ evs) ctx.

(** [emits P m]: whatever [m] returns, it has only added calls that
    satisfy [P] to the history. *)
Definition emits {A} (P : event -> Prop) (m : M A) : Prop :=
  forall ctx r ctx', m ctx = (r, ctx') ->
    exists evs, events ctx' = events ctx ++ evs /\ Forall P evs.

(** The four executors. *)
Inductive pass :=
| CreatePass (ops : gmap FilesystemTag createFilesystemOp)
| AttachPass (ops : gmap MachineStorageId attachFilesystemOp)
| DetachPass (ops : gmap MachineStorageId detachFilesystemOp)
| RemovePass (ops : gmap FilesystemTag removeFilesystemOp).

Definition runPass {names : Names} (ro : RangeOrder) (p : pass) : M unit :=
  match p with
  | CreatePass ops => createFilesystems ro ops
  | AttachPass ops => attachFilesystems ro ops
  | DetachPass ops => detachFilesystems ro ops
  | RemovePass ops => removeFilesystems ro ops
  end.

(** The two calls that flush what a pass has accumulated. *)
Definition isFlush (e : event) : bool :=
  match e with
  | CallScheduleOperations _ | CallSetStatus _ => true
  | _ => false
  end.

(** The calls that resolve a source or reach a provider's source. *)
Definition isSourceCall (e : event) : bool :=
  match e with
  | CallFilesystemSource _ _ _
  | CallValidateFilesystemParams _
  | CallCreateFilesystems _
  | CallAttachFilesystems _
  | CallDetachFilesystems _
  | CallDestroyFilesystems _
  | CallReleaseFilesystems _ => true
  | _ => false
  end.

(** The registry has been asked about the source name [n] in [evs]. *)
Definition consulted (n : string) (evs : history) : Prop :=
  exists d pr, CallFilesystemSource d n pr ∈ evs.

(** What [filesystemParamsBySource] makes of the registry's answer for
    the name [n], asked with the history [h]: the source to bind ([Some
    None] is the nil source of a non-dynamic provider), or [None] when
    the answer is an error that aborts the call. *)
Definition resolved (collab : Collaborators) (h : history) (dir n : string)
  : option (option FilesystemSource) :=
  match filesystemSource_result collab h dir n n with
  | (src, None) => Some src
  | (_, Some e) => if decide (Cause e = errNonDynamic) then Some None else None
  end.

(** During the calls [evs], made after the history [h0], the registry
    has been asked about the provider [n] and has reported it as
    non-dynamic. *)
Definition nonDynamic (collab : Collaborators) (h0 evs : history) (dir n : string) : Prop :=
  exists evs1 evs2 e,
    evs = evs1 ++ CallFilesystemSource dir n n :: evs2 /\
    (filesystemSource_result collab (h0 ++ evs1) dir n n).2 = Some e /\
    Cause e = errNonDynamic.

Definition beforeFlush (e : event) : Prop := isFlush e = false.
Definition afterFlush (e : event) : Prop := isFlush e = false /\ isSourceCall e = false.

(** [flushesOnce ctx ctx']: between the two contexts there is exactly
    one [scheduleOperations] followed by exactly one [setStatus], and
    every call to a source comes before them. *)
Definition flushesOnce (ctx ctx' : context) : Prop :=
  exists pre reschedule statuses post,
    events ctx' =
      events ctx ++ pre ++ [CallScheduleOperations reschedule; CallSetStatus statuses] ++ post /\
    Forall beforeFlush pre /\ Forall afterFlush post.


(** A registry that returns a source whenever it returns no error. *)
Definition registryTotal (collab : Collaborators) (dir : string) : Prop :=
  forall h n src, filesystemSource_result collab h dir n n = (src, None) -> is_Some src.

Definition anyEvent (e : event) : Prop := True.

(** The removal requests of a batch, each tag with its parameters, and
    the two sub-batches by the [Destroy] flag. *)
Definition toDestroy (l : list (FilesystemTag * RemoveFilesystemParams))
  : list (FilesystemTag * RemoveFilesystemParams) :=
  filter (fun x => rfp_Destroy x.2 = true) l.

Definition toRelease (l : list (FilesystemTag * RemoveFilesystemParams))
  : list (FilesystemTag * RemoveFilesystemParams) :=
  filter (fun x => rfp_Destroy x.2 = false) l.

Definition idsOf (l : list (FilesystemTag * RemoveFilesystemParams)) : list string :=
  (fun x => rfp_FilesystemId x.2) <$> l.




(** The answers of the source's validation to the parameters [ps], asked
    one after the other from the history [h]. *)
Fixpoint validationResults (s : FilesystemSource) (h : history)
    (ps : list FilesystemParams) : list extError :=
  match ps with
  | [] => []
  | p :: ps' =>
      ValidateFilesystemParams s h p ::
      validationResults s (h ++ [CallValidateFilesystemParams p]) ps'
  end.

(** The parameters that passed validation, in the order of the input. *)
Definition passed (ps : list FilesystemParams) (errs : list extError)
  : list FilesystemParams :=
  (filter (fun x => x.2 = None) (zip ps errs)).*1.

(** The status of a parameter rejected by validation. *)
Definition errorStatus {names : Names} (p : FilesystemParams) (e : string)
  : EntityStatusArgs :=
  {| esa_Tag := Tag_String (TagFilesystem (fp_Tag p)); esa_Status := "error";
     esa_Info := e |}.

Definition errorStatuses {names : Names} (l : list (FilesystemParams * extError))
  : list EntityStatusArgs :=
  omap (fun x => errorStatus x.1 <$> x.2) l.

Definition validationLogs {names : Names} (l : list (FilesystemParams * extError))
  : history :=
  omap (fun x =>
          (fun e => CallLog Debug "failed to validate parameters for %s: %v"
                      [LStr (ReadableString (TagFilesystem (fp_Tag x.1))); LStr e])
          <$> x.2) l.

(** The status of a submitted parameter, by its result. *)
Definition createStatus {names : Names} (p : FilesystemParams)
    (r : CreateFilesystemsResult) : EntityStatusArgs :=
  match cfr_Error r with
  | Some e => {| esa_Tag := Tag_String (TagFilesystem (fp_Tag p));
                 esa_Status := "pending"; esa_Info := e |}
  | None => {| esa_Tag := Tag_String (TagFilesystem (fp_Tag p));
               esa_Status := "attaching"; esa_Info := EmptyString |}
  end.

Definition createStatuses {names : Names}
    (l : list (FilesystemParams * CreateFilesystemsResult)) : list EntityStatusArgs :=
  (fun x => createStatus x.1 x.2) <$> l.

Definition rescheduledCreations (ops : gmap FilesystemTag createFilesystemOp)
    (l : list (FilesystemParams * CreateFilesystemsResult)) : list scheduleOp :=
  omap (fun x => match cfr_Error x.2 with
                 | Some _ => Some (OpCreate (ops !! fp_Tag x.1))
                 | None => None
                 end) l.

Definition createdFilesystems (l : list (FilesystemParams * CreateFilesystemsResult))
  : list Filesystem :=
  omap (fun x => match cfr_Error x.2 with
                 | Some _ => None
                 | None => cfr_Filesystem x.2
                 end) l.

Definition createLogs {names : Names}
    (l : list (FilesystemParams * CreateFilesystemsResult)) : history :=
  omap (fun x =>
          (fun e => CallLog Debug "failed to create %s: %v"
                      [LStr (ReadableString (TagFilesystem (fp_Tag x.1))); LStr e])
          <$> cfr_Error x.2) l.

(** A result is well formed if it holds an error or a filesystem. *)
Definition resultOk (r : CreateFilesystemsResult) : Prop :=
  cfr_Error r = None -> is_Some (cfr_Filesystem r).

(** The cache after the filesystems [l] have been recorded. *)
Definition mergeFilesystems (l : list Filesystem) (m : gmap FilesystemTag Filesystem)
  : gmap FilesystemTag Filesystem :=
  foldl (fun m f => <[fs_Tag f := f]> m) m l.

Definition publishLogs {names : Names} (l : list (Filesystem * ErrorResult)) : history :=
  omap (fun x =>
          (fun e => CallLog LError "publishing filesystem %s to state: %v"
                      [LStr (Tag_Id (TagFilesystem (fs_Tag x.1))); LStr e])
          <$> er_Error x.2) l.

(** The cache of attachments after the attachments [l] have been
    recorded. *)
Definition mergeAttachments {names : Names} (l : list FilesystemAttachment)
    (m : gmap MachineStorageId FilesystemAttachment)
  : gmap MachineStorageId FilesystemAttachment :=
  foldl (fun m a => <[storageId (fa_Machine a) (fa_Filesystem a) := a]> m) m l.

Definition pendingCleared {names : Names} (l : list FilesystemAttachment) : history :=
  (fun a => CallRemovePendingFilesystemAttachment
              (storageId (fa_Machine a) (fa_Filesystem a))) <$> l.

(** ** The key of an attachment operation (lines 553-558) *)

(** The method [key] of [attachFilesystemOp]. *)
Definition attachFilesystemOp_key {names : Names} (op : attachFilesystemOp)
  : MachineStorageId :=
  {| msi_MachineTag := Tag_String (TagMachine (fap_Machine (afo_args op)));
     msi_AttachmentTag := Tag_String (TagFilesystem (fap_Filesystem (afo_args op))) |}.

(** ** More vocabulary: attachments, detachments, frames *)

(** [emitsOnly m]: whatever [m] returns, it has left the context as it
    was but for the calls it has recorded. *)
Definition emitsOnly {A} (m : M A) : Prop :=
  forall ctx r ctx', m ctx = (r, ctx') -> exists evs, ctx' = emitted evs ctx.

(** A pass has flushed at most once: it has failed before the flush
    without any flushing call, or it has flushed exactly once. *)
Definition flushesAtMostOnce (m : M unit) : Prop :=
  forall ctx r ctx', m ctx = (r, ctx') ->
    (r ≠ Ok tt /\ exists evs, events ctx' = events ctx ++ evs /\ Forall beforeFlush evs) \/
    flushesOnce ctx ctx'.

(** The status of an attachment parameter, by its result. *)
Definition attachStatus {names : Names} (p : FilesystemAttachmentParams)
    (r : AttachFilesystemsResult) : EntityStatusArgs :=
  match afr_Error r with
  | Some e => {| esa_Tag := Tag_String (TagFilesystem (fap_Filesystem p));
                 esa_Status := "attaching"; esa_Info := e |}
  | None => {| esa_Tag := Tag_String (TagFilesystem (fap_Filesystem p));
               esa_Status := "attached"; esa_Info := EmptyString |}
  end.

Definition attachStatuses {names : Names}
    (l : list (FilesystemAttachmentParams * AttachFilesystemsResult))
  : list EntityStatusArgs :=
  (fun x => attachStatus x.1 x.2) <$> l.

Definition rescheduledAttachments {names : Names}
    (ops : gmap MachineStorageId attachFilesystemOp)
    (l : list (FilesystemAttachmentParams * AttachFilesystemsResult)) : list scheduleOp :=
  omap (fun x => match afr_Error x.2 with
                 | Some _ =>
                     Some (OpAttach (ops !! storageId (fap_Machine x.1) (fap_Filesystem x.1)))
                 | None => None
                 end) l.

Definition attachedOf (l : list (FilesystemAttachmentParams * AttachFilesystemsResult))
  : list FilesystemAttachment :=
  omap (fun x => match afr_Error x.2 with
                 | Some _ => None
                 | None => afr_FilesystemAttachment x.2
                 end) l.

Definition attachLogs {names : Names}
    (l : list (FilesystemAttachmentParams * AttachFilesystemsResult)) : history :=
  omap (fun x =>
          (fun e => CallLog Debug "failed to attach %s to %s: %v"
                      [LStr (ReadableString (TagFilesystem (fap_Filesystem x.1)));
                       LStr (ReadableString (TagMachine (fap_Machine x.1))); LStr e])
          <$> afr_Error x.2) l.

(** An attachment result is well formed if it holds an error or an
    attachment. *)
Definition attachResultOk (r : AttachFilesystemsResult) : Prop :=
  afr_Error r = None -> is_Some (afr_FilesystemAttachment r).

(** The status of a detached parameter, by the error of its result. *)
Definition detachStatus {names : Names} (p : FilesystemAttachmentParams)
    (err : extError) : EntityStatusArgs :=
  match err with
  | Some e => {| esa_Tag := Tag_String (TagFilesystem (fap_Filesystem p));
                 esa_Status := "detaching"; esa_Info := e |}
  | None => {| esa_Tag := Tag_String (TagFilesystem (fap_Filesystem p));
               esa_Status := "detached"; esa_Info := EmptyString |}
  end.

Definition detachStatuses {names : Names}
    (l : list (FilesystemAttachmentParams * extError)) : list EntityStatusArgs :=
  (fun x => detachStatus x.1 x.2) <$> l.

Definition rescheduledDetachments {names : Names}
    (ops : gmap MachineStorageId detachFilesystemOp)
    (l : list (FilesystemAttachmentParams * extError)) : list scheduleOp :=
  omap (fun x => match x.2 with
                 | Some _ =>
                     Some (OpDetach (ops !! storageId (fap_Machine x.1) (fap_Filesystem x.1)))
                 | None => None
                 end) l.

Definition detachedIds {names : Names}
    (l : list (FilesystemAttachmentParams * extError)) : list MachineStorageId :=
  omap (fun x => match x.2 with
                 | Some _ => None
                 | None => Some (storageId (fap_Machine x.1) (fap_Filesystem x.1))
                 end) l.

Definition detachLogs {names : Names}
    (l : list (FilesystemAttachmentParams * extError)) : history :=
  omap (fun x =>
          (fun e => CallLog Debug "failed to detach %s from %s: %v"
                      [LStr (ReadableString (TagFilesystem (fap_Filesystem x.1)));
                       LStr (ReadableString (TagMachine (fap_Machine x.1))); LStr e])
          <$> x.2) l.

(** The log line of the branch of [detachFilesystems] that skips a
    source (line 317), the only one at the level Critical. *)
Definition isCritical (e : event) : bool :=
  match e with
  | CallLog Critical _ _ => true
  | _ => false
  end.

(** The cache of attachments after the ids [l] have been deleted. *)
Definition deleteAttachments (l : list MachineStorageId)
    (m : gmap MachineStorageId FilesystemAttachment)
  : gmap MachineStorageId FilesystemAttachment :=
  foldl (fun m id => delete id m) m l.

(** The filesystem parameters [removeFilesystems] builds from a tag and
    the parameters the controller returned for it (lines 202-205). *)
Definition removalParams (x : FilesystemTag * RemoveFilesystemParams) : FilesystemParams :=
  {| fp_Tag := x.1; fp_Volume := {| vt_id := EmptyString |}; fp_Size := 0%N;
     fp_Provider := rfp_Provider x.2 |}.

(** The map [removeFilesystems] builds from the tags and the parameters
    the controller returned for them (line 201): a later entry replaces
    an earlier one under the same tag. *)
Definition removalsByTag (l : list (FilesystemTag * RemoveFilesystemParams))
  : gmap FilesystemTag RemoveFilesystemParams :=
  foldl (fun m x => <[x.1 := x.2]> m) ∅ l.

(** ** The anatomy of a pass that returns nil *)

(** What a create pass does for one source: the source's name and
    parameters, the source bound to the name, the history when the loop
    reaches the source, and the results of the bulk call (none when no
    parameter is valid). *)
Record createBatch := {
  cb_name : string;
  cb_params : list FilesystemParams;
  cb_source : FilesystemSource;
  cb_before : history;
  cb_results : list CreateFilesystemsResult;
}.

Definition cb_start (b : createBatch) : event :=
  CallLog Debug "creating filesystems: %v" [LFilesystemParams (cb_params b)].

(** The verdicts of the source's validation, one per parameter, each
    given when the parameter is asked about. *)
Definition cb_errs (b : createBatch) : list extError :=
  validationResults (cb_source b) (cb_before b ++ [cb_start b]) (cb_params b).

Definition cb_valid (b : createBatch) : list FilesystemParams :=
  passed (cb_params b) (cb_errs b).

Definition cb_validation {names : Names} (b : createBatch) : history :=
  (CallValidateFilesystemParams <$> cb_params b) ++
  validationLogs (zip (cb_params b) (cb_errs b)).

Definition cb_submit (b : createBatch) : history :=
  if decide (cb_valid b = []) then [] else [CallCreateFilesystems (cb_valid b)].

(** The calls made for the source, in order. *)
Definition cb_trace {names : Names} (b : createBatch) : history :=
  cb_start b :: cb_validation b ++ cb_submit b ++
  createLogs (zip (cb_valid b) (cb_results b)).

(** The results are the source's answer to the bulk call, made with the
    valid parameters after the validation; they are well formed, at most
    one per valid parameter. *)
Definition cb_answered {names : Names} (b : createBatch) : Prop :=
  (if decide (cb_valid b = []) then cb_results b = []
   else CreateFilesystems (cb_source b)
          (cb_before b ++ cb_start b :: cb_validation b) (cb_valid b)
        = BulkResults (cb_results b)) /\
  (length (cb_results b) ≤ length (cb_valid b))%nat /\
  Forall resultOk (cb_results b).

Definition cb_statuses {names : Names} (b : createBatch) : list EntityStatusArgs :=
  errorStatuses (zip (cb_params b) (cb_errs b)) ++
  createStatuses (zip (cb_valid b) (cb_results b)).

Definition cb_reschedule (ops : gmap FilesystemTag createFilesystemOp) (b : createBatch)
  : list scheduleOp :=
  rescheduledCreations ops (zip (cb_valid b) (cb_results b)).

Definition cb_filesystems (b : createBatch) : list Filesystem :=
  createdFilesystems (zip (cb_valid b) (cb_results b)).

(** The batches of a create pass, one after the other from the history
    [h]: each starts where the one before has stopped, and uses the
    source bound to its name. *)
Fixpoint createBatches {names : Names} (srcs : gmap string (option FilesystemSource))
    (h : history) (bs : list createBatch) : Prop :=
  match bs with
  | [] => True
  | b :: bs' =>
      cb_before b = h /\ sourceOf srcs (cb_name b) = Some (cb_source b) /\
      cb_answered b /\ createBatches srcs (h ++ cb_trace b) bs'
  end.

Definition isPublishLog (e : event) : Prop :=
  exists args, e = CallLog LError "publishing filesystem %s to state: %v" args.






Section RemoveBatch.
Context {names : Names} (ops : gmap FilesystemTag removeFilesystemOp)
  (byTag : gmap FilesystemTag RemoveFilesystemParams).












End RemoveBatch.

(** * Properties *)

(** ** The monad *)

Lemma emitted_nil ctx : emitted [] ctx = ctx.
Proof. destruct ctx. unfold emitted, set_events. cbn. by rewrite app_nil_r. Qed.

Lemma emitted_app evs1 evs2 ctx :
  emitted evs2 (emitted evs1 ctx) = emitted (evs1 ++ evs2) ctx.
Proof. unfold emitted, set_events. cbn. by rewrite app_assoc. Qed.

Lemma events_emitted evs ctx : events (emitted evs ctx) = events ctx ++ evs.
Proof. reflexivity. Qed.

Lemma run_bind {A B} (m : M A) (f : A -> M B) ctx :
  (m ≫= f) ctx =
  match m ctx with
  | (Ok a, ctx') => f a ctx'
  | (Err e, ctx') => (Err e, ctx')
  | (Panic, ctx') => (Panic, ctx')
  end.
Proof. reflexivity. Qed.

Lemma run_emit e ctx : emit e ctx = (Ok tt, emitted [e] ctx).
Proof. reflexivity. Qed.

Lemma run_logf l f a ctx : logf l f a ctx = (Ok tt, emitted [CallLog l f a] ctx).
Proof. reflexivity. Qed.

Lemma run_call {A} e (answer : history -> A) ctx :
  call e answer ctx = (Ok (answer (events ctx)), emitted [e] ctx).
Proof. reflexivity. Qed.

Lemma run_ret {A} (a : A) ctx : (mret a : M A) ctx = (Ok a, ctx).
Proof. reflexivity. Qed.

Lemma run_fail {A} e ctx : @fail A e ctx = (Err e, ctx).
Proof. reflexivity. Qed.

Lemma run_panic {A} ctx : @panic A ctx = (Panic, ctx).
Proof. reflexivity. Qed.

Lemma run_get ctx : get ctx = (Ok ctx, ctx).
Proof. reflexivity. Qed.

Lemma run_modify f ctx : modify f ctx = (Ok tt, f ctx).
Proof. reflexivity. Qed.

Lemma run_deref {A} (x : A) ctx : deref (Some x) ctx = (Ok x, ctx).
Proof. reflexivity. Qed.

Lemma run_deref_nil {A} ctx : deref (@None A) ctx = (Panic, ctx).
Proof. reflexivity. Qed.

(** Run the computation in the goal as far as its primitives go. *)
Ltac mrun :=
  repeat (progress (rewrite ?run_bind, ?run_get, ?run_ret, ?run_fail, ?run_panic,
                      ?run_call, ?run_emit, ?run_logf, ?run_modify,
                      ?run_deref, ?run_deref_nil;
                    cbv beta iota)).

Lemma run_index {A} (l : list A) i x ctx :
  l !! i = Some x -> index l i ctx = (Ok x, ctx).
Proof. intros Hl. unfold index. by rewrite Hl. Qed.

Lemma rangeSlice_app {A B} (body : nat -> A -> B -> M B) l1 l2 i b ctx :
  rangeSlice body i (l1 ++ l2) b ctx =
  (rangeSlice body i l1 b ≫= rangeSlice body (i + length l1) l2) ctx.
Proof.
  revert i b ctx. induction l1 as [|x l1 IH]; intros i b ctx.
  - cbn. by rewrite Nat.add_0_r.
  - cbn [rangeSlice app length]. rewrite !run_bind.
    destruct (body i x b ctx) as [[b'| |] ctx']; try done.
    rewrite IH, run_bind. by replace (i + S (length l1)) with (S i + length l1) by lia.
Qed.

(** A loop whose body does not read the index. *)
Lemma rangeSlice_shift {A B} (body : A -> B -> M B) l i j b ctx :
  rangeSlice (fun _ => body) i l b ctx = rangeSlice (fun _ => body) j l b ctx.
Proof.
  revert i j b ctx. induction l as [|x l IH]; intros i j b ctx; [done|].
  cbn [rangeSlice]. rewrite !run_bind.
  destruct (body x b ctx) as [[b'| |] ctx']; auto.
Qed.

(** ** What a computation adds to the history *)

Section Emits.
Context (P : event -> Prop).

Lemma emits_ret {A} (a : A) : emits P (mret a).
Proof. intros ctx r ctx' [= <- <-]. exists []. by rewrite app_nil_r. Qed.

Lemma emits_fail {A} e : emits P (@fail A e).
Proof. intros ctx r ctx' [= <- <-]. exists []. by rewrite app_nil_r. Qed.

Lemma emits_panic {A} : emits P (@panic A).
Proof. intros ctx r ctx' [= <- <-]. exists []. by rewrite app_nil_r. Qed.

Lemma emits_get : emits P get.
Proof. intros ctx r ctx' [= <- <-]. exists []. by rewrite app_nil_r. Qed.

Lemma emits_modify f :
  (forall ctx, events (f ctx) = events ctx) -> emits P (modify f).
Proof. intros Hf ctx r ctx' [= <- <-]. exists []. by rewrite app_nil_r, Hf. Qed.

Lemma emits_emit e : P e -> emits P (emit e).
Proof. intros He ctx r ctx' [= <- <-]. exists [e]. split; [done|]. by constructor. Qed.

Lemma emits_bind {A B} (m : M A) (f : A -> M B) :
  emits P m -> (forall a, emits P (f a)) -> emits P (m ≫= f).
Proof.
  intros Hm Hf ctx r ctx'. rewrite run_bind.
  destruct (m ctx) as [[a|e|] ctx1] eqn:Em;
    destruct (Hm _ _ _ Em) as (evs1 & Hev1 & HP1).
  - intros Ef. destruct (Hf _ _ _ _ Ef) as (evs2 & Hev2 & HP2).
    exists (evs1 ++ evs2). split; [|by apply Forall_app].
    by rewrite Hev2, Hev1, app_assoc.
  - intros [= <- <-]. eauto.
  - intros [= <- <-]. eauto.
Qed.

Lemma emits_index {A} (l : list A) i : emits P (index l i).
Proof. unfold index. destruct (l !! i); [apply emits_ret | apply emits_panic]. Qed.

Lemma emits_deref {A} (p : option A) : emits P (deref p).
Proof. destruct p; [apply emits_ret | apply emits_panic]. Qed.

Lemma emits_rangeSlice {A B} (body : nat -> A -> B -> M B) i l b :
  (forall i x b, emits P (body i x b)) -> emits P (rangeSlice body i l b).
Proof.
  intros Hbody. revert i b. induction l as [|x l IH]; intros i b; cbn [rangeSlice].
  - apply emits_ret.
  - apply emits_bind; [apply Hbody | intros b'; apply IH].
Qed.

Lemma emits_annotate {A} format args (m : M A) : emits P m -> emits P (annotate format args m).
Proof.
  intros Hm ctx r ctx'. unfold annotate.
  destruct (m ctx) as [[a|e|] ctx1] eqn:Em; intros [= <- <-]; eauto.
Qed.

End Emits.

Lemma emits_call {A} (P : event -> Prop) e (answer : history -> A) :
  P e -> emits P (call e answer).
Proof.
  intros He. unfold call.
  apply emits_bind; [apply emits_get | intros ctx].
  apply emits_bind; [by apply emits_emit | intros _; apply emits_ret].
Qed.

(** Prove [emits P m] along the structure of [m]; calls are left as
    goals [P e] and closed by [tac]. *)
Ltac emits_with tac :=
  repeat first
    [ apply emits_ret | apply emits_fail | apply emits_panic | apply emits_get
    | apply emits_index | apply emits_deref
    | apply emits_bind; [|intros ?]
    | apply emits_rangeSlice; intros ? ? ?
    | apply emits_annotate
    | apply emits_call; tac
    | apply emits_emit; tac
    | apply emits_modify; reflexivity
    | match goal with
      | |- emits _ (match ?x with _ => _ end) => destruct x
      | |- emits _ (match ?x with _ => _ end _) => destruct x
      end ].

(** ** One flush per pass *)



Create HintDb model discriminated.
#[local] Hint Unfold filesystemParamsBySource resolveParamsSource filesystemSource
  filesystemAttachmentParamsBySource resolveAttachmentSource
  validateFilesystemParams method
  removePendingFilesystemAttachment ofExtError removeEntities removeAttachments
  removeFilesystemParams updateFilesystem recordValidationErrors
  interpretCreateResults createFromSource createFromSources publishFilesystems
  setFilesystemAttachmentInfo interpretAttachResults attachFromSource
  partitionRemoveFilesystemParams interpretRemoveResults removeFilesystemsWith
  removeFromSource removeParamsByTag interpretDetachResults detachFromSource
  detachFromSources logf : model.

Ltac emits_auto tac :=
  repeat first
    [ progress emits_with tac
    | progress autounfold with model ].



(** ** The source resolvers *)

Section Resolvers.
Context {names : Names}.

Lemma appendTo_lookup {A} k (x : A) m n :
  default [] (appendTo k x m !! n) =
  default [] (m !! n) ++ (if decide (k = n) then [x] else []).
Proof.
  unfold appendTo. destruct (decide (k = n)) as [->|Hne].
  - by rewrite lookup_insert_eq.
  - rewrite lookup_insert_ne by done. by rewrite app_nil_r.
Qed.

Lemma appendTo_nonempty {A} k (x : A) m n :
  m !! n ≠ Some [] -> appendTo k x m !! n ≠ Some [].
Proof.
  unfold appendTo. intros Hm. destruct (decide (k = n)) as [->|Hne].
  - rewrite lookup_insert_eq. intros [= E]. by destruct (default [] (m !! n)).
  - by rewrite lookup_insert_ne.
Qed.

(** One step of the attachment resolver that does not fail. *)
Lemma resolveAttachmentSource_ok dir cache managed p pbs0 srcs0 ctx pbs srcs ctx' :
  resolveAttachmentSource dir cache managed p (pbs0, srcs0) ctx = (Ok (pbs, srcs), ctx') ->
  let n := fap_Provider p in
  pbs = appendTo n p pbs0 /\
  ((is_Some (srcs0 !! n) /\ srcs = srcs0 /\ ctx' = ctx) \/
   (srcs0 !! n = None /\ viaManagedSource cache p = true /\
    srcs = <[n := managed]> srcs0 /\ ctx' = ctx) \/
   (srcs0 !! n = None /\ viaManagedSource cache p = false /\
    exists src,
      filesystemSource_result (ctx_collab ctx) (events ctx) dir n n = (src, None) /\
      srcs = <[n := src]> srcs0 /\
      ctx' = emitted [CallFilesystemSource dir n n] ctx)).
Proof.
  unfold resolveAttachmentSource. cbn zeta.
  destruct (srcs0 !! fap_Provider p) as [v|] eqn:Es.
  - intros [= <- <- <-]. split; [done|]. left. eauto.
  - destruct (viaManagedSource cache p) eqn:Ev.
    + intros [= <- <- <-]. split; [done|]. right; left. eauto.
    + unfold filesystemSource. mrun.
      destruct (filesystemSource_result _ _ _ _ _) as [src [e|]] eqn:Er; mrun; [done|].
      intros [= <- <- <-]. split; [done|]. right; right. split_and!; try done. by exists src.
Qed.

(** The loop of the attachment resolver when it does not fail: nothing
    is dropped, bound names stay bound, and the registry is asked only
    for names that were not bound before. *)
Lemma attachmentResolver_loop dir cache managed l :
  forall i pbs0 srcs0 ctx pbs srcs ctx',
  rangeSlice (fun _ => resolveAttachmentSource dir cache managed) i l (pbs0, srcs0) ctx
    = (Ok (pbs, srcs), ctx') ->
  exists evs, ctx' = emitted evs ctx /\
    (forall n, default [] (pbs !! n) =
               default [] (pbs0 !! n) ++ filter (fun p => fap_Provider p = n) l) /\
    (forall n, pbs0 !! n ≠ Some [] -> pbs !! n ≠ Some []) /\
    (forall n v, srcs0 !! n = Some v -> srcs !! n = Some v) /\
    (forall n, is_Some (srcs !! n) <-> is_Some (srcs0 !! n) \/ n ∈ fap_Provider <$> l) /\
    (forall e, e ∈ evs -> exists d n pr,
        e = CallFilesystemSource d n pr /\ srcs0 !! n = None /\ n ∈ fap_Provider <$> l).
Proof.
  induction l as [|p l IH]; intros i pbs0 srcs0 ctx pbs srcs ctx'.
  - intros [= <- <- <-]. exists []. rewrite emitted_nil. split_and!; try done.
    + intros n. by rewrite filter_nil, app_nil_r.
    + intros n. rewrite fmap_nil, elem_of_nil. tauto.
    + intros e He. by apply elem_of_nil in He.
  - cbn [rangeSlice]. rewrite run_bind.
    destruct (resolveAttachmentSource dir cache managed p (pbs0, srcs0) ctx)
      as [[[pbs1 srcs1]|e|] ctx1] eqn:Es; [|done..].
    apply resolveAttachmentSource_ok in Es as [-> Hcases]. intros Hl.
    apply IH in Hl as (evs & -> & Hpbs & Hne & Hmono & Hdom & Hev).
    assert (Hfil : forall n, default [] (pbs !! n) =
               default [] (pbs0 !! n) ++ filter (fun p => fap_Provider p = n) (p :: l)).
    { intros n. rewrite Hpbs, appendTo_lookup, filter_cons.
      repeat case_decide; try done; by rewrite <-?app_assoc, ?app_nil_r. }
    assert (Hne' : forall n, pbs0 !! n ≠ Some [] -> pbs !! n ≠ Some []).
    { intros n Hn. by apply Hne, appendTo_nonempty. }
    destruct Hcases as [([v Hv] & -> & ->) | [(Hnone & Hman & -> & ->) |
      (Hnone & Hman & src & Hans & -> & ->)]].
    + exists evs. split_and!; try done.
      * intros n. rewrite Hdom, fmap_cons, elem_of_cons. split; [tauto|].
        intros [?|[->|?]]; eauto.
      * intros e He. destruct (Hev e He) as (d & n & pr & -> & ? & ?).
        exists d, n, pr. rewrite fmap_cons, elem_of_cons. eauto.
    + exists evs. split_and!; try done.
      * intros n v Hn. apply Hmono. rewrite lookup_insert_ne; [done|]. congruence.
      * intros n. rewrite Hdom, fmap_cons, elem_of_cons, lookup_insert.
        case_decide; naive_solver.
      * intros e He. destruct (Hev e He) as (d & n & pr & -> & Hn & ?).
        exists d, n, pr. rewrite fmap_cons, elem_of_cons.
        rewrite lookup_insert in Hn. case_decide; [done|eauto].
    + exists (CallFilesystemSource dir (fap_Provider p) (fap_Provider p) :: evs).
      split_and!; try done.
      * by rewrite emitted_app.
      * intros n v Hn. apply Hmono. rewrite lookup_insert_ne; [done|]. congruence.
      * intros n. rewrite Hdom, fmap_cons, elem_of_cons, lookup_insert.
        case_decide; naive_solver.
      * intros e [->|He]%elem_of_cons.
        { eexists _, _, _. split; [done|]. rewrite fmap_cons. set_solver. }
        destruct (Hev e He) as (d & n & pr & -> & Hn & ?).
        exists d, n, pr. rewrite fmap_cons, elem_of_cons.
        rewrite lookup_insert in Hn. case_decide; [done|eauto].
Qed.

Lemma viaManagedSource_spec cache p :
  viaManagedSource cache p = true <->
  cache !! fap_Filesystem p = None \/
  exists f, cache !! fap_Filesystem p = Some f /\ fs_Volume f ≠ VolumeTag_zero.
Proof.
  unfold viaManagedSource. destruct (cache !! fap_Filesystem p) as [f|].
  - rewrite bool_decide_eq_true. naive_solver.
  - naive_solver.
Qed.

(** C10, amended. The attachment resolver binds a provider name once, by
    the first parameter that carries it. If that first parameter's
    filesystem is absent from the local cache, or cached with a backing
    volume, the name is bound to the managed source and the registry is
    not asked about it during the whole call. *)
Theorem attachment_first_uncached_is_managed
    dir params cache managed ctx pbs srcs ctx' i p :
  filesystemAttachmentParamsBySource dir params cache managed ctx
    = (Ok (pbs, srcs), ctx') ->
  params !! i = Some p ->
  (forall j q, j < i -> params !! j = Some q -> fap_Provider q ≠ fap_Provider p) ->
  (cache !! fap_Filesystem p = None \/
   exists f, cache !! fap_Filesystem p = Some f /\ fs_Volume f ≠ VolumeTag_zero) ->
  srcs !! fap_Provider p = Some managed /\
  exists evs, events ctx' = events ctx ++ evs /\ ~ consulted (fap_Provider p) evs.
Proof.
  intros Hrun Hi Hfirst Hman%viaManagedSource_spec.
  unfold filesystemAttachmentParamsBySource in Hrun.
  rewrite <-(take_drop_middle _ _ _ Hi), rangeSlice_app, run_bind in Hrun.
  destruct (rangeSlice _ 0 (take i params) _ ctx) as [[[pbs1 srcs1]|e|] ctx1] eqn:E1;
    [|done..].
  apply attachmentResolver_loop in E1 as (evs1 & -> & _ & _ & _ & Hdom1 & Hev1).
  assert (Hnot : fap_Provider p ∉ fap_Provider <$> take i params).
  { intros (q & Hq & [j Hj]%list_elem_of_lookup)%list_elem_of_fmap.
    apply lookup_take_Some in Hj as [Hj Hlt]. symmetry in Hq. by eapply Hfirst. }
  assert (Hs1 : srcs1 !! fap_Provider p = None).
  { apply eq_None_not_Some. rewrite Hdom1, lookup_empty. intros [[? [=]]|?]. done. }
  cbn [rangeSlice] in Hrun. rewrite run_bind in Hrun.
  destruct (resolveAttachmentSource dir cache managed p (pbs1, srcs1) (emitted evs1 ctx))
    as [[[pbs2 srcs2]|e|] ctx2] eqn:E2; [|done..].
  apply resolveAttachmentSource_ok in E2 as [-> Hcases].
  destruct Hcases as [([v Hv] & _) | [(_ & _ & -> & ->) | (_ & Hf & _)]];
    [congruence| |congruence].
  apply attachmentResolver_loop in Hrun as (evs2 & -> & _ & _ & Hmono & _ & Hev2).
  split; [apply Hmono, lookup_insert_eq|].
  exists (evs1 ++ evs2). split; [by rewrite emitted_app|].
  intros (d & pr & [He|He]%elem_of_app).
  - destruct (Hev1 _ He) as (? & ? & ? & [= <- <- <-] & _ & ?). done.
  - destruct (Hev2 _ He) as (? & ? & ? & [= <- <- <-] & Hn & _).
    by rewrite lookup_insert_eq in Hn.
Qed.

(** One step of the creation resolver that does not fail. *)
Lemma resolveParamsSource_ok dir managed p srcs0 ctx srcs ctx' :
  resolveParamsSource dir managed p srcs0 ctx = (Ok srcs, ctx') ->
  let n := fp_Provider p in
  (is_Some (srcs0 !! n) /\ srcs = srcs0 /\ ctx' = ctx) \/
  (srcs0 !! n = None /\ fp_Volume p ≠ VolumeTag_zero /\
   srcs = <[n := managed]> srcs0 /\ ctx' = ctx) \/
  (srcs0 !! n = None /\ fp_Volume p = VolumeTag_zero /\
   exists v, resolved (ctx_collab ctx) (events ctx) dir n = Some v /\
     srcs = <[n := v]> srcs0 /\
     ctx' = emitted [CallFilesystemSource dir n n] ctx).
Proof.
  unfold resolveParamsSource, resolved. cbn zeta.
  destruct (srcs0 !! fp_Provider p) as [v|] eqn:Es.
  - intros [= <- <-]. left. eauto.
  - destruct (decide (fp_Volume p ≠ VolumeTag_zero)) as [Hv|Hv%dec_stable].
    + intros [= <- <-]. right; left. eauto.
    + unfold filesystemSource. mrun.
      destruct (filesystemSource_result _ _ _ _ _) as [src [e|]] eqn:Er; mrun.
      * destruct (decide (Cause e = errNonDynamic)); mrun; [|done].
        intros [= <- <-]. right; right. split_and!; try done. by exists None.
      * intros [= <- <-]. right; right. split_and!; try done. by exists src.
Qed.

(** One step of the creation resolver never panics, and fails only on an
    answer of the registry that is an error other than non-dynamic. *)
Lemma resolveParamsSource_total dir managed p srcs0 ctx :
  (forall h n, resolved (ctx_collab ctx) h dir n ≠ None) ->
  exists srcs evs, resolveParamsSource dir managed p srcs0 ctx = (Ok srcs, emitted evs ctx).
Proof.
  intros Hres. unfold resolveParamsSource. cbn zeta.
  destruct (srcs0 !! fp_Provider p) as [v|] eqn:Es.
  - exists srcs0, []. by rewrite emitted_nil.
  - destruct (decide (fp_Volume p ≠ VolumeTag_zero)) as [Hv|Hv].
    + eexists _, []. by rewrite emitted_nil.
    + unfold filesystemSource. mrun.
      specialize (Hres (events ctx) (fp_Provider p)). unfold resolved in Hres.
      destruct (filesystemSource_result _ _ _ _ _) as [src [e|]] eqn:Er; mrun.
      * destruct (decide (Cause e = errNonDynamic)); mrun; [|done]. eauto.
      * eauto.
Qed.

Lemma creationResolver_total dir managed l :
  forall i srcs0 ctx,
  (forall h n, resolved (ctx_collab ctx) h dir n ≠ None) ->
  exists srcs evs,
    rangeSlice (fun _ => resolveParamsSource dir managed) i l srcs0 ctx
      = (Ok srcs, emitted evs ctx).
Proof.
  induction l as [|p l IH]; intros i srcs0 ctx Hres.
  - exists srcs0, []. by rewrite emitted_nil.
  - cbn [rangeSlice]. rewrite run_bind.
    destruct (resolveParamsSource_total dir managed p srcs0 ctx Hres) as (srcs1 & evs1 & ->).
    destruct (IH (S i) srcs1 (emitted evs1 ctx) Hres) as (srcs & evs & ->).
    exists srcs, (evs1 ++ evs). by rewrite emitted_app.
Qed.

(** The first loop of the creation resolver when it does not fail: bound
    names stay bound, a name is bound when a parameter carries it, and
    each question to the registry binds the name to what has been made
    of the answer. *)
Lemma creationResolver_loop dir managed l :
  forall i srcs0 ctx srcs ctx',
  rangeSlice (fun _ => resolveParamsSource dir managed) i l srcs0 ctx = (Ok srcs, ctx') ->
  exists evs, ctx' = emitted evs ctx /\
    (forall n v, srcs0 !! n = Some v -> srcs !! n = Some v) /\
    (forall n, is_Some (srcs !! n) <-> is_Some (srcs0 !! n) \/ n ∈ fp_Provider <$> l) /\
    (forall evs1 e evs2, evs = evs1 ++ e :: evs2 ->
       exists n v, e = CallFilesystemSource dir n n /\ srcs0 !! n = None /\
         resolved (ctx_collab ctx) (events ctx ++ evs1) dir n = Some v /\
         srcs !! n = Some v) /\
    (forall n v, srcs0 !! n = None -> srcs !! n = Some v ->
       v = managed \/
       exists evs1 evs2, evs = evs1 ++ CallFilesystemSource dir n n :: evs2 /\
         resolved (ctx_collab ctx) (events ctx ++ evs1) dir n = Some v).
Proof.
  induction l as [|p l IH]; intros i srcs0 ctx srcs ctx'.
  - intros [= <- <-]. exists []. rewrite emitted_nil. split_and!; try done.
    + intros n. rewrite fmap_nil, elem_of_nil. tauto.
    + intros [|??] ? ? [=].
    + congruence.
  - cbn [rangeSlice]. rewrite run_bind.
    destruct (resolveParamsSource dir managed p srcs0 ctx) as [[srcs1|e|] ctx1] eqn:Es;
      [|done..].
    apply resolveParamsSource_ok in Es. intros Hl.
    apply IH in Hl as (evs & -> & Hmono & Hdom & Hev & Hnew).
    destruct Es as [([v Hv] & -> & ->) | [(Hnone & Hvol & -> & ->) |
      (Hnone & Hvol & v0 & Hans & -> & ->)]].
    + exists evs. split_and!; try done.
      intros n. rewrite Hdom, fmap_cons, elem_of_cons. naive_solver.
    + exists evs. split_and!; try done.
      * intros n v Hn. apply Hmono. rewrite lookup_insert_ne; [done|]. congruence.
      * intros n. rewrite Hdom, fmap_cons, elem_of_cons, lookup_insert.
        case_decide; naive_solver.
      * intros evs1 e evs2 E. destruct (Hev _ _ _ E) as (n & v & -> & Hn & ? & ?).
        exists n, v. rewrite lookup_insert in Hn. case_decide; [done|eauto].
      * intros n v Hn Hs. destruct (decide (fp_Provider p = n)) as [<-|Hne].
        { left. erewrite Hmono in Hs by apply lookup_insert_eq. congruence. }
        apply Hnew; [|done]. by rewrite lookup_insert_ne.
    + set (e0 := CallFilesystemSource dir (fp_Provider p) (fp_Provider p)) in *.
      exists (e0 :: evs). split_and!.
      * by rewrite emitted_app.
      * intros n v Hn. apply Hmono. rewrite lookup_insert_ne; [done|]. congruence.
      * intros n. rewrite Hdom, fmap_cons, elem_of_cons, lookup_insert.
        case_decide; naive_solver.
      * intros [|e1 evs1] e evs2 [= E1 E2].
        { subst e evs2. exists (fp_Provider p), v0. rewrite app_nil_r.
          split_and!; try done. apply Hmono, lookup_insert_eq. }
        subst e1. destruct (Hev _ _ _ E2) as (n & v & -> & Hn & Hr & ?).
        exists n, v. rewrite lookup_insert in Hn. case_decide; [done|].
        split_and!; try done. revert Hr. cbn. by rewrite <-app_assoc.
      * intros n v Hn Hs. destruct (decide (fp_Provider p = n)) as [<-|Hne].
        { erewrite Hmono in Hs by apply lookup_insert_eq. injection Hs as <-.
          right. exists [], evs. by rewrite app_nil_r. }
        destruct (Hnew n v) as [->|(evs1 & evs2 & -> & Hr)];
          [by rewrite lookup_insert_ne|done|by left|].
        right. exists (e0 :: evs1), evs2. split; [done|].
        revert Hr. cbn. by rewrite <-app_assoc.
Qed.

(** The second loop of the creation resolver: each partition is the
    list of the parameters of that provider, in order, if the provider's
    source is not nil, and is absent otherwise. *)
Lemma collectParams_foldl srcs l :
  forall pbs0 n,
  let pbs := foldl (collectParams srcs) pbs0 l in
  default [] (pbs !! n) =
    default [] (pbs0 !! n) ++
    (if decide (is_Some (sourceOf srcs n))
     then filter (fun p => fp_Provider p = n) l else []) /\
  (pbs0 !! n ≠ Some [] -> pbs !! n ≠ Some []).
Proof.
  induction l as [|p l IH]; intros pbs0 n; cbn zeta.
  - cbn [foldl]. split; [|done]. case_decide; by rewrite ?filter_nil, app_nil_r.
  - cbn [foldl]. destruct (IH (collectParams srcs pbs0 p) n) as [-> Hne].
    assert (Hstep :
      default [] (collectParams srcs pbs0 p !! n) =
        default [] (pbs0 !! n) ++
        (if decide (is_Some (sourceOf srcs n))
         then (if decide (fp_Provider p = n) then [p] else []) else []) /\
      (pbs0 !! n ≠ Some [] -> collectParams srcs pbs0 p !! n ≠ Some [])).
    { unfold collectParams. destruct (sourceOf srcs (fp_Provider p)) as [s|] eqn:Es.
      - rewrite appendTo_lookup. split; [|apply appendTo_nonempty].
        destruct (decide (fp_Provider p = n)) as [<-|?].
        + by rewrite Es, decide_True by eauto.
        + case_decide; by rewrite ?app_nil_r.
      - split; [|done]. destruct (decide (fp_Provider p = n)) as [<-|?].
        + rewrite Es, decide_False by (by intros [? [=]]). by rewrite app_nil_r.
        + case_decide; by rewrite app_nil_r. }
    destruct Hstep as [-> Hne1]. split; [|auto].
    rewrite filter_cons. repeat case_decide; by rewrite <-?app_assoc, ?app_nil_r.
Qed.

Lemma partition_members {A} (key : A -> string) (keep : string -> Prop)
    `{forall n, Decision (keep n)} (params : list A) (pbs : gmap string (list A)) :
  (forall n, default [] (pbs !! n) =
             if decide (keep n) then filter (fun p => key p = n) params else []) ->
  (forall n, pbs !! n ≠ Some []) ->
  (forall n l, pbs !! n = Some l -> l ≠ [] /\ l = filter (fun p => key p = n) params) /\
  (forall p, (exists n l, pbs !! n = Some l /\ p ∈ l) <-> p ∈ params /\ keep (key p)).
Proof.
  intros Hpbs Hne.
  assert (Hl : forall n l, pbs !! n = Some l ->
            l ≠ [] /\ l = filter (fun p => key p = n) params /\ keep n).
  { intros n l Hn. specialize (Hpbs n). rewrite Hn in Hpbs. cbn in Hpbs.
    assert (l ≠ []) by (intros ->; by apply (Hne n)).
    case_decide; [done|congruence]. }
  split; [intros n l Hn; by destruct (Hl n l Hn) as (? & ? & ?)|].
  intros p. split.
  - intros (n & l & Hn & Hp). destruct (Hl n l Hn) as (_ & -> & Hk).
    apply list_elem_of_filter in Hp as [<- Hp]. done.
  - intros [Hp Hk]. specialize (Hpbs (key p)). rewrite decide_True in Hpbs by done.
    assert (Hin : p ∈ default [] (pbs !! key p)).
    { rewrite Hpbs. by apply list_elem_of_filter. }
    destruct (pbs !! key p) as [l|] eqn:El; [eauto|]. by apply elem_of_nil in Hin.
Qed.

(** The attachment resolver succeeds only if every answer of the
    registry came without an error. *)
Lemma attachmentResolver_answers dir cache managed l :
  forall i pbs0 srcs0 ctx pbs srcs ctx' evs,
  rangeSlice (fun _ => resolveAttachmentSource dir cache managed) i l (pbs0, srcs0) ctx
    = (Ok (pbs, srcs), ctx') ->
  ctx' = emitted evs ctx ->
  forall evs1 e evs2, evs = evs1 ++ e :: evs2 ->
    exists n, e = CallFilesystemSource dir n n /\
      (filesystemSource_result (ctx_collab ctx) (events ctx ++ evs1) dir n n).2 = None.
Proof.
  induction l as [|p l IH]; intros i pbs0 srcs0 ctx pbs srcs ctx' evs.
  - intros [= <- <- <-] Hevs%(f_equal events) evs1 e evs2 ->.
    rewrite events_emitted in Hevs. apply (f_equal length) in Hevs.
    rewrite !length_app in Hevs. cbn in Hevs. lia.
  - cbn [rangeSlice]. rewrite run_bind.
    destruct (resolveAttachmentSource dir cache managed p (pbs0, srcs0) ctx)
      as [[[pbs1 srcs1]|e|] ctx1] eqn:Es; [|done..].
    apply resolveAttachmentSource_ok in Es as [-> Hcases]. intros Hl Hctx'.
    destruct (attachmentResolver_loop _ _ _ _ _ _ _ _ _ _ _ Hl) as (evs' & Hevs' & _).
    destruct Hcases as [(_ & -> & ->) | [(_ & _ & -> & ->) |
      (_ & _ & src & Hans & -> & ->)]].
    + by eapply IH.
    + by eapply IH.
    + assert (evs = CallFilesystemSource dir (fap_Provider p) (fap_Provider p) :: evs') as ->.
      { rewrite Hevs', emitted_app in Hctx'. apply (f_equal events) in Hctx'.
        rewrite !events_emitted in Hctx'. by apply app_inv_head in Hctx'. }
      intros [|e1 evs1] e evs2 [= E1 E2].
      * subst. eexists. split; [done|]. by rewrite app_nil_r, Hans.
      * subst e1. destruct (IH _ _ _ _ _ _ _ _ Hl Hevs' _ _ _ E2) as (n & -> & Hn).
        exists n. split; [done|]. revert Hn. cbn. by rewrite <-app_assoc.
Qed.

(** C2, amended. Creation path: if the managed source is present and
    the registry returns a source whenever it returns no error, the
    partitions of a successful call hold the input parameters minus
    exactly those whose provider the registry has reported as non-dynamic
    during the call, each partition being the parameters of its provider
    in input order; and a registry whose errors are all non-dynamic makes
    the call succeed. Attachment path: nothing is dropped; the
    partitions of a successful call hold every input parameter, and
    during a successful call the registry has reported no provider as
    non-dynamic (such a report is an error of the call). *)
Theorem partition_complete dir :
  (forall params managed ctx pbs srcs ctx',
     filesystemParamsBySource dir params managed ctx = (Ok (pbs, srcs), ctx') ->
     is_Some managed -> registryTotal (ctx_collab ctx) dir ->
     exists evs, events ctx' = events ctx ++ evs /\
       (forall n l, pbs !! n = Some l ->
          l ≠ [] /\ l = filter (fun p => fp_Provider p = n) params) /\
       (forall p, (exists n l, pbs !! n = Some l /\ p ∈ l) <->
          p ∈ params /\
          ~ nonDynamic (ctx_collab ctx) (events ctx) evs dir (fp_Provider p))) /\
  (forall params managed ctx,
     (forall h n, resolved (ctx_collab ctx) h dir n ≠ None) ->
     exists pbs srcs ctx',
       filesystemParamsBySource dir params managed ctx = (Ok (pbs, srcs), ctx')) /\
  (forall params cache managed ctx pbs srcs ctx',
     filesystemAttachmentParamsBySource dir params cache managed ctx
       = (Ok (pbs, srcs), ctx') ->
     exists evs, events ctx' = events ctx ++ evs /\
       (forall n l, pbs !! n = Some l ->
          l ≠ [] /\ l = filter (fun p => fap_Provider p = n) params) /\
       (forall p, (exists n l, pbs !! n = Some l /\ p ∈ l) <-> p ∈ params) /\
       (forall n, ~ nonDynamic (ctx_collab ctx) (events ctx) evs dir n)).
Proof.
  split_and!.
  - intros params managed ctx pbs srcs ctx' Hrun Hman Htotal.
    unfold filesystemParamsBySource in Hrun. rewrite run_bind in Hrun.
    destruct (rangeSlice _ 0 params ∅ ctx) as [[srcs1|e|] ctx1] eqn:E1; [|done..].
    injection Hrun as <- <- <-.
    apply creationResolver_loop in E1 as (evs & -> & _ & Hdom & Hev & Hnew).
    exists evs. split; [done|].
    assert (Hkeep : forall n, n ∈ fp_Provider <$> params ->
      is_Some (sourceOf srcs1 n) <-> ~ nonDynamic (ctx_collab ctx) (events ctx) evs dir n).
    { intros n Hn. assert (is_Some (srcs1 !! n)) as [v Hv] by (apply Hdom; by right).
      unfold sourceOf. rewrite Hv. cbn. split.
      - intros Hsome (evs1 & evs2 & e & -> & Hans & Hcause).
        destruct (Hev _ _ _ eq_refl) as (n' & v' & [= <-] & _ & Hr & Hv').
        unfold resolved in Hr.
        destruct (filesystemSource_result _ _ _ _ _) as [src oe]. cbn in Hans. subst oe.
        rewrite decide_True in Hr by done.
        rewrite Hv in Hv'. injection Hv' as ->. injection Hr as <-. by destruct Hsome.
      - intros Hnd. destruct v as [s|]; [eauto|]. exfalso.
        destruct (Hnew n None) as [Hm|(evs1 & evs2 & -> & Hr)]; [done|done|..].
        { rewrite <-Hm in Hman. by destruct Hman. }
        unfold resolved in Hr.
        destruct (filesystemSource_result _ _ _ _ _) as [src [e|]] eqn:Ea.
        + apply Hnd. exists evs1, evs2, e. rewrite Ea. split_and!; try done.
          by destruct (decide (Cause e = errNonDynamic)).
        + injection Hr as ->. apply Htotal in Ea. by destruct Ea. }
    pose proof (fun n => proj1 (collectParams_foldl srcs1 params ∅ n)) as Hpbs.
    pose proof (fun n => proj2 (collectParams_foldl srcs1 params ∅ n)) as Hne.
    cbn zeta in Hpbs, Hne.
    destruct (partition_members fp_Provider (fun n => is_Some (sourceOf srcs1 n)) params
                (foldl (collectParams srcs1) ∅ params)) as [H1 H2].
    { intros n. rewrite Hpbs, lookup_empty. done. }
    { intros n. apply Hne. by rewrite lookup_empty. }
    split; [done|]. intros p. rewrite H2. split.
    + intros [Hp Hs]. split; [done|]. apply Hkeep; [|done]. by apply list_elem_of_fmap_2.
    + intros [Hp Hs]. split; [done|]. apply Hkeep; [|done]. by apply list_elem_of_fmap_2.
  - intros params managed ctx Hres. unfold filesystemParamsBySource.
    destruct (creationResolver_total dir managed params 0 ∅ ctx Hres) as (srcs & evs & E).
    rewrite run_bind, E. eauto.
  - intros params cache managed ctx pbs srcs ctx' Hrun.
    unfold filesystemAttachmentParamsBySource in Hrun.
    pose proof (fun evs => attachmentResolver_answers _ _ _ _ _ _ _ _ _ _ _ evs Hrun) as Hans.
    apply attachmentResolver_loop in Hrun as (evs & -> & Hpbs & Hne & _ & _ & _).
    exists evs. split; [done|].
    destruct (partition_members fap_Provider (fun _ => True) params pbs) as [H1 H2].
    { intros n. rewrite Hpbs, lookup_empty. done. }
    { intros n. apply Hne. by rewrite lookup_empty. }
    split; [done|]. split; [intros p; rewrite H2; tauto|].
    intros n (evs1 & evs2 & e & -> & He & _).
    destruct (Hans _ eq_refl _ _ _ eq_refl) as (n' & [= <-] & Hnone). congruence.
Qed.

End Resolvers.

(** ** Loops that record one call per element *)

Lemma run_bind_inv {A B} (m : M A) (f : A -> M B) ctx b ctx' :
  (m ≫= f) ctx = (Ok b, ctx') ->
  exists a ctx1, m ctx = (Ok a, ctx1) /\ f a ctx1 = (Ok b, ctx').
Proof.
  rewrite run_bind. destruct (m ctx) as [[a|e|] ctx1]; [eauto|done..].
Qed.

Lemma rangeSlice_emits_each {A B} (body : nat -> A -> B -> M B) (f : A -> event) :
  (forall i x b, emits anyEvent (body i x b)) ->
  (forall i x b ctx b' ctx', body i x b ctx = (Ok b', ctx') ->
     exists evs, events ctx' = events ctx ++ evs /\ f x ∈ evs) ->
  forall l i b ctx b' ctx', rangeSlice body i l b ctx = (Ok b', ctx') ->
    exists evs, events ctx' = events ctx ++ evs /\ forall x, x ∈ l -> f x ∈ evs.
Proof.
  intros Hany Hbody. induction l as [|x l IH]; intros i b ctx b' ctx'.
  - intros [= <- <-]. exists []. rewrite app_nil_r. split; [done|].
    intros x Hx. by apply elem_of_nil in Hx.
  - cbn [rangeSlice]. intros (b1 & ctx1 & E1 & El)%run_bind_inv.
    destruct (Hbody _ _ _ _ _ _ E1) as (evs1 & Hev1 & Hin1).
    destruct (IH _ _ _ _ _ El) as (evs2 & Hev2 & Hin2).
    exists (evs1 ++ evs2). split; [by rewrite Hev2, Hev1, app_assoc|].
    intros y [->|Hy]%elem_of_cons; apply elem_of_app; eauto.
Qed.

(** ** [attachFilesystems]: the default mount path *)

Section AttachPath.
Context {names : Names} (ro : RangeOrder).

Lemma range_lookup `{Countable K} {A} (m : gmap K A) k v :
  (k, v) ∈ range ro m <-> m !! k = Some v.
Proof. by rewrite (range_perm ro), elem_of_map_to_list. Qed.

Lemma attachFromSource_submits ops srcs n ps acc ctx acc' ctx' :
  attachFromSource ops srcs n ps acc ctx = (Ok acc', ctx') ->
  exists evs, events ctx' = events ctx ++ evs /\ CallAttachFilesystems ps ∈ evs.
Proof.
  unfold attachFromSource, method. mrun.
  destruct (sourceOf srcs n) as [s|]; mrun; [|done].
  destruct (AttachFilesystems s _ ps) as [results|err]; mrun; [|done].
  intros E.
  assert (emits anyEvent (interpretAttachResults ops ps results acc)) as Hem
    by (emits_auto ltac:(exact I)).
  destruct (Hem _ _ _ E) as (evs & Hev & _).
  exists ([CallLog Debug "attaching filesystems: %+v" [LAttachmentParams ps];
           CallAttachFilesystems ps] ++ evs).
  split; [|set_solver].
  rewrite Hev. cbn. by rewrite <-!app_assoc.
Qed.

(** C3. In a pass of [attachFilesystems] that returns nil, every
    operation's parameters have been submitted to a provider's
    [AttachFilesystems] with this mount path: where the operation's path
    is empty, [filepath.Join] of the storage directory and the
    filesystem's id (nothing else of the parameters changes); where it is
    not, the path as supplied, the parameters being passed unchanged.
    With the storage directory "/storage" and the filesystem id "fs-0",
    the synthesized path is "/storage/fs-0". *)
Theorem attach_synthesizes_path ops ctx ctx' k op :
  attachFilesystems ro ops ctx = (Ok tt, ctx') ->
  ops !! k = Some op ->
  let dir := StorageDir (ctx_config ctx) in
  let args := afo_args op in
  let fsid := Tag_Id (TagFilesystem (fap_Filesystem args)) in
  exists p ps evs,
    events ctx' = events ctx ++ evs /\ CallAttachFilesystems ps ∈ evs /\ p ∈ ps /\
    (fap_Path args = EmptyString ->
       p = {| fap_Provider := fap_Provider args; fap_Machine := fap_Machine args;
              fap_InstanceId := fap_InstanceId args; fap_ReadOnly := fap_ReadOnly args;
              fap_Filesystem := fap_Filesystem args;
              fap_FilesystemId := fap_FilesystemId args;
              fap_Path := filepath.Join [dir; fsid] |}) /\
    (fap_Path args ≠ EmptyString -> p = args) /\
    (fap_Path args = EmptyString -> dir = "/storage" -> fsid = "fs-0" ->
       fap_Path p = "/storage/fs-0").
Proof.
  intros Hrun Hop.
  unfold attachFilesystems in Hrun. revert Hrun. mrun.
  intros ([pbs srcs] & ctx1 & Epart & Hrun)%run_bind_inv.
  apply run_bind_inv in Hrun as (acc & ctx2 & Eloop & Hrest).
  pose proof (proj2 (proj2 (partition_complete (StorageDir (ctx_config ctx))))
                _ _ _ _ _ _ _ Epart) as (evs1 & Hev1 & _ & Hmem & _).
  intros dir args fsid. set (p := attachArgs dir op).
  assert (Hp : p ∈ (fun kv => attachArgs dir kv.2) <$> range ro ops).
  { apply list_elem_of_fmap. exists (k, op). split; [done|]. by apply range_lookup. }
  apply Hmem in Hp as (n & ps & Hn & Hps).
  eapply (rangeSlice_emits_each _ (fun x => CallAttachFilesystems x.2)) in Eloop
    as (evs2 & Hev2 & Hin2).
  2: { intros i [n' ps'] b. emits_auto ltac:(exact I). }
  2: { intros i [n' ps'] b c b' c'. apply attachFromSource_submits. }
  assert (emits anyEvent (scheduleOperations (aa_reschedule acc) ≫= fun _ =>
            setStatus (aa_statuses acc) ≫= fun _ =>
            setFilesystemAttachmentInfo (aa_filesystemAttachments acc))) as Hem.
  { unfold scheduleOperations, setStatus. emits_auto ltac:(exact I). }
  destruct (Hem _ _ _ Hrest) as (evs3 & Hev3 & _).
  exists p, ps, (evs1 ++ evs2 ++ evs3). split_and!.
  - by rewrite Hev3, Hev2, Hev1, <-!app_assoc.
  - specialize (Hin2 (n, ps)). rewrite range_lookup in Hin2. set_solver.
  - done.
  - intros E. unfold p, attachArgs. fold args. by rewrite decide_True.
  - intros E. unfold p, attachArgs. fold args. by rewrite decide_False.
  - intros E Hd Hf. unfold p, attachArgs. fold args. rewrite decide_True by done.
    change (filepath.Join [dir; fsid] = "/storage/fs-0"). by rewrite Hd, Hf.
Qed.

End AttachPath.

(** ** [detachFilesystems]: a source name that is not bound *)

Section Detach.
Context {names : Names}.

(** The guard of lines 315-318, on the loop alone: a source name that is
    not bound in the map of resolved sources is skipped when the model
    is a CAAS model, and the loop goes on with the remaining sources.
    (Inside [detachFilesystems] every name is bound, see
    [attachment_partition_bound] below.) *)
Lemma detachFromSources_skips_unbound
    ops srcs n ps rest acc ctx :
  srcs !! n = None ->
  IsCAASModel ctx = true ->
  detachFromSources ops srcs ((n, ps) :: rest) acc ctx =
  detachFromSources ops srcs rest acc
    (emitted [CallLog Debug "detaching filesystems: %+v" [LAttachmentParams ps];
              CallLog Critical "sfsdfsdfsdfdsfds filesystemSource -> %+v" [LNilSource]]
       ctx).
Proof.
  intros Hn Hcaas. unfold detachFromSources. cbn [rangeSlice].
  rewrite run_bind. unfold detachFromSource at 1. mrun.
  rewrite Hn. cbn [negb andb bool_decide decide_rel]. 
  rewrite bool_decide_eq_false_2 by (by intros [? [=]]).
  cbn [negb andb]. change (IsCAASModel (emitted _ ctx)) with (IsCAASModel ctx).
  rewrite Hcaas. mrun. rewrite emitted_app.
  apply (rangeSlice_shift
           (fun '(sourceName, filesystemAttachmentParams) =>
              detachFromSource ops srcs sourceName filesystemAttachmentParams)).
Qed.

(** The resolver binds every name it returns a partition for (a bound
    name may still hold a nil source): after
    [filesystemAttachmentParamsBySource] the lookup in
    [detachFilesystems] always finds the name. *)
Lemma attachment_partition_bound dir params cache managed ctx pbs srcs ctx' n l :
  filesystemAttachmentParamsBySource dir params cache managed ctx
    = (Ok (pbs, srcs), ctx') ->
  pbs !! n = Some l -> is_Some (srcs !! n).
Proof.
  intros Hrun Hn. unfold filesystemAttachmentParamsBySource in Hrun.
  apply attachmentResolver_loop in Hrun as (evs & _ & Hpbs & Hne & _ & Hdom & _).
  apply Hdom. right. specialize (Hpbs n). rewrite Hn, lookup_empty in Hpbs. cbn in Hpbs.
  destruct l as [|p l]; [exfalso; by eapply Hne; [rewrite lookup_empty|]|].
  assert (Hp : p ∈ filter (fun p => fap_Provider p = n) params) by (rewrite <-Hpbs; left).
  apply list_elem_of_filter in Hp as [<- Hp]. by apply list_elem_of_fmap_2.
Qed.

End Detach.

(** ** [removeFilesystems]: destroy and release *)

Section Remove.
Context {names : Names}.


Lemma partitionRemoveFilesystemParams_loop (removeTags : list FilesystemTag) :
  forall (removeParams : list RemoveFilesystemParams) i dT dI rT rI ctx,
  (i + length removeParams ≤ length removeTags)%nat ->
  let z := zip (drop i removeTags) removeParams in
  rangeSlice (fun i args '(destroyTags, destroyIds, releaseTags, releaseIds) =>
      tag ← index removeTags i;
      if rfp_Destroy args then
        mret (destroyTags ++ [tag], destroyIds ++ [rfp_FilesystemId args],
              releaseTags, releaseIds)
      else
        mret (destroyTags, destroyIds,
              releaseTags ++ [tag], releaseIds ++ [rfp_FilesystemId args]))
    i removeParams (dT, dI, rT, rI) ctx =
  (Ok (dT ++ (toDestroy z).*1, dI ++ idsOf (toDestroy z),
       rT ++ (toRelease z).*1, rI ++ idsOf (toRelease z)), ctx).
Proof.
  induction removeParams as [|a l IH]; intros i dT dI rT rI ctx Hlen z.
  - subst z. rewrite zip_with_nil_r. cbn. by rewrite !app_nil_r.
  - cbn [length] in Hlen.
    destruct (lookup_lt_is_Some_2 removeTags i) as [t Ht]; [lia|].
    subst z. rewrite (drop_S _ _ _ Ht). cbn [rangeSlice zip_with].
    rewrite !run_bind, (run_index _ _ _ _ Ht). mrun.
    unfold toDestroy, toRelease, idsOf. rewrite !filter_cons. cbn [snd fst].
    destruct (rfp_Destroy a) eqn:Ea; mrun.
    + rewrite decide_True, decide_False by done.
      rewrite IH by lia. cbn. by rewrite <-!app_assoc.
    + rewrite decide_False, decide_True by done.
      rewrite IH by lia. cbn. by rewrite <-!app_assoc.
Qed.

(** [partitionRemoveFilesystemParams] on a tag per request: the two
    sub-batches by flag, each in input order. *)
Lemma partitionRemoveFilesystemParams_spec
    (removeTags : list FilesystemTag) (removeParams : list RemoveFilesystemParams) ctx :
  (length removeParams ≤ length removeTags)%nat ->
  let z := zip removeTags removeParams in
  partitionRemoveFilesystemParams removeTags removeParams ctx =
  (Ok ((toDestroy z).*1, idsOf (toDestroy z), (toRelease z).*1, idsOf (toRelease z)), ctx).
Proof.
  intros Hlen z. unfold partitionRemoveFilesystemParams.
  by rewrite partitionRemoveFilesystemParams_loop.
Qed.




End Remove.

(** ** [createFilesystems] *)

Section Create.
Context {names : Names}.

Lemma validateFilesystemParams_loop s :
  forall (ps : list FilesystemParams) i valid (done : list extError) k ctx,
  length done = i ->
  let errs := validationResults s (events ctx) ps in
  rangeSlice (fun i params '(valid, results) =>
      err ← method (Some s) (CallValidateFilesystemParams params)
              (fun s h => ValidateFilesystemParams s h params);
      let valid := match err with None => valid ++ [params] | Some _ => valid end in
      mret (valid, <[i := err]> results))
    i ps (valid, done ++ replicate (length ps + k) None) ctx =
  (Ok (valid ++ passed ps errs, done ++ errs ++ replicate k None),
   emitted (CallValidateFilesystemParams <$> ps) ctx).
Proof.
  induction ps as [|p ps IH]; intros i valid done k ctx Hi errs.
  - cbn. by rewrite emitted_nil, app_nil_r.
  - subst errs. cbn [rangeSlice validationResults length]. unfold method. mrun.
    replace (<[i:=ValidateFilesystemParams s (events ctx) p]>
               (done ++ replicate (S (length ps) + k) None))
      with ((done ++ [ValidateFilesystemParams s (events ctx) p]) ++
            replicate (length ps + k) None).
    2: { rewrite insert_app_r_alt by lia. rewrite Hi, Nat.sub_diag. cbn.
         by rewrite <-app_assoc. }
    unfold passed. cbn [zip_with]. rewrite filter_cons. cbn [snd].
    destruct (ValidateFilesystemParams s (events ctx) p) as [e|] eqn:Ev.
    + rewrite decide_False by done.
      rewrite IH by (rewrite length_app; cbn; lia).
      rewrite emitted_app, events_emitted. cbn. by rewrite <-!app_assoc.
    + rewrite decide_True by done.
      rewrite IH by (rewrite length_app; cbn; lia).
      rewrite emitted_app, events_emitted. cbn. by rewrite <-!app_assoc.
Qed.

(** [validateFilesystemParams] on a source that is not nil. *)
Lemma validateFilesystemParams_spec s ps ctx :
  let errs := validationResults s (events ctx) ps in
  validateFilesystemParams (Some s) ps ctx =
  (Ok (passed ps errs, errs), emitted (CallValidateFilesystemParams <$> ps) ctx).
Proof.
  intros errs. unfold validateFilesystemParams.
  pose proof (validateFilesystemParams_loop s ps 0 [] [] 0 ctx eq_refl) as H.
  cbn zeta in H. rewrite Nat.add_0_r, !app_nil_l, !app_nil_r in H. exact H.
Qed.

Lemma validationResults_length s h ps : length (validationResults s h ps) = length ps.
Proof. revert h. induction ps as [|p ps IH]; intros h; cbn; [done|]. by rewrite IH. Qed.

Lemma recordValidationErrors_loop (ps : list FilesystemParams) :
  forall (errs : list extError) i statuses ctx,
  (i + length errs ≤ length ps)%nat ->
  let z := zip (drop i ps) errs in
  rangeSlice (fun i err statuses =>
      match err with
      | None => mret statuses
      | Some e =>
          p ← index ps i;
          let statuses := statuses ++
            [{| esa_Tag := Tag_String (TagFilesystem (fp_Tag p));
                esa_Status := Status_String Error;
                esa_Info := e |}] in
          _ ← logf Debug "failed to validate parameters for %s: %v"
                [LStr (ReadableString (TagFilesystem (fp_Tag p))); LStr e];
          mret statuses
      end) i errs statuses ctx =
  (Ok (statuses ++ errorStatuses z), emitted (validationLogs z) ctx).
Proof.
  induction errs as [|err l IH]; intros i statuses ctx Hlen z.
  - subst z. rewrite zip_with_nil_r. cbn. by rewrite emitted_nil, app_nil_r.
  - cbn [length] in Hlen.
    destruct (lookup_lt_is_Some_2 ps i) as [p Hp]; [lia|].
    subst z. rewrite (drop_S _ _ _ Hp). cbn [rangeSlice zip_with].
    destruct err as [e|].
    + rewrite !run_bind, (run_index _ _ _ _ Hp). mrun. rewrite IH by lia.
      rewrite emitted_app. cbn. by rewrite <-!app_assoc.
    + mrun. rewrite IH by lia. done.
Qed.

Lemma interpretCreateResults_loop ops (ps : list FilesystemParams) :
  forall (results : list CreateFilesystemsResult) i acc ctx,
  (i + length results ≤ length ps)%nat ->
  Forall resultOk results ->
  let z := zip (drop i ps) results in
  rangeSlice (fun i result acc =>
      p ← index ps i;
      let tag := Tag_String (TagFilesystem (fp_Tag p)) in
      match cfr_Error result with
      | Some e =>
          _ ← logf Debug "failed to create %s: %v"
                [LStr (ReadableString (TagFilesystem (fp_Tag p))); LStr e];
          mret {| ca_reschedule := ca_reschedule acc ++ [OpCreate (ops !! fp_Tag p)];
                  ca_filesystems := ca_filesystems acc;
                  ca_statuses := ca_statuses acc ++
                    [{| esa_Tag := tag; esa_Status := Status_String Pending;
                        esa_Info := e |}] |}
      | None =>
          filesystem ← deref (cfr_Filesystem result);
          mret {| ca_reschedule := ca_reschedule acc;
                  ca_filesystems := ca_filesystems acc ++ [filesystem];
                  ca_statuses := ca_statuses acc ++
                    [{| esa_Tag := tag; esa_Status := Status_String Attaching;
                        esa_Info := EmptyString |}] |}
      end) i results acc ctx =
  (Ok {| ca_reschedule := ca_reschedule acc ++ rescheduledCreations ops z;
         ca_filesystems := ca_filesystems acc ++ createdFilesystems z;
         ca_statuses := ca_statuses acc ++ createStatuses z |},
   emitted (createLogs z) ctx).
Proof.
  induction results as [|r l IH]; intros i acc ctx Hlen Hok z.
  - subst z. rewrite zip_with_nil_r. cbn. rewrite emitted_nil, !app_nil_r. by destruct acc.
  - cbn [length] in Hlen. apply Forall_cons in Hok as [Hr Hok].
    destruct (lookup_lt_is_Some_2 ps i) as [p Hp]; [lia|].
    subst z. rewrite (drop_S _ _ _ Hp). cbn [rangeSlice zip_with].
    rewrite !run_bind, (run_index _ _ _ _ Hp). mrun.
    unfold rescheduledCreations, createdFilesystems, createStatuses, createLogs,
      createStatus.
    cbn [omap list_omap fmap list_fmap fst snd].
    destruct (cfr_Error r) as [e|] eqn:Er.
    + mrun. rewrite IH by (done || lia). rewrite emitted_app. cbn.
      by rewrite <-!app_assoc.
    + destruct (Hr Er) as [f Hf]. rewrite Hf. mrun.
      rewrite IH by (done || lia). cbn. by rewrite <-!app_assoc.
Qed.

Lemma passed_lookup (ps : list FilesystemParams) (errs : list extError) q :
  q ∈ passed ps errs -> exists j, ps !! j = Some q /\ errs !! j = Some None.
Proof.
  unfold passed. intros ([q' o] & -> & Hq)%list_elem_of_fmap.
  apply list_elem_of_filter in Hq as [Ho [j Hj]%list_elem_of_lookup].
  cbn in Ho. subst o. apply lookup_zip_with_Some in Hj as (x & y & [= <- <-] & ? & ?).
  eauto.
Qed.

(** The body of the loop over the sources, for a source that is not
    nil whose bulk call (made unless every parameter is rejected)
    returns well-formed results, at most one per submitted parameter. *)
Lemma createFromSource_spec ops srcs n ps acc ctx s
    (results : list CreateFilesystemsResult) :
  let start := [CallLog Debug "creating filesystems: %v" [LFilesystemParams ps]] in
  let errs := validationResults s (events ctx ++ start) ps in
  let vps := passed ps errs in
  let z := zip ps errs in
  let validation := (CallValidateFilesystemParams <$> ps) ++ validationLogs z in
  let submit := if decide (vps = []) then [] else [CallCreateFilesystems vps] in
  sourceOf srcs n = Some s ->
  (if decide (vps = []) then results = []
   else CreateFilesystems s (events ctx ++ start ++ validation) vps = BulkResults results) ->
  (length results ≤ length vps)%nat ->
  Forall resultOk results ->
  createFromSource ops srcs n ps acc ctx =
  (Ok {| ca_reschedule := ca_reschedule acc ++ rescheduledCreations ops (zip vps results);
         ca_filesystems := ca_filesystems acc ++ createdFilesystems (zip vps results);
         ca_statuses := ca_statuses acc ++ errorStatuses z
                          ++ createStatuses (zip vps results) |},
   emitted (start ++ validation ++ submit ++ createLogs (zip vps results)) ctx).
Proof.
  intros start errs vps z validation submit Hs Hcall Hlen Hok.
  unfold createFromSource. mrun. rewrite Hs.
  rewrite validateFilesystemParams_spec. mrun.
  rewrite events_emitted. fold start errs vps.
  unfold recordValidationErrors.
  rewrite (recordValidationErrors_loop ps errs 0)
    by (unfold errs; rewrite validationResults_length; lia).
  rewrite drop_0. fold z. mrun. cbn [ca_reschedule ca_filesystems ca_statuses].
  destruct vps as [|q vps'] eqn:Ev.
  - rewrite decide_True in Hcall by done. subst results.
    rewrite decide_True by done. mrun. unfold submit. rewrite decide_True by done.
    cbn. rewrite !emitted_app, !app_nil_r. done.
  - rewrite decide_False in Hcall by done. rewrite decide_False by done.
    unfold method. mrun. rewrite !events_emitted.
    unfold validation in Hcall. rewrite !app_assoc in Hcall.
    rewrite Hcall. unfold interpretCreateResults.
    rewrite (interpretCreateResults_loop ops (q :: vps') results 0) by done.
    rewrite drop_0. cbn [ca_reschedule ca_filesystems ca_statuses].
    unfold submit, validation. rewrite decide_False by done. rewrite !emitted_app.
    by rewrite <-!app_assoc.
Qed.

Lemma zip_lookup {A B} (l : list A) (k : list B) i x y :
  l !! i = Some x -> k !! i = Some y -> zip l k !! i = Some (x, y).
Proof. intros Hl Hk. apply lookup_zip_with_Some. eauto. Qed.

(** C6. In a create batch, the parameters that passed validation are
    submitted in the order of the input, and the i-th result of the bulk
    call is attributed to the i-th of them: its status record carries
    that parameter's tag (and stands after the statuses of the rejected
    parameters, each of which carries its own tag), the operation
    rescheduled for an error is the one found under that tag, and the
    filesystem of a success is among those to persist. *)
Theorem create_results_aligned ops srcs n ps acc ctx s
    (results : list CreateFilesystemsResult) :
  let start := [CallLog Debug "creating filesystems: %v" [LFilesystemParams ps]] in
  let errs := validationResults s (events ctx ++ start) ps in
  let vps := passed ps errs in
  let z := zip ps errs in
  let validation := (CallValidateFilesystemParams <$> ps) ++ validationLogs z in
  sourceOf srcs n = Some s ->
  (if decide (vps = []) then results = []
   else CreateFilesystems s (events ctx ++ start ++ validation) vps = BulkResults results) ->
  (length results ≤ length vps)%nat ->
  Forall resultOk results ->
  exists acc' ctx',
    createFromSource ops srcs n ps acc ctx = (Ok acc', ctx') /\
    ca_statuses acc' =
      ca_statuses acc ++ errorStatuses z ++ createStatuses (zip vps results) /\
    ca_reschedule acc' = ca_reschedule acc ++ rescheduledCreations ops (zip vps results) /\
    ca_filesystems acc' = ca_filesystems acc ++ createdFilesystems (zip vps results) /\
    (forall i q r, vps !! i = Some q -> results !! i = Some r ->
       ca_statuses acc' !! (length (ca_statuses acc) + length (errorStatuses z) + i)%nat
         = Some (createStatus q r) /\
       (is_Some (cfr_Error r) -> OpCreate (ops !! fp_Tag q) ∈ ca_reschedule acc') /\
       (cfr_Error r = None ->
          exists f, cfr_Filesystem r = Some f /\ f ∈ ca_filesystems acc')) /\
    (forall j p e, ps !! j = Some p -> errs !! j = Some (Some e) ->
       errorStatus p e ∈ ca_statuses acc').
Proof.
  intros start errs vps z validation Hs Hcall Hlen Hok.
  eexists _, _. split; [by apply (createFromSource_spec _ _ _ _ _ _ s results)|].
  cbn [ca_statuses ca_reschedule ca_filesystems]. fold start errs vps z.
  split_and!; try done.
  - intros i q r Hq Hr. pose proof (zip_lookup _ _ _ _ _ Hq Hr) as Hz. split_and!.
    + rewrite app_assoc, lookup_app_r by (rewrite length_app; lia).
      rewrite length_app.
      replace (_ + _ + i - _)%nat with i by lia.
      unfold createStatuses. by rewrite list_lookup_fmap, Hz.
    + intros [e He]. apply elem_of_app. right. apply list_elem_of_omap.
      exists (q, r). split; [by eapply list_elem_of_lookup_2|]. cbn. by rewrite He.
    + intros He. rewrite List.Forall_forall in Hok.
      destruct (Hok r) as [f Hf]; [apply list_elem_of_In; by eapply list_elem_of_lookup_2|done|].
      exists f. split; [done|]. apply elem_of_app. right. apply list_elem_of_omap.
      exists (q, r). split; [by eapply list_elem_of_lookup_2|]. cbn. by rewrite He.
  - intros j p e Hp He. apply elem_of_app. right. apply elem_of_app. left.
    apply list_elem_of_omap. exists (p, Some e).
    split; [|done]. eapply list_elem_of_lookup_2. by apply zip_lookup.
Qed.

End Create.

(** ** Publishing to the controller *)

Section Publish.
Context {names : Names}.

Lemma set_filesystems_id ctx : set_filesystems (ctx_filesystems ctx) ctx = ctx.
Proof. by destruct ctx. Qed.

Lemma set_filesystemAttachments_id ctx :
  set_filesystemAttachments (ctx_filesystemAttachments ctx) ctx = ctx.
Proof. by destruct ctx. Qed.

Lemma publishLogs_loop (fs : list Filesystem) :
  forall (errorResults : list ErrorResult) i ctx,
  (i + length errorResults ≤ length fs)%nat ->
  rangeSlice (fun i result (_ : unit) =>
      match er_Error result with
      | Some e =>
          f ← index fs i;
          logf LError "publishing filesystem %s to state: %v"
            [LStr (Tag_Id (TagFilesystem (fs_Tag f))); LStr e]
      | None => mret tt
      end) i errorResults tt ctx =
  (Ok tt, emitted (publishLogs (zip (drop i fs) errorResults)) ctx).
Proof.
  induction errorResults as [|r l IH]; intros i ctx Hlen.
  - rewrite zip_with_nil_r. cbn. by rewrite emitted_nil.
  - cbn [length] in Hlen.
    destruct (lookup_lt_is_Some_2 fs i) as [f Hf]; [lia|].
    rewrite (drop_S _ _ _ Hf). cbn [rangeSlice zip_with].
    unfold publishLogs. cbn [omap list_omap fst snd].
    destruct (er_Error r) as [e|] eqn:Er.
    + rewrite !run_bind, (run_index _ _ _ _ Hf). mrun. rewrite IH by lia.
      by rewrite emitted_app.
    + mrun. by rewrite IH by lia.
Qed.

Lemma updateFilesystem_loop (fs : list Filesystem) :
  forall i ctx,
  rangeSlice (fun _ v (_ : unit) => updateFilesystem v) i fs tt ctx =
  (Ok tt, set_filesystems (mergeFilesystems fs (ctx_filesystems ctx)) ctx).
Proof.
  induction fs as [|f fs IH]; intros i ctx.
  - cbn. by rewrite set_filesystems_id.
  - cbn [rangeSlice].
    change (updateFilesystem f) with
      (modify (fun ctx => set_filesystems (<[fs_Tag f := f]> (ctx_filesystems ctx)) ctx)).
    mrun. by rewrite IH.
Qed.

(** Lines 92-115, when there is something to publish and the controller
    takes the batch. *)
Lemma publishFilesystems_spec (fs : list Filesystem) ctx (errorResults : list ErrorResult) :
  fs ≠ [] ->
  SetFilesystemInfo (Filesystems (ctx_config ctx)) (events ctx) (filesystemsFromStorage fs)
    = BulkResults errorResults ->
  (length errorResults ≤ length fs)%nat ->
  publishFilesystems fs ctx =
  (Ok tt,
   set_filesystems (mergeFilesystems fs (ctx_filesystems ctx))
     (emitted (CallSetFilesystemInfo (filesystemsFromStorage fs)
               :: publishLogs (zip fs errorResults)) ctx)).
Proof.
  intros Hfs Hcall Hlen. unfold publishFilesystems.
  rewrite decide_False by (by destruct fs). mrun. rewrite Hcall. mrun.
  rewrite publishLogs_loop by done. rewrite drop_0. mrun.
  rewrite updateFilesystem_loop, emitted_app. done.
Qed.

Lemma mergeFilesystems_lookup (fs : list Filesystem) :
  forall m f, f ∈ fs -> is_Some (mergeFilesystems fs m !! fs_Tag f).
Proof.
  unfold mergeFilesystems.
  induction fs as [|g fs IH] using rev_ind; intros m f Hf.
  - by apply elem_of_nil in Hf.
  - rewrite foldl_app. cbn. apply elem_of_app in Hf as [Hf|Hf%list_elem_of_singleton].
    + rewrite lookup_insert. case_decide; [eauto|by apply IH].
    + subst g. rewrite lookup_insert_eq. eauto.
Qed.

Lemma mergeFilesystems_lookup_NoDup (fs : list Filesystem) :
  forall m f, NoDup (fs_Tag <$> fs) -> f ∈ fs ->
    mergeFilesystems fs m !! fs_Tag f = Some f.
Proof.
  unfold mergeFilesystems.
  induction fs as [|g fs IH] using rev_ind; intros m f Hnd Hf.
  - by apply elem_of_nil in Hf.
  - rewrite foldl_app. cbn. rewrite fmap_app in Hnd.
    apply NoDup_app in Hnd as (Hnd & Hdis & _).
    apply elem_of_app in Hf as [Hf|Hf%list_elem_of_singleton].
    + rewrite lookup_insert_ne; [by apply IH|].
      intros E. apply (Hdis (fs_Tag f)); [by apply list_elem_of_fmap_2|].
      rewrite <-E. cbn. left.
    + subst g. by rewrite lookup_insert_eq.
Qed.

Lemma createdFilesystems_elem (l : list (FilesystemParams * CreateFilesystemsResult)) f :
  f ∈ createdFilesystems l <->
  exists i q r, l !! i = Some (q, r) /\ cfr_Error r = None /\ cfr_Filesystem r = Some f.
Proof.
  unfold createdFilesystems. rewrite list_elem_of_omap. split.
  - intros ([q r] & [i Hi]%list_elem_of_lookup & Hr). cbn in Hr.
    exists i, q, r. by destruct (cfr_Error r).
  - intros (i & q & r & Hi & He & Hf). exists (q, r).
    split; [by eapply list_elem_of_lookup_2|]. cbn. by rewrite He.
Qed.

End Publish.

Section PublishAttachments.
Context {names : Names}.

Lemma setFilesystemAttachmentInfo_loop (fas : list FilesystemAttachment) :
  forall k (rs : list ErrorResult) i ctx a r e,
  rs !! k = Some r -> er_Error r = Some e ->
  fas !! (i + k)%nat = Some a ->
  (forall j r', (j < k)%nat -> rs !! j = Some r' -> er_Error r' = None) ->
  rangeSlice (fun i result (_ : unit) =>
      a ← index fas i;
      match er_Error result with
      | Some e =>
          fail (Annotated (errorNew e) "publishing attachment of %s to %s to state"
                  [ReadableString (TagFilesystem (fa_Filesystem a));
                   ReadableString (TagMachine (fa_Machine a))])
      | None =>
          let id := storageId (fa_Machine a) (fa_Filesystem a) in
          _ ← modify (fun ctx =>
                 set_filesystemAttachments
                   (<[id := a]> (ctx_filesystemAttachments ctx)) ctx);
          removePendingFilesystemAttachment id
      end) i rs tt ctx =
  (Err (Annotated (errorNew e) "publishing attachment of %s to %s to state"
          [ReadableString (TagFilesystem (fa_Filesystem a));
           ReadableString (TagMachine (fa_Machine a))]),
   set_filesystemAttachments
     (mergeAttachments (take k (drop i fas)) (ctx_filesystemAttachments ctx))
     (emitted (pendingCleared (take k (drop i fas))) ctx)).
Proof.
  induction k as [|k IH]; intros rs i ctx a r e Hr He Ha Hbefore.
  - destruct rs as [|r0 rs]; [done|]. injection Hr as ->.
    rewrite Nat.add_0_r in Ha. cbn [rangeSlice].
    rewrite !run_bind, (run_index _ _ _ _ Ha). mrun. rewrite He. mrun.
    rewrite take_0. unfold mergeAttachments, pendingCleared.
    cbn [foldl fmap list_fmap]. by rewrite emitted_nil, set_filesystemAttachments_id.
  - destruct rs as [|r0 rs]; [done|]. cbn in Hr.
    destruct (lookup_lt_is_Some_2 fas i) as [a0 Ha0];
      [apply lookup_lt_Some in Ha; lia|].
    cbn [rangeSlice]. rewrite !run_bind, (run_index _ _ _ _ Ha0). mrun.
    rewrite (Hbefore 0%nat r0) by (done || lia). mrun.
    unfold removePendingFilesystemAttachment. mrun.
    rewrite (IH rs (S i) _ a r e); try done.
    + rewrite (drop_S _ _ _ Ha0). destruct ctx.
      unfold mergeAttachments, pendingCleared, emitted, set_events,
        set_filesystemAttachments.
      cbn. by rewrite <-app_assoc.
    + by replace (S i + k)%nat with (i + S k)%nat by lia.
    + intros j r' Hj Hr'. apply (Hbefore (S j)); [lia|done].
Qed.

(** C1, amended. [createFilesystems]: when [SetFilesystemInfo] returns
    no top-level error, each record's error is logged on its own and
    nothing is aborted: every filesystem of the batch, rejected or not,
    is recorded in the cache and nil is returned.
    [attachFilesystems], in [setFilesystemAttachmentInfo]: when
    [SetFilesystemAttachmentInfo] returns no top-level error, the first
    record with an error ends the function with that error, annotated;
    the attachments before it have been recorded in the cache and their
    pending markers cleared, the ones from it on have not. *)
Theorem persistence_entity_errors :
  (forall (fs : list Filesystem) ctx (errorResults : list ErrorResult),
     fs ≠ [] ->
     SetFilesystemInfo (Filesystems (ctx_config ctx)) (events ctx)
       (filesystemsFromStorage fs) = BulkResults errorResults ->
     (length errorResults ≤ length fs)%nat ->
     exists ctx',
       publishFilesystems fs ctx = (Ok tt, ctx') /\
       events ctx' =
         events ctx ++ CallSetFilesystemInfo (filesystemsFromStorage fs)
                       :: publishLogs (zip fs errorResults) /\
       (forall i f r e, fs !! i = Some f -> errorResults !! i = Some r ->
          er_Error r = Some e ->
          CallLog LError "publishing filesystem %s to state: %v"
            [LStr (Tag_Id (TagFilesystem (fs_Tag f))); LStr e]
          ∈ publishLogs (zip fs errorResults)) /\
       ctx_filesystems ctx' = mergeFilesystems fs (ctx_filesystems ctx) /\
       (forall f, f ∈ fs -> is_Some (ctx_filesystems ctx' !! fs_Tag f))) /\
  (forall (fas : list FilesystemAttachment) ctx (errorResults : list ErrorResult) k a r e,
     SetFilesystemAttachmentInfo (Filesystems (ctx_config ctx)) (events ctx)
       (filesystemAttachmentsFromStorage fas) = BulkResults errorResults ->
     fas !! k = Some a -> errorResults !! k = Some r -> er_Error r = Some e ->
     (forall j r', (j < k)%nat -> errorResults !! j = Some r' -> er_Error r' = None) ->
     exists ctx',
       setFilesystemAttachmentInfo fas ctx =
         (Err (Annotated (errorNew e) "publishing attachment of %s to %s to state"
                 [ReadableString (TagFilesystem (fa_Filesystem a));
                  ReadableString (TagMachine (fa_Machine a))]), ctx') /\
       events ctx' =
         events ctx ++ CallSetFilesystemAttachmentInfo (filesystemAttachmentsFromStorage fas)
                       :: pendingCleared (take k fas) /\
       ctx_filesystemAttachments ctx' =
         mergeAttachments (take k fas) (ctx_filesystemAttachments ctx)).
Proof.
  split.
  - intros fs ctx errorResults Hfs Hcall Hlen.
    eexists. split; [by apply publishFilesystems_spec|]. split_and!; try done.
    + intros i f r e Hf Hr He. apply list_elem_of_omap. exists (f, r).
      split; [eapply list_elem_of_lookup_2; by apply zip_lookup|]. cbn. by rewrite He.
    + intros f Hf. by apply mergeFilesystems_lookup.
  - intros fas ctx errorResults k a r e Hcall Ha Hr He Hbefore.
    unfold setFilesystemAttachmentInfo.
    rewrite decide_False by (destruct fas; [done|cbn; lia]). mrun. rewrite Hcall. mrun.
    rewrite (setFilesystemAttachmentInfo_loop fas k errorResults 0 _ a r e) by done.
    rewrite drop_0. eexists. split; [done|]. split; [|done].
    cbn. by rewrite <-app_assoc.
Qed.

End PublishAttachments.

(** ** Computations that only record calls *)

Section EmitsOnly.

Lemma emitsOnly_ret {A} (a : A) : emitsOnly (mret a : M A).
Proof. intros ctx r ctx' [= <- <-]. exists []. by rewrite emitted_nil. Qed.

Lemma emitsOnly_fail {A} e : emitsOnly (@fail A e).
Proof. intros ctx r ctx' [= <- <-]. exists []. by rewrite emitted_nil. Qed.

Lemma emitsOnly_panic {A} : emitsOnly (@panic A).
Proof. intros ctx r ctx' [= <- <-]. exists []. by rewrite emitted_nil. Qed.

Lemma emitsOnly_get : emitsOnly get.
Proof. intros ctx r ctx' [= <- <-]. exists []. by rewrite emitted_nil. Qed.

Lemma emitsOnly_emit e : emitsOnly (emit e).
Proof. intros ctx r ctx' [= <- <-]. by exists [e]. Qed.

Lemma emitsOnly_bind {A B} (m : M A) (f : A -> M B) :
  emitsOnly m -> (forall a, emitsOnly (f a)) -> emitsOnly (m ≫= f).
Proof.
  intros Hm Hf ctx r ctx'. rewrite run_bind.
  destruct (m ctx) as [[a|e|] ctx1] eqn:Em; destruct (Hm _ _ _ Em) as (evs1 & ->).
  - intros Ef. destruct (Hf _ _ _ _ Ef) as (evs2 & ->).
    exists (evs1 ++ evs2). by rewrite emitted_app.
  - intros [= <- <-]. eauto.
  - intros [= <- <-]. eauto.
Qed.

Lemma emitsOnly_index {A} (l : list A) i : emitsOnly (index l i).
Proof. unfold index. destruct (l !! i); [apply emitsOnly_ret | apply emitsOnly_panic]. Qed.

Lemma emitsOnly_deref {A} (p : option A) : emitsOnly (deref p).
Proof. destruct p; [apply emitsOnly_ret | apply emitsOnly_panic]. Qed.

Lemma emitsOnly_rangeSlice {A B} (body : nat -> A -> B -> M B) i l b :
  (forall i x b, emitsOnly (body i x b)) -> emitsOnly (rangeSlice body i l b).
Proof.
  intros Hbody. revert i b. induction l as [|x l IH]; intros i b; cbn [rangeSlice].
  - apply emitsOnly_ret.
  - apply emitsOnly_bind; [apply Hbody | intros b'; apply IH].
Qed.

Lemma emitsOnly_annotate {A} format args (m : M A) :
  emitsOnly m -> emitsOnly (annotate format args m).
Proof.
  intros Hm ctx r ctx'. unfold annotate.
  destruct (m ctx) as [[a|e|] ctx1] eqn:Em; intros [= <- <-]; eauto.
Qed.

Lemma emitsOnly_call {A} e (answer : history -> A) : emitsOnly (call e answer).
Proof.
  unfold call. apply emitsOnly_bind; [apply emitsOnly_get | intros ctx].
  apply emitsOnly_bind; [apply emitsOnly_emit | intros _; apply emitsOnly_ret].
Qed.

End EmitsOnly.

(** Prove [emitsOnly m] along the structure of [m]. *)
Ltac emitsOnly_auto :=
  repeat first
    [ apply emitsOnly_ret | apply emitsOnly_fail | apply emitsOnly_panic
    | apply emitsOnly_get | apply emitsOnly_index | apply emitsOnly_deref
    | apply emitsOnly_bind; [|intros ?]
    | apply emitsOnly_rangeSlice; intros ? ? ?
    | apply emitsOnly_annotate
    | apply emitsOnly_call
    | apply emitsOnly_emit
    | match goal with
      | |- emitsOnly (match ?x with _ => _ end) => destruct x
      | |- emitsOnly (match ?x with _ => _ end _) => destruct x
      end
    | progress autounfold with model ].

(** A computation that only records calls, followed by another: the
    first has failed and the context holds its calls, or the second has
    run from the context with these calls. *)
Lemma emitsOnly_bind_inv {A B} (m : M A) (f : A -> M B) ctx r ctx' :
  emitsOnly m -> (m ≫= f) ctx = (r, ctx') ->
  (exists evs, ctx' = emitted evs ctx /\ forall b, r ≠ Ok b) \/
  (exists a evs, f a (emitted evs ctx) = (r, ctx')).
Proof.
  intros Hm. rewrite run_bind.
  destruct (m ctx) as [[a|e|] ctx1] eqn:Em; destruct (Hm _ _ _ Em) as (evs1 & ->).
  - intros Ef. right. eauto.
  - intros [= <- <-]. left. eauto.
  - intros [= <- <-]. left. eauto.
Qed.

(** ** A pass flushes at most once *)

Lemma flushesAtMostOnce_bind {A} (m : M A) (f : A -> M unit) :
  emits beforeFlush m -> (forall a, flushesAtMostOnce (f a)) ->
  flushesAtMostOnce (m ≫= f).
Proof.
  intros Hm Hf ctx r ctx'. rewrite run_bind.
  destruct (m ctx) as [[a|e|] ctx1] eqn:Em;
    destruct (Hm _ _ _ Em) as (evs & Hev & Hpre).
  - intros Ef. destruct (Hf _ _ _ _ Ef) as
      [(Hr & evs2 & Hev2 & Hpre2)|(pre & rs & ss & post & Hev' & Hpre' & Hpost)].
    + left. split; [done|]. exists (evs ++ evs2).
      split; [by rewrite Hev2, Hev, app_assoc|by apply Forall_app].
    + right. exists (evs ++ pre), rs, ss, post. split_and!; [|by apply Forall_app|done].
      by rewrite Hev', Hev, <-!app_assoc.
  - intros [= <- <-]. left. split; [done|eauto].
  - intros [= <- <-]. left. split; [done|eauto].
Qed.

Lemma flushesAtMostOnce_flush {names : Names} reschedule statuses (post : M unit) :
  emits afterFlush post ->
  flushesAtMostOnce
    (scheduleOperations reschedule ≫= fun _ => setStatus statuses ≫= fun _ => post).
Proof.
  intros Hpost ctx r ctx'. rewrite run_bind. cbn. rewrite run_bind. cbn. intros Ep.
  destruct (Hpost _ _ _ Ep) as (evs & Hev & HP). right.
  exists [], reschedule, statuses, evs. split_and!; [|done..].
  rewrite Hev. cbn. by rewrite <-!app_assoc.
Qed.

Ltac flush_any_steps :=
  repeat match goal with
  | |- flushesAtMostOnce (match ?x with _ => _ end) => destruct x
  | |- flushesAtMostOnce (scheduleOperations _ ≫= _) =>
      apply flushesAtMostOnce_flush; emits_auto ltac:(split; reflexivity)
  | |- flushesAtMostOnce (_ ≫= _) =>
      apply flushesAtMostOnce_bind; [emits_auto ltac:(reflexivity) | intros ?]
  end.

(** X1. Whatever a pass returns (nil, an error, a panic), it has called
    [scheduleOperations] and [setStatus] either not at all, and then it
    has not returned nil, or exactly once each, next to each other and
    after every call to a source: a pass that fails in the per-source
    loop publishes none of the statuses it has accumulated, and no pass
    publishes twice. *)
Theorem pass_flushes_at_most_once {names : Names} ro p ctx :
  let run := runPass ro p ctx in
  (run.1 ≠ Ok tt /\
   exists evs, events run.2 = events ctx ++ evs /\ Forall beforeFlush evs) \/
  flushesOnce ctx run.2.
Proof.
  cbv zeta. destruct (runPass ro p ctx) as [r ctx'] eqn:Hrun. cbn [fst snd].
  revert ctx r ctx' Hrun. change (flushesAtMostOnce (runPass ro p)).
  destruct p; cbn [runPass];
    unfold createFilesystems, attachFilesystems, detachFilesystems, removeFilesystems.
  all: flush_any_steps.
Qed.

(** ** The source resolvers: partitions and questions to the registry *)

Section ResolversMore.

(** X2. Every partition [filesystemParamsBySource] returns is not empty,
    holds the parameters of its provider, in input order, and belongs to
    a provider name bound to a source that is not nil: the loops of
    [createFilesystems] and [removeFilesystems] never call a method of a
    nil source. *)
Theorem creation_partitions_have_sources dir params managed ctx pbs srcs ctx' n l :
  filesystemParamsBySource dir params managed ctx = (Ok (pbs, srcs), ctx') ->
  pbs !! n = Some l ->
  l ≠ [] /\ (exists s, srcs !! n = Some (Some s)) /\
  l = filter (fun p => fp_Provider p = n) params.
Proof.
  intros Hrun Hn. unfold filesystemParamsBySource in Hrun. rewrite run_bind in Hrun.
  destruct (rangeSlice _ 0 params ∅ ctx) as [[srcs1|e|] ctx1]; [|done..].
  injection Hrun as <- <- <-.
  destruct (collectParams_foldl srcs1 params ∅ n) as [Hl Hne]. cbn zeta in Hl, Hne.
  rewrite Hn, lookup_empty in Hl. cbn in Hl.
  assert (l ≠ []) as Hnil.
  { intros ->. apply Hne; [by rewrite lookup_empty|done]. }
  split; [done|]. destruct (decide (is_Some (sourceOf srcs1 n))) as [[s Hs]|]; [|done].
  split.
  - exists s. unfold sourceOf in Hs. destruct (srcs1 !! n) as [[s'|]|]; naive_solver.
  - done.
Qed.

(** A loop of resolution steps, each of which either leaves the history
    as it is or asks the registry about the name of its parameter, not
    bound before and bound (if the step succeeds) from then on: the
    registry is asked at most once per name. *)
Lemma resolver_asks_once {A S} (body : A -> S -> M S) (key : A -> string)
    (bound : S -> string -> Prop) dir :
  (forall p st ctx r ctx', body p st ctx = (r, ctx') ->
     (ctx' = ctx /\ forall st', r = Ok st' -> forall n, bound st n -> bound st' n) \/
     (~ bound st (key p) /\
      ctx' = emitted [CallFilesystemSource dir (key p) (key p)] ctx /\
      forall st', r = Ok st' ->
        bound st' (key p) /\ forall n, bound st n -> bound st' n)) ->
  forall l i st ctx r ctx',
  rangeSlice (fun _ => body) i l st ctx = (r, ctx') ->
  exists ns, ctx' = emitted ((fun n => CallFilesystemSource dir n n) <$> ns) ctx /\
    NoDup ns /\ (forall n, n ∈ ns -> ~ bound st n /\ n ∈ key <$> l) /\
    (forall st', r = Ok st' -> forall n, bound st n -> bound st' n).
Proof.
  intros Hstep. induction l as [|p l IH]; intros i st ctx r ctx'.
  - intros [= <- <-]. exists []. rewrite emitted_nil. split_and!; try done.
    + constructor.
    + intros n Hn. by apply elem_of_nil in Hn.
    + by intros st' [= <-].
  - cbn [rangeSlice]. rewrite run_bind.
    destruct (body p st ctx) as [[st1|e|] ctx1] eqn:Es;
      apply Hstep in Es as [(-> & Hb)|(Hnb & -> & Hb)].
    + intros (ns & -> & Hnd & Hns & Hmono)%IH. exists ns. split_and!; try done.
      * intros n Hn. destruct (Hns n Hn) as [Hn1 Hn2]. split; [|set_solver].
        intros Hbn. apply Hn1. by eapply Hb.
      * intros st' Hr n Hn. eapply Hmono; [done|]. by eapply Hb.
    + destruct (Hb st1 eq_refl) as [Hkey Hb1].
      intros (ns & -> & Hnd & Hns & Hmono)%IH. exists (key p :: ns). split_and!.
      * by rewrite emitted_app.
      * constructor; [|done]. intros Hin. by destruct (Hns _ Hin).
      * intros n [->|Hn]%elem_of_cons; [split; [done|set_solver]|].
        destruct (Hns n Hn) as [Hn1 Hn2]. split; [|set_solver].
        intros Hbn. apply Hn1. by apply Hb1.
      * intros st' Hr n Hn. eapply Hmono; [done|]. by apply Hb1.
    + intros [= <- <-]. exists []. rewrite emitted_nil. split_and!; try done.
      * constructor.
      * intros n Hn. by apply elem_of_nil in Hn.
    + intros [= <- <-]. exists [key p]. split_and!; try done.
      * apply NoDup_singleton.
      * intros n ->%list_elem_of_singleton. split; [done|set_solver].
    + intros [= <- <-]. exists []. rewrite emitted_nil. split_and!; try done.
      * constructor.
      * intros n Hn. by apply elem_of_nil in Hn.
    + intros [= <- <-]. exists [key p]. split_and!; try done.
      * apply NoDup_singleton.
      * intros n ->%list_elem_of_singleton. split; [done|set_solver].
Qed.

Lemma resolveParamsSource_step dir managed p srcs0 ctx r ctx' :
  resolveParamsSource dir managed p srcs0 ctx = (r, ctx') ->
  (ctx' = ctx /\
   forall st', r = Ok st' -> forall n, is_Some (srcs0 !! n) -> is_Some (st' !! n)) \/
  (~ is_Some (srcs0 !! fp_Provider p) /\
   ctx' = emitted [CallFilesystemSource dir (fp_Provider p) (fp_Provider p)] ctx /\
   forall st', r = Ok st' ->
     is_Some (st' !! fp_Provider p) /\
     forall n, is_Some (srcs0 !! n) -> is_Some (st' !! n)).
Proof.
  unfold resolveParamsSource. cbn zeta.
  destruct (srcs0 !! fp_Provider p) as [v|] eqn:Es.
  - intros [= <- <-]. left. split; [done|]. by intros st' [= <-].
  - assert (Hins : forall v st', Ok (<[fp_Provider p := v]> srcs0) = Ok st' ->
      is_Some (st' !! fp_Provider p) /\
      forall n, is_Some (srcs0 !! n) -> is_Some (st' !! n)).
    { intros v st' [= <-]. split; [rewrite lookup_insert_eq; eauto|].
      intros n Hn. rewrite lookup_insert. case_decide; eauto. }
    destruct (decide (fp_Volume p ≠ VolumeTag_zero)) as [Hv|Hv].
    + intros [= <- <-]. left. split; [done|]. intros st' E. by apply (Hins _ _ E).
    + unfold filesystemSource. mrun.
      destruct (filesystemSource_result _ _ _ _ _) as [src [e|]] eqn:Er; mrun.
      * destruct (decide (Cause e = errNonDynamic)); mrun.
        -- intros [= <- <-]. right. split_and!; [by intros [? [=]]|done|apply Hins].
        -- intros [= <- <-]. right. split_and!; [by intros [? [=]]|done|done].
      * intros [= <- <-]. right. split_and!; [by intros [? [=]]|done|apply Hins].
Qed.

Lemma resolveAttachmentSource_step dir cache managed p
    (st : gmap string (list FilesystemAttachmentParams) *
          gmap string (option FilesystemSource)) ctx r ctx' :
  resolveAttachmentSource dir cache managed p st ctx = (r, ctx') ->
  (ctx' = ctx /\
   forall st', r = Ok st' -> forall n, is_Some (st.2 !! n) -> is_Some (st'.2 !! n)) \/
  (~ is_Some (st.2 !! fap_Provider p) /\
   ctx' = emitted [CallFilesystemSource dir (fap_Provider p) (fap_Provider p)] ctx /\
   forall st', r = Ok st' ->
     is_Some (st'.2 !! fap_Provider p) /\
     forall n, is_Some (st.2 !! n) -> is_Some (st'.2 !! n)).
Proof.
  destruct st as [pbs0 srcs0]. unfold resolveAttachmentSource. cbn beta iota zeta delta [snd].
  destruct (srcs0 !! fap_Provider p) as [v|] eqn:Es.
  - intros [= <- <-]. left. split; [done|]. by intros st' [= <-].
  - assert (Hins : forall (pbs : gmap string (list FilesystemAttachmentParams)) v st',
      Ok (pbs, <[fap_Provider p := v]> srcs0) = Ok st' ->
      is_Some (st'.2 !! fap_Provider p) /\
      forall n, is_Some (srcs0 !! n) -> is_Some (st'.2 !! n)).
    { intros pbs v st' [= <-]. cbn. split; [rewrite lookup_insert_eq; eauto|].
      intros n Hn. rewrite lookup_insert. case_decide; eauto. }
    destruct (viaManagedSource cache p).
    + intros [= <- <-]. left. split; [done|]. intros st' E. by apply (Hins _ _ _ E).
    + unfold filesystemSource. mrun.
      destruct (filesystemSource_result _ _ _ _ _) as [src [e|]] eqn:Er; mrun.
      * intros [= <- <-]. right. split_and!; [by intros [? [=]]|done|done].
      * intros [= <- <-]. right. split_and!; [by intros [? [=]]|done|apply Hins].
Qed.

(** X3. Whatever they return, the two resolvers ask the registry at most
    once about a provider name, and only about provider names of their
    input; apart from these questions they leave the context as it was. *)
Theorem registry_asked_once_per_name dir ctx :
  (forall params managed,
     exists ns,
       (filesystemParamsBySource dir params managed ctx).2
         = emitted ((fun n => CallFilesystemSource dir n n) <$> ns) ctx /\
       NoDup ns /\ ns ⊆ fp_Provider <$> params) /\
  (forall params cache managed,
     exists ns,
       (filesystemAttachmentParamsBySource dir params cache managed ctx).2
         = emitted ((fun n => CallFilesystemSource dir n n) <$> ns) ctx /\
       NoDup ns /\ ns ⊆ fap_Provider <$> params).
Proof.
  split.
  - intros params managed. unfold filesystemParamsBySource. rewrite run_bind.
    destruct (rangeSlice _ 0 params ∅ ctx) as [r1 ctx1] eqn:E1.
    apply (resolver_asks_once (resolveParamsSource dir managed) fp_Provider
             (fun st n => is_Some (st !! n)) dir) in E1 as (ns & -> & Hnd & Hns & _).
    2: { intros p st c r0 c'. apply resolveParamsSource_step. }
    exists ns. split_and!; [|done|intros n Hn; by apply Hns].
    by destruct r1.
  - intros params cache managed. unfold filesystemAttachmentParamsBySource.
    destruct (rangeSlice _ 0 params (∅, ∅) ctx) as [r1 ctx1] eqn:E1.
    apply (resolver_asks_once (resolveAttachmentSource dir cache managed) fap_Provider
             (fun st n => is_Some (st.2 !! n)) dir) in E1 as (ns & -> & Hnd & Hns & _).
    2: { intros p st c r0 c'. apply resolveAttachmentSource_step. }
    exists ns. split_and!; [done|done|intros n Hn; by apply Hns].
Qed.

(** X4. Every partition [filesystemAttachmentParamsBySource] returns is
    not empty, holds the parameters of its provider, in input order, and
    has its name bound in the map of sources returned with it (to a
    source or to nil). *)
Theorem attachment_partitions_bound dir params cache managed ctx pbs srcs ctx' n l :
  filesystemAttachmentParamsBySource dir params cache managed ctx
    = (Ok (pbs, srcs), ctx') ->
  pbs !! n = Some l ->
  l ≠ [] /\ is_Some (srcs !! n) /\ l = filter (fun p => fap_Provider p = n) params.
Proof.
  unfold filesystemAttachmentParamsBySource.
  intros (evs & -> & Hparts & Hne & _ & Hbound & _)%attachmentResolver_loop Hl.
  specialize (Hparts n). rewrite Hl, lookup_empty in Hparts. cbn in Hparts.
  assert (l ≠ []) as Hnil.
  { intros ->. by apply (Hne n); [rewrite lookup_empty|]. }
  split_and!; [done| |done].
  apply Hbound. right. destruct l as [|p l']; [done|].
  assert (Hp : p ∈ filter (fun p => fap_Provider p = n) params)
    by (rewrite <-Hparts; set_solver).
  apply list_elem_of_filter in Hp as [<- Hp]. by apply list_elem_of_fmap_2.
Qed.

End ResolversMore.

(** ** [createFilesystems]: validation, malformed answers, the cache *)

Section CreateMore.
Context {names : Names}.

Lemma validationResults_lookup s : forall ps h j p,
  ps !! j = Some p ->
  validationResults s h ps !! j =
    Some (ValidateFilesystemParams s
            (h ++ (CallValidateFilesystemParams <$> take j ps)) p).
Proof.
  induction ps as [|q ps IH]; intros h j p; [done|].
  destruct j as [|j]; cbn.
  - intros [= ->]. by rewrite app_nil_r.
  - intros Hp. rewrite (IH _ _ _ Hp). by rewrite <-app_assoc.
Qed.

Lemma passed_sublist : forall (ps : list FilesystemParams) (errs : list extError),
  passed ps errs `sublist_of` ps.
Proof.
  unfold passed. induction ps as [|p ps IH]; intros errs; [done|].
  destruct errs as [|e errs]; cbn [zip_with].
  - apply sublist_nil_l.
  - rewrite filter_cons. case_decide; cbn.
    + apply sublist_skip, IH.
    + apply sublist_cons, IH.
Qed.

(** X5. [validateFilesystemParams] asks a source about every parameter,
    in order, and answers by position: one result per parameter, each
    the source's answer to that parameter; the valid parameters are the
    ones whose result is nil, in the order of the input. On a nil source
    the first parameter panics. *)
Theorem validation_is_positional ps ctx :
  (forall s, exists valid errs ctx',
    validateFilesystemParams (Some s) ps ctx = (Ok (valid, errs), ctx') /\
    ctx' = emitted (CallValidateFilesystemParams <$> ps) ctx /\
    length errs = length ps /\
    valid `sublist_of` ps /\
    (forall q, q ∈ valid <-> exists j, ps !! j = Some q /\ errs !! j = Some None) /\
    (forall j p, ps !! j = Some p ->
       errs !! j =
         Some (ValidateFilesystemParams s
                 (events ctx ++ (CallValidateFilesystemParams <$> take j ps)) p))) /\
  validateFilesystemParams None ps ctx = (if decide (ps = []) then Ok ([], []) else Panic, ctx).
Proof.
  split.
  - intros s. eexists _, _, _. split; [apply validateFilesystemParams_spec|].
    split_and!; [done|apply validationResults_length|apply passed_sublist| |].
    + intros q. split; [apply passed_lookup|].
      intros (j & Hq & He). unfold passed. apply list_elem_of_fmap.
      exists (q, None). split; [done|]. apply list_elem_of_filter. split; [done|].
      eapply list_elem_of_lookup_2. by apply zip_lookup.
    + intros j p Hp. by apply validationResults_lookup.
  - unfold validateFilesystemParams. destruct ps as [|p ps]; [done|].
    rewrite decide_False by done. cbn [rangeSlice]. unfold method. by mrun.
Qed.

(** X6. A malformed answer of [CreateFilesystems] makes the loop over the
    results panic: a result beyond the submitted parameters (the index
    [filesystemParams[i]] is out of range), or a result with neither an
    error nor a filesystem (the nil pointer is dereferenced). The
    results before it have been interpreted; nothing is returned. *)
Theorem create_malformed_results_panic ops (vps : list FilesystemParams)
    (results : list CreateFilesystemsResult) acc ctx k :
  (k < length results)%nat -> (k ≤ length vps)%nat ->
  Forall resultOk (take k results) ->
  (k = length vps \/
   exists r, results !! k = Some r /\ cfr_Error r = None /\ cfr_Filesystem r = None) ->
  interpretCreateResults ops vps results acc ctx =
    (Panic, emitted (createLogs (zip vps (take k results))) ctx).
Proof.
  intros Hk Hkv Hok Hbad. unfold interpretCreateResults.
  rewrite <-(take_drop k results) at 1. rewrite rangeSlice_app, run_bind.
  rewrite (interpretCreateResults_loop ops vps (take k results) 0 acc ctx)
    by (rewrite ?length_take; (done || lia)).
  rewrite drop_0, length_take, Nat.min_l by lia. cbn [Nat.add].
  destruct (drop k results) as [|r rest] eqn:Ed.
  { apply (f_equal length) in Ed. rewrite length_drop in Ed. cbn in Ed. lia. }
  assert (Hr : results !! k = Some r).
  { rewrite <-(Nat.add_0_r k), <-lookup_drop, Ed. done. }
  cbn [rangeSlice]. rewrite !run_bind.
  destruct (decide (k = length vps)) as [->|Hne].
  - unfold index. rewrite lookup_ge_None_2 by lia. by mrun.
  - destruct Hbad as [?|(r' & Hr' & He & Hf)]; [done|].
    assert (r' = r) as -> by congruence.
    destruct (lookup_lt_is_Some_2 vps k) as [p Hp]; [lia|].
    rewrite (run_index _ _ _ _ Hp). mrun. rewrite He, Hf. by mrun.
Qed.

(** X7. When [CreateFilesystems] returns an error for the whole batch of
    a source, the loop over the sources ends there with that error,
    annotated with the source's name: the sources after it are not
    visited and what the loop had accumulated is dropped. *)
Theorem create_bulk_error_aborts ops srcs n ps rest acc ctx s err :
  let start := [CallLog Debug "creating filesystems: %v" [LFilesystemParams ps]] in
  let errs := validationResults s (events ctx ++ start) ps in
  let vps := passed ps errs in
  let validation := (CallValidateFilesystemParams <$> ps) ++ validationLogs (zip ps errs) in
  sourceOf srcs n = Some s ->
  vps ≠ [] ->
  CreateFilesystems s (events ctx ++ start ++ validation) vps = BulkError err ->
  createFromSources ops srcs ((n, ps) :: rest) acc ctx =
  (Err (Annotated (errorNew err) "creating filesystems from source %q" [n]),
   emitted (start ++ validation ++ [CallCreateFilesystems vps]) ctx).
Proof.
  intros start errs vps validation Hs Hne Hcall.
  unfold createFromSources. cbn [rangeSlice]. rewrite run_bind.
  unfold createFromSource. mrun. rewrite Hs.
  rewrite validateFilesystemParams_spec. mrun.
  rewrite events_emitted. fold start errs vps.
  unfold recordValidationErrors.
  rewrite (recordValidationErrors_loop ps errs 0)
    by (unfold errs; rewrite validationResults_length; lia).
  rewrite drop_0. mrun.
  rewrite decide_False by (destruct vps; [done|cbn; lia]).
  unfold method. mrun. rewrite !events_emitted.
  unfold validation in Hcall. rewrite !app_assoc in Hcall. rewrite Hcall. mrun.
  unfold validation. rewrite !emitted_app. by rewrite <-!app_assoc.
Qed.

(** Whatever [publishFilesystems] returns, it has changed nothing but
    the history, unless it returns nil after [SetFilesystemInfo]: then
    the filesystems are in the cache. *)
Lemma publishFilesystems_any fs ctx r ctx' :
  publishFilesystems fs ctx = (r, ctx') ->
  exists evs,
    ctx' = emitted evs ctx \/
    (r = Ok tt /\ CallSetFilesystemInfo (filesystemsFromStorage fs) ∈ evs /\
     ctx' = set_filesystems (mergeFilesystems fs (ctx_filesystems ctx)) (emitted evs ctx)).
Proof.
  unfold publishFilesystems. case_decide.
  - intros [= <- <-]. exists []. left. by rewrite emitted_nil.
  - mrun. destruct (SetFilesystemInfo _ _ _) as [errorResults|err]; mrun.
    + intros Hrun.
      apply emitsOnly_bind_inv in Hrun as [(evs & -> & _)|(a & evs & Hrun)].
      * exists (CallSetFilesystemInfo (filesystemsFromStorage fs) :: evs). left.
        by rewrite emitted_app.
      * rewrite updateFilesystem_loop in Hrun. injection Hrun as <- <-.
        exists (CallSetFilesystemInfo (filesystemsFromStorage fs) :: evs). right.
        split_and!; [done|set_solver|]. by rewrite emitted_app.
      * apply emitsOnly_rangeSlice. intros i x b. destruct (er_Error x); emitsOnly_auto.
    + intros [= <- <-]. eexists. by left.
Qed.

(** X8. [createFilesystems] never touches the cache of attachments, and
    changes the cache of filesystems only when it returns nil, after a
    call of [SetFilesystemInfo]: then the filesystems submitted to the
    controller, all of them, are in the cache. ([updateFilesystem] is
    modelled as storing the filesystem in the cache; the other functions
    declared in other files are calls that leave the caches alone.) *)
Theorem create_cache_follows_controller ro ops ctx :
  let run := createFilesystems ro ops ctx in
  ctx_filesystemAttachments run.2 = ctx_filesystemAttachments ctx /\
  (ctx_filesystems run.2 = ctx_filesystems ctx \/
   run.1 = Ok tt /\
   exists fs evs,
     events run.2 = events ctx ++ evs /\
     CallSetFilesystemInfo (filesystemsFromStorage fs) ∈ evs /\
     ctx_filesystems run.2 = mergeFilesystems fs (ctx_filesystems ctx)).
Proof.
  cbv zeta. destruct (createFilesystems ro ops ctx) as [r ctx'] eqn:Hrun. cbn [fst snd].
  unfold createFilesystems in Hrun. rewrite run_bind, run_get in Hrun. cbv beta iota in Hrun.
  assert (Hstop : forall evs (r0 : outcome unit),
    ctx_filesystemAttachments (emitted evs ctx) = ctx_filesystemAttachments ctx /\
    (ctx_filesystems (emitted evs ctx) = ctx_filesystems ctx \/
     r0 = Ok tt /\
     exists fs evs0,
       events (emitted evs ctx) = events ctx ++ evs0 /\
       CallSetFilesystemInfo (filesystemsFromStorage fs) ∈ evs0 /\
       ctx_filesystems (emitted evs ctx) = mergeFilesystems fs (ctx_filesystems ctx)))
    by (intros; split; [done|by left]).
  apply emitsOnly_bind_inv in Hrun as [(evs & -> & _)|([pbs srcs] & evs1 & Hrun)];
    [apply Hstop| |emitsOnly_auto].
  apply emitsOnly_bind_inv in Hrun as [(evs & -> & _)|(acc & evs2 & Hrun)];
    [rewrite emitted_app; apply Hstop| |emitsOnly_auto].
  rewrite emitted_app in Hrun. unfold scheduleOperations, setStatus in Hrun.
  do 2 (rewrite run_bind, run_emit in Hrun; cbv beta iota in Hrun).
  rewrite !emitted_app in Hrun.
  apply publishFilesystems_any in Hrun as (evs & [->|(-> & Hin & ->)]).
  - rewrite emitted_app. apply Hstop.
  - split; [done|]. right. split; [done|].
    exists (ca_filesystems acc),
      ((((evs1 ++ evs2) ++ [CallScheduleOperations (ca_reschedule acc)])
          ++ [CallSetStatus (ca_statuses acc)]) ++ evs).
    split_and!; [cbn; by rewrite <-?app_assoc|set_solver|done].
Qed.

End CreateMore.

(** ** [attachFilesystems]: results, rescheduling, the cache *)

Section AttachMore.
Context {names : Names}.

Lemma interpretAttachResults_loop ops (ps : list FilesystemAttachmentParams) :
  forall (results : list AttachFilesystemsResult) i acc ctx,
  (i + length results ≤ length ps)%nat ->
  Forall attachResultOk results ->
  let z := zip (drop i ps) results in
  rangeSlice (fun i result acc =>
      p ← index ps i;
      let tag := Tag_String (TagFilesystem (fap_Filesystem p)) in
      match afr_Error result with
      | Some e =>
          let id := storageId (fap_Machine p) (fap_Filesystem p) in
          _ ← logf Debug "failed to attach %s to %s: %v"
                [LStr (ReadableString (TagFilesystem (fap_Filesystem p)));
                 LStr (ReadableString (TagMachine (fap_Machine p))); LStr e];
          mret {| aa_reschedule := aa_reschedule acc ++ [OpAttach (ops !! id)];
                  aa_filesystemAttachments := aa_filesystemAttachments acc;
                  aa_statuses := aa_statuses acc ++
                    [{| esa_Tag := tag; esa_Status := Status_String Attaching;
                        esa_Info := e |}] |}
      | None =>
          a ← deref (afr_FilesystemAttachment result);
          mret {| aa_reschedule := aa_reschedule acc;
                  aa_filesystemAttachments := aa_filesystemAttachments acc ++ [a];
                  aa_statuses := aa_statuses acc ++
                    [{| esa_Tag := tag; esa_Status := Status_String Attached;
                        esa_Info := EmptyString |}] |}
      end) i results acc ctx =
  (Ok {| aa_reschedule := aa_reschedule acc ++ rescheduledAttachments ops z;
         aa_filesystemAttachments := aa_filesystemAttachments acc ++ attachedOf z;
         aa_statuses := aa_statuses acc ++ attachStatuses z |},
   emitted (attachLogs z) ctx).
Proof.
  induction results as [|r l IH]; intros i acc ctx Hlen Hok z.
  - subst z. rewrite zip_with_nil_r. cbn. rewrite emitted_nil, !app_nil_r. by destruct acc.
  - cbn [length] in Hlen. apply Forall_cons in Hok as [Hr Hok].
    destruct (lookup_lt_is_Some_2 ps i) as [p Hp]; [lia|].
    subst z. rewrite (drop_S _ _ _ Hp). cbn [rangeSlice zip_with].
    rewrite !run_bind, (run_index _ _ _ _ Hp). mrun.
    unfold rescheduledAttachments, attachedOf, attachStatuses, attachLogs, attachStatus.
    cbn [omap list_omap fmap list_fmap fst snd].
    destruct (afr_Error r) as [e|] eqn:Er.
    + mrun. rewrite IH by (done || lia). rewrite emitted_app. cbn.
      by rewrite <-!app_assoc.
    + destruct (Hr Er) as [f Hf]. rewrite Hf. mrun.
      rewrite IH by (done || lia). cbn. by rewrite <-!app_assoc.
Qed.

(** X9. The results of [AttachFilesystems], at most one per parameter and
    each with an error or an attachment, are read by position: a result
    without error gives its parameter the status [attached] and its
    attachment is kept for the controller; a result with an error gives
    the status [attaching] with the error's text, and the entry of [ops]
    under the parameter's machine and filesystem is rescheduled. Only
    the failures are logged. *)
Theorem attach_results_interpreted ops (ps : list FilesystemAttachmentParams)
    (results : list AttachFilesystemsResult) acc ctx :
  (length results ≤ length ps)%nat ->
  Forall attachResultOk results ->
  let z := zip ps results in
  exists acc',
    interpretAttachResults ops ps results acc ctx = (Ok acc', emitted (attachLogs z) ctx) /\
    aa_statuses acc' = aa_statuses acc ++ attachStatuses z /\
    aa_reschedule acc' = aa_reschedule acc ++ rescheduledAttachments ops z /\
    aa_filesystemAttachments acc' = aa_filesystemAttachments acc ++ attachedOf z /\
    (forall i p r, ps !! i = Some p -> results !! i = Some r ->
       let tag := Tag_String (TagFilesystem (fap_Filesystem p)) in
       (afr_Error r = None ->
          aa_statuses acc' !! (length (aa_statuses acc) + i)%nat =
            Some {| esa_Tag := tag; esa_Status := "attached"; esa_Info := EmptyString |} /\
          exists a, afr_FilesystemAttachment r = Some a /\
                    a ∈ aa_filesystemAttachments acc') /\
       (forall e, afr_Error r = Some e ->
          aa_statuses acc' !! (length (aa_statuses acc) + i)%nat =
            Some {| esa_Tag := tag; esa_Status := "attaching"; esa_Info := e |} /\
          OpAttach (ops !! storageId (fap_Machine p) (fap_Filesystem p))
            ∈ aa_reschedule acc')).
Proof.
  intros Hlen Hok z. subst z. eexists. split.
  { unfold interpretAttachResults.
    rewrite (interpretAttachResults_loop ops ps results 0) by done.
    by rewrite drop_0. }
  cbn [aa_statuses aa_reschedule aa_filesystemAttachments]. split_and!; try done.
  intros i p r Hp Hr. cbv zeta. pose proof (zip_lookup _ _ _ _ _ Hp Hr) as Hz.
  assert (Hst : forall st, attachStatus p r = st ->
    (aa_statuses acc ++ attachStatuses (zip ps results))
      !! (length (aa_statuses acc) + i)%nat = Some st).
  { intros st <-. rewrite lookup_app_r by lia.
    replace (_ + i - _)%nat with i by lia.
    unfold attachStatuses. by rewrite list_lookup_fmap, Hz. }
  split.
  - intros He. split; [apply Hst; unfold attachStatus; by rewrite He|].
    rewrite List.Forall_forall in Hok.
    destruct (Hok r) as [a Ha];
      [apply list_elem_of_In; by eapply list_elem_of_lookup_2|done|].
    exists a. split; [done|]. apply elem_of_app. right. apply list_elem_of_omap.
    exists (p, r). split; [by eapply list_elem_of_lookup_2|]. cbn. by rewrite He.
  - intros e He. split; [apply Hst; unfold attachStatus; by rewrite He|].
    apply elem_of_app. right. apply list_elem_of_omap.
    exists (p, r). split; [by eapply list_elem_of_lookup_2|]. cbn. by rewrite He.
Qed.

(** The parameters built from an operation, with or without a
    synthesized path, lead back to the operation's key. *)
Lemma attachArgs_key dir op :
  storageId (fap_Machine (attachArgs dir op)) (fap_Filesystem (attachArgs dir op))
  = attachFilesystemOp_key op.
Proof. unfold attachArgs, storageId, attachFilesystemOp_key. by case_decide. Qed.

(** X10. When [ops] holds an operation under its own [key], and the
    parameters submitted for it (its arguments, with the mount path
    synthesized when it was empty) get a result with an error, it is
    this operation, with its original arguments, that is rescheduled. *)
Theorem attach_reschedules_original_op dir ops (ps : list FilesystemAttachmentParams)
    (results : list AttachFilesystemsResult) acc ctx i op r e :
  (length results ≤ length ps)%nat ->
  Forall attachResultOk results ->
  ops !! attachFilesystemOp_key op = Some op ->
  ps !! i = Some (attachArgs dir op) ->
  results !! i = Some r -> afr_Error r = Some e ->
  exists acc' ctx',
    interpretAttachResults ops ps results acc ctx = (Ok acc', ctx') /\
    OpAttach (Some op) ∈ aa_reschedule acc'.
Proof.
  intros Hlen Hok Hop Hp Hr He. eexists _, _. split.
  { unfold interpretAttachResults.
    by rewrite (interpretAttachResults_loop ops ps results 0) by done. }
  cbn [aa_reschedule]. rewrite drop_0. apply elem_of_app. right.
  apply list_elem_of_omap. exists (attachArgs dir op, r).
  split; [eapply list_elem_of_lookup_2; by apply zip_lookup|].
  cbn [fst snd]. by rewrite He, attachArgs_key, Hop.
Qed.

(** X11. When [AttachFilesystems] returns an error for the whole batch of
    a source, the loop over the sources ends there with that error,
    annotated with the source's name: the sources after it are not
    visited and what the loop had accumulated is dropped. *)
Theorem attach_bulk_error_aborts ops srcs n ps rest acc ctx s err i :
  let start := CallLog Debug "attaching filesystems: %+v" [LAttachmentParams ps] in
  sourceOf srcs n = Some s ->
  AttachFilesystems s (events ctx ++ [start]) ps = BulkError err ->
  rangeSlice (fun _ '(sourceName, filesystemAttachmentParams) =>
      attachFromSource ops srcs sourceName filesystemAttachmentParams)
    i ((n, ps) :: rest) acc ctx =
  (Err (Annotated (errorNew err) "attaching filesystems from source %q" [n]),
   emitted [start; CallAttachFilesystems ps] ctx).
Proof.
  intros start Hs Hcall. cbn [rangeSlice]. rewrite run_bind.
  unfold attachFromSource. mrun. rewrite Hs. unfold method. mrun.
  rewrite events_emitted. fold start. rewrite Hcall. mrun.
  by rewrite emitted_app.
Qed.

(** The loop of [setFilesystemAttachmentInfo] over results without
    errors, at most one per attachment. *)
Lemma setFilesystemAttachmentInfo_accepted (fas : list FilesystemAttachment) :
  forall (rs : list ErrorResult) i ctx,
  Forall (fun r => er_Error r = None) rs ->
  (i + length rs ≤ length fas)%nat ->
  let done := take (length rs) (drop i fas) in
  rangeSlice (fun i result (_ : unit) =>
      a ← index fas i;
      match er_Error result with
      | Some e =>
          fail (Annotated (errorNew e) "publishing attachment of %s to %s to state"
                  [ReadableString (TagFilesystem (fa_Filesystem a));
                   ReadableString (TagMachine (fa_Machine a))])
      | None =>
          let id := storageId (fa_Machine a) (fa_Filesystem a) in
          _ ← modify (fun ctx =>
                 set_filesystemAttachments
                   (<[id := a]> (ctx_filesystemAttachments ctx)) ctx);
          removePendingFilesystemAttachment id
      end) i rs tt ctx =
  (Ok tt,
   set_filesystemAttachments
     (mergeAttachments done (ctx_filesystemAttachments ctx))
     (emitted (pendingCleared done) ctx)).
Proof.
  induction rs as [|r rs IH]; intros i ctx Hok Hlen.
  - cbv zeta. cbn [rangeSlice length]. rewrite take_0, run_ret.
    unfold mergeAttachments, pendingCleared. cbn [foldl fmap list_fmap].
    by rewrite emitted_nil, set_filesystemAttachments_id.
  - cbn [length] in Hlen. apply Forall_cons in Hok as [Hr Hok].
    destruct (lookup_lt_is_Some_2 fas i) as [a Ha]; [lia|].
    cbn [rangeSlice length]. rewrite !run_bind, (run_index _ _ _ _ Ha). mrun.
    rewrite Hr. mrun. unfold removePendingFilesystemAttachment. mrun.
    rewrite IH by (done || lia). cbv zeta.
    rewrite (drop_S _ _ _ Ha). destruct ctx.
    unfold mergeAttachments, pendingCleared, emitted, set_events,
      set_filesystemAttachments.
    cbn. by rewrite <-app_assoc.
Qed.

(** X12. When [SetFilesystemAttachmentInfo] returns no error at all, every
    attachment that has a result is recorded in the cache and its
    pending marker cleared, in order. With fewer results than
    attachments the remaining attachments are not recorded and nil is
    returned all the same; with more results than attachments the
    function panics after the last attachment. *)
Theorem attachments_all_accepted (fas : list FilesystemAttachment) ctx
    (errorResults : list ErrorResult) :
  fas ≠ [] ->
  SetFilesystemAttachmentInfo (Filesystems (ctx_config ctx)) (events ctx)
    (filesystemAttachmentsFromStorage fas) = BulkResults errorResults ->
  Forall (fun r => er_Error r = None) (take (length fas) errorResults) ->
  let done := take (length errorResults) fas in
  setFilesystemAttachmentInfo fas ctx =
  (if decide (length errorResults ≤ length fas)%nat then Ok tt else Panic,
   set_filesystemAttachments
     (mergeAttachments done (ctx_filesystemAttachments ctx))
     (emitted (CallSetFilesystemAttachmentInfo (filesystemAttachmentsFromStorage fas)
               :: pendingCleared done) ctx)).
Proof.
  intros Hne Hcall Hok done. unfold setFilesystemAttachmentInfo.
  rewrite decide_False by (destruct fas; [done|cbn; lia]). mrun. rewrite Hcall. mrun.
  rewrite <-(take_drop (length fas) errorResults) at 1.
  rewrite rangeSlice_app, run_bind.
  rewrite setFilesystemAttachmentInfo_accepted by (rewrite ?length_take; (done || lia)).
  rewrite drop_0, length_take. cbv zeta. cbn [Nat.add].
  assert (Hdone : take (length errorResults `min` length fas)%nat fas = done).
  { unfold done. destruct (decide (length errorResults ≤ length fas)%nat).
    - by rewrite Nat.min_l by lia.
    - rewrite Nat.min_r by lia. by rewrite !take_ge by lia. }
  rewrite (Nat.min_comm (length fas)), Hdone.
  assert (Hctx : forall c : context,
    set_filesystemAttachments (mergeAttachments done (ctx_filesystemAttachments ctx))
      (emitted
         (CallSetFilesystemAttachmentInfo (filesystemAttachmentsFromStorage fas)
          :: pendingCleared done) ctx) =
    set_filesystemAttachments
      (mergeAttachments done
         (ctx_filesystemAttachments
            (emitted [CallSetFilesystemAttachmentInfo (filesystemAttachmentsFromStorage fas)]
               ctx)))
      (emitted (pendingCleared done)
         (emitted [CallSetFilesystemAttachmentInfo (filesystemAttachmentsFromStorage fas)]
            ctx))).
  { intros _. by rewrite emitted_app. }
  rewrite (Hctx ctx).
  case_decide as Hlen.
  - rewrite drop_ge by lia. done.
  - destruct (drop (length fas) errorResults) as [|r rest] eqn:Ed.
    { apply (f_equal length) in Ed. rewrite length_drop in Ed. cbn in Ed. lia. }
    cbn [rangeSlice]. rewrite !run_bind. unfold index.
    rewrite lookup_ge_None_2 by lia. by mrun.
Qed.

(** Whatever the loop of [setFilesystemAttachmentInfo] returns, it has
    recorded a prefix of the attachments and cleared their markers. *)
Lemma setFilesystemAttachmentInfo_any (fas : list FilesystemAttachment) :
  forall (rs : list ErrorResult) i ctx r ctx',
  rangeSlice (fun i result (_ : unit) =>
      a ← index fas i;
      match er_Error result with
      | Some e =>
          fail (Annotated (errorNew e) "publishing attachment of %s to %s to state"
                  [ReadableString (TagFilesystem (fa_Filesystem a));
                   ReadableString (TagMachine (fa_Machine a))])
      | None =>
          let id := storageId (fa_Machine a) (fa_Filesystem a) in
          _ ← modify (fun ctx =>
                 set_filesystemAttachments
                   (<[id := a]> (ctx_filesystemAttachments ctx)) ctx);
          removePendingFilesystemAttachment id
      end) i rs tt ctx = (r, ctx') ->
  exists k,
    ctx' = set_filesystemAttachments
             (mergeAttachments (take k (drop i fas)) (ctx_filesystemAttachments ctx))
             (emitted (pendingCleared (take k (drop i fas))) ctx).
Proof.
  assert (Hzero : forall i ctx,
    ctx = set_filesystemAttachments
            (mergeAttachments (take 0 (drop i fas)) (ctx_filesystemAttachments ctx))
            (emitted (pendingCleared (take 0 (drop i fas))) ctx)).
  { intros i ctx. rewrite take_0. unfold mergeAttachments, pendingCleared.
    cbn [foldl fmap list_fmap]. by rewrite emitted_nil, set_filesystemAttachments_id. }
  induction rs as [|r0 rs IH]; intros i ctx r ctx'.
  - intros [= <- <-]. exists 0%nat. apply Hzero.
  - cbn [rangeSlice]. rewrite !run_bind. unfold index at 1.
    destruct (fas !! i) as [a|] eqn:Ha; mrun.
    + destruct (er_Error r0) as [e|]; mrun.
      * intros [= <- <-]. exists 0%nat. apply Hzero.
      * unfold removePendingFilesystemAttachment. mrun.
        intros (k & ->)%IH. exists (S k).
        rewrite (drop_S _ _ _ Ha). destruct ctx.
        unfold mergeAttachments, pendingCleared, emitted, set_events,
          set_filesystemAttachments.
        cbn. by rewrite <-app_assoc.
    + intros [= <- <-]. exists 0%nat. apply Hzero.
Qed.

(** X13. [attachFilesystems] never touches the cache of filesystems, and
    whatever it returns, what it has added to the cache of attachments
    is a prefix of the attachments it has submitted to
    [SetFilesystemAttachmentInfo], each with its pending marker cleared:
    nothing is recorded before the controller has been told. (The
    functions declared in other files are calls that leave the caches
    alone.) *)
Theorem attach_cache_follows_controller ro ops ctx :
  let run := attachFilesystems ro ops ctx in
  ctx_filesystems run.2 = ctx_filesystems ctx /\
  exists done,
    ctx_filesystemAttachments run.2 =
      mergeAttachments done (ctx_filesystemAttachments ctx) /\
    (done = [] \/
     exists fas evs,
       events run.2 = events ctx ++ evs ++ pendingCleared done /\
       last evs = Some (CallSetFilesystemAttachmentInfo
                          (filesystemAttachmentsFromStorage fas)) /\
       done `prefix_of` fas).
Proof.
  cbv zeta. destruct (attachFilesystems ro ops ctx) as [r ctx'] eqn:Hrun. cbn [fst snd].
  unfold attachFilesystems in Hrun. rewrite run_bind, run_get in Hrun.
  cbv beta iota in Hrun.
  assert (Hstop : forall evs,
    ctx_filesystems (emitted evs ctx) = ctx_filesystems ctx /\
    exists done,
      ctx_filesystemAttachments (emitted evs ctx) =
        mergeAttachments done (ctx_filesystemAttachments ctx) /\
      (done = [] \/
       exists fas evs0,
         events (emitted evs ctx) = events ctx ++ evs0 ++ pendingCleared done /\
         last evs0 = Some (CallSetFilesystemAttachmentInfo
                             (filesystemAttachmentsFromStorage fas)) /\
         done `prefix_of` fas)).
  { intros evs. split; [done|]. exists []. split; [done|by left]. }
  apply emitsOnly_bind_inv in Hrun as [(evs & -> & _)|([pbs srcs] & evs1 & Hrun)];
    [apply Hstop| |emitsOnly_auto].
  apply emitsOnly_bind_inv in Hrun as [(evs & -> & _)|(acc & evs2 & Hrun)];
    [rewrite emitted_app; apply Hstop| |emitsOnly_auto].
  rewrite emitted_app in Hrun. unfold scheduleOperations, setStatus in Hrun.
  do 2 (rewrite run_bind, run_emit in Hrun; cbv beta iota in Hrun).
  rewrite !emitted_app in Hrun.
  unfold setFilesystemAttachmentInfo in Hrun. case_decide.
  { injection Hrun as <- <-. apply Hstop. }
  rewrite run_bind, run_get in Hrun. cbv beta iota in Hrun.
  rewrite run_bind, run_call in Hrun. cbv beta iota in Hrun.
  rewrite emitted_app in Hrun.
  destruct (SetFilesystemAttachmentInfo _ _ _) as [errorResults|err].
  - apply setFilesystemAttachmentInfo_any in Hrun as (k & ->).
    rewrite drop_0. split; [reflexivity|].
    exists (take k (aa_filesystemAttachments acc)). split; [reflexivity|]. right.
    exists (aa_filesystemAttachments acc),
      ((((evs1 ++ evs2) ++ [CallScheduleOperations (aa_reschedule acc)])
          ++ [CallSetStatus (aa_statuses acc)])
         ++ [CallSetFilesystemAttachmentInfo
               (filesystemAttachmentsFromStorage (aa_filesystemAttachments acc))]).
    split_and!.
    + change (events (set_filesystemAttachments ?m ?c)) with (events c).
      rewrite !emitted_app, events_emitted. by rewrite <-!app_assoc.
    + by rewrite last_snoc.
    + apply prefix_take.
  - injection Hrun as <- <-. apply Hstop.
Qed.

End AttachMore.

(** ** [detachFilesystems]: results, nil sources, the cache *)

Section DetachMore.
Context {names : Names}.

Lemma emits_rangeSlice_elem {A B} (P : event -> Prop) (body : nat -> A -> B -> M B) l :
  (forall i x b, x ∈ l -> emits P (body i x b)) ->
  forall i b, emits P (rangeSlice body i l b).
Proof.
  induction l as [|x l IH]; intros Hbody i b; cbn [rangeSlice].
  - apply emits_ret.
  - apply emits_bind; [apply Hbody; set_solver|].
    intros b'. apply IH. intros j y c Hy. apply Hbody. set_solver.
Qed.

Lemma zip_take_r {A B} : forall (l : list A) (k : list B),
  zip l (take (length l) k) = zip l k.
Proof.
  induction l as [|x l IH]; intros k; [done|].
  destruct k as [|y k]; [done|]. cbn. by rewrite IH.
Qed.

Lemma interpretDetachResults_loop ops (ps : list FilesystemAttachmentParams) :
  forall (errs : list extError) i acc ctx,
  (i + length errs ≤ length ps)%nat ->
  let z := zip (drop i ps) errs in
  rangeSlice (fun i err acc =>
      p ← index ps i;
      let tag := Tag_String (TagFilesystem (fap_Filesystem p)) in
      let id := storageId (fap_Machine p) (fap_Filesystem p) in
      match err with
      | Some e =>
          _ ← logf Debug "failed to detach %s from %s: %v"
                [LStr (ReadableString (TagFilesystem (fap_Filesystem p)));
                 LStr (ReadableString (TagMachine (fap_Machine p))); LStr e];
          mret {| da_reschedule := da_reschedule acc ++ [OpDetach (ops !! id)];
                  da_statuses := da_statuses acc ++
                    [{| esa_Tag := tag; esa_Status := Status_String Detaching;
                        esa_Info := e |}];
                  da_remove := da_remove acc |}
      | None =>
          mret {| da_reschedule := da_reschedule acc;
                  da_statuses := da_statuses acc ++
                    [{| esa_Tag := tag; esa_Status := Status_String Detached;
                        esa_Info := EmptyString |}];
                  da_remove := da_remove acc ++ [id] |}
      end) i errs acc ctx =
  (Ok {| da_reschedule := da_reschedule acc ++ rescheduledDetachments ops z;
         da_statuses := da_statuses acc ++ detachStatuses z;
         da_remove := da_remove acc ++ detachedIds z |},
   emitted (detachLogs z) ctx).
Proof.
  induction errs as [|err l IH]; intros i acc ctx Hlen z.
  - subst z. rewrite zip_with_nil_r. cbn. rewrite emitted_nil, !app_nil_r. by destruct acc.
  - cbn [length] in Hlen.
    destruct (lookup_lt_is_Some_2 ps i) as [p Hp]; [lia|].
    subst z. rewrite (drop_S _ _ _ Hp). cbn [rangeSlice zip_with].
    rewrite !run_bind, (run_index _ _ _ _ Hp). mrun.
    unfold rescheduledDetachments, detachedIds, detachStatuses, detachLogs, detachStatus.
    cbn [omap list_omap fmap list_fmap fst snd].
    destruct err as [e|].
    + mrun. rewrite IH by lia. rewrite emitted_app. cbn. by rewrite <-!app_assoc.
    + mrun. rewrite IH by lia. cbn. by rewrite <-!app_assoc.
Qed.

(** X14. The results of [DetachFilesystems] are read by position: a nil
    result gives its parameter the status [detached] and its machine and
    filesystem are kept for removal from the controller; an error gives
    the status [detaching] with the error's text, and the entry of [ops]
    under the parameter's machine and filesystem is rescheduled. Only
    the failures are logged. With more results than parameters the loop
    panics, after the results of all the parameters. *)
Theorem detach_results_interpreted ops (ps : list FilesystemAttachmentParams)
    (errs : list extError) acc ctx :
  let z := zip ps errs in
  interpretDetachResults ops ps errs acc ctx =
  (if decide (length errs ≤ length ps)%nat
   then Ok {| da_reschedule := da_reschedule acc ++ rescheduledDetachments ops z;
              da_statuses := da_statuses acc ++ detachStatuses z;
              da_remove := da_remove acc ++ detachedIds z |}
   else Panic,
   emitted (detachLogs z) ctx).
Proof.
  intros z. subst z. unfold interpretDetachResults. case_decide as Hlen.
  - rewrite (interpretDetachResults_loop ops ps errs 0) by done. by rewrite drop_0.
  - rewrite <-(take_drop (length ps) errs) at 1. rewrite rangeSlice_app, run_bind.
    rewrite (interpretDetachResults_loop ops ps (take (length ps) errs) 0)
      by (rewrite length_take; lia).
    rewrite drop_0, zip_take_r, length_take, Nat.min_l by lia. cbn [Nat.add].
    destruct (drop (length ps) errs) as [|r rest] eqn:Ed.
    { apply (f_equal length) in Ed. rewrite length_drop in Ed. cbn in Ed. lia. }
    cbn [rangeSlice]. rewrite !run_bind. unfold index.
    rewrite lookup_ge_None_2 by lia. by mrun.
Qed.

(** X15. When [DetachFilesystems] returns an error for the whole batch of
    a source, the loop over the sources ends there with that error,
    annotated with the source's name: the sources after it are not
    visited and what the loop had accumulated is dropped. *)
Theorem detach_bulk_error_aborts ops srcs n ps rest acc ctx s err :
  let start := CallLog Debug "detaching filesystems: %+v" [LAttachmentParams ps] in
  srcs !! n = Some (Some s) ->
  DetachFilesystems s (events ctx ++ [start]) ps = BulkError err ->
  detachFromSources ops srcs ((n, ps) :: rest) acc ctx =
  (Err (Annotated (errorNew err) "detaching filesystems from source %q" [n]),
   emitted [start; CallDetachFilesystems ps] ctx).
Proof.
  intros start Hs Hcall. unfold detachFromSources. cbn [rangeSlice]. rewrite run_bind.
  unfold detachFromSource. mrun. unfold sourceOf. rewrite Hs.
  rewrite bool_decide_eq_true_2 by eauto. cbn [negb andb].
  change (default None (Some (Some s))) with (Some s).
  unfold method. mrun. rewrite events_emitted. fold start. rewrite Hcall. mrun.
  by rewrite emitted_app.
Qed.

(** X16. A source name bound to a nil source makes every loop over the
    sources panic at its first method call, after the loop's first log
    line: in [detachFilesystems] too, CAAS model or not, because the
    CAAS guard looks at whether the name is bound, not at the source. *)
Theorem nil_source_panics srcs n ctx :
  srcs !! n = Some None ->
  (forall ops p ps acc,
     createFromSource ops srcs n (p :: ps) acc ctx =
     (Panic, emitted [CallLog Debug "creating filesystems: %v"
                        [LFilesystemParams (p :: ps)]] ctx)) /\
  (forall ops ps acc,
     attachFromSource ops srcs n ps acc ctx =
     (Panic, emitted [CallLog Debug "attaching filesystems: %+v"
                        [LAttachmentParams ps]] ctx)) /\
  (forall ops ps acc,
     detachFromSource ops srcs n ps acc ctx =
     (Panic, emitted [CallLog Debug "detaching filesystems: %+v"
                        [LAttachmentParams ps]] ctx)) /\
  (forall ops byTag ps acc,
     removeFromSource ops byTag srcs n ps acc ctx =
     (Panic, emitted [CallLog Debug "removing filesystems from %q: %v"
                        [LStr n; LFilesystemParams ps]] ctx)).
Proof.
  intros Hs. assert (Hsrc : sourceOf srcs n = None) by (unfold sourceOf; by rewrite Hs).
  split_and!.
  - intros ops p ps acc. unfold createFromSource. mrun. rewrite Hsrc.
    unfold validateFilesystemParams. cbn [rangeSlice]. unfold method. by mrun.
  - intros ops ps acc. unfold attachFromSource. mrun. rewrite Hsrc.
    unfold method. by mrun.
  - intros ops ps acc. unfold detachFromSource. mrun. rewrite Hsrc, Hs.
    rewrite bool_decide_eq_true_2 by eauto. cbn [negb andb].
    unfold method. by mrun.
  - intros ops byTag ps acc. unfold removeFromSource. mrun.
    rewrite partitionRemoveFilesystemParams_spec by (by rewrite !length_fmap).
    mrun. rewrite Hsrc. by mrun.
Qed.

Lemma deleteAttachments_loop (l : list MachineStorageId) :
  forall i ctx,
  rangeSlice (fun _ id (_ : unit) =>
      modify (fun ctx =>
        set_filesystemAttachments (delete id (ctx_filesystemAttachments ctx)) ctx))
    i l tt ctx =
  (Ok tt,
   set_filesystemAttachments (deleteAttachments l (ctx_filesystemAttachments ctx)) ctx).
Proof.
  induction l as [|id l IH]; intros i ctx.
  - cbn [rangeSlice]. unfold deleteAttachments. cbn [foldl].
    by rewrite run_ret, set_filesystemAttachments_id.
  - cbn [rangeSlice]. mrun. rewrite IH. by destruct ctx.
Qed.

Lemma removeAttachments_run format args ids ctx :
  annotate format args (removeAttachments ids) ctx =
  (match removeAttachments_result (ctx_collab ctx) (events ctx) ids with
   | None => Ok tt
   | Some e => Err (Annotated (errorNew e) format args)
   end, emitted [CallRemoveAttachments ids] ctx).
Proof.
  unfold annotate, removeAttachments. mrun.
  by destruct (removeAttachments_result _ _ _).
Qed.

(** X17. [detachFilesystems] never touches the cache of filesystems, and
    changes the cache of attachments only when it returns nil: its last
    call is then [removeAttachments], which has returned no error, and
    exactly the ids given to it are deleted from the cache. On any other
    outcome the cache is as it was. (The functions declared in other
    files are calls that leave the caches alone.) *)
Theorem detach_cache_follows_controller ro ops ctx :
  let run := detachFilesystems ro ops ctx in
  ctx_filesystems run.2 = ctx_filesystems ctx /\
  (run.1 ≠ Ok tt /\ ctx_filesystemAttachments run.2 = ctx_filesystemAttachments ctx \/
   run.1 = Ok tt /\
   exists removed evs,
     events run.2 = events ctx ++ evs ++ [CallRemoveAttachments removed] /\
     removeAttachments_result (ctx_collab ctx) (events ctx ++ evs) removed = None /\
     ctx_filesystemAttachments run.2 =
       deleteAttachments removed (ctx_filesystemAttachments ctx)).
Proof.
  cbv zeta. destruct (detachFilesystems ro ops ctx) as [r ctx'] eqn:Hrun. cbn [fst snd].
  unfold detachFilesystems in Hrun. rewrite run_bind, run_get in Hrun.
  cbv beta iota in Hrun.
  assert (Hstop : forall evs (r0 : outcome unit), r0 ≠ Ok tt ->
    ctx_filesystems (emitted evs ctx) = ctx_filesystems ctx /\
    (r0 ≠ Ok tt /\
     ctx_filesystemAttachments (emitted evs ctx) = ctx_filesystemAttachments ctx \/
     r0 = Ok tt /\
     exists removed evs0,
       events (emitted evs ctx) = events ctx ++ evs0 ++ [CallRemoveAttachments removed] /\
       removeAttachments_result (ctx_collab ctx) (events ctx ++ evs0) removed = None /\
       ctx_filesystemAttachments (emitted evs ctx) =
         deleteAttachments removed (ctx_filesystemAttachments ctx)))
    by (intros; split; [done|by left]).
  apply emitsOnly_bind_inv in Hrun as [(evs & -> & Hr)|([pbs srcs] & evs1 & Hrun)];
    [by apply Hstop| |emitsOnly_auto].
  apply emitsOnly_bind_inv in Hrun as [(evs & -> & Hr)|(acc & evs2 & Hrun)];
    [rewrite emitted_app; by apply Hstop| |emitsOnly_auto].
  rewrite emitted_app in Hrun. unfold scheduleOperations, setStatus in Hrun.
  do 2 (rewrite run_bind, run_emit in Hrun; cbv beta iota in Hrun).
  rewrite !emitted_app in Hrun.
  rewrite run_bind, removeAttachments_run in Hrun. rewrite events_emitted in Hrun.
  change (ctx_collab (emitted ?e ?c)) with (ctx_collab c) in Hrun.
  destruct (removeAttachments_result _ _ _) as [e|] eqn:Eres.
  - injection Hrun as <- <-. rewrite emitted_app. by apply Hstop.
  - rewrite deleteAttachments_loop in Hrun. injection Hrun as <- <-.
    split; [reflexivity|]. right. split; [done|].
    exists (da_remove acc),
      ((evs1 ++ evs2) ++ [CallScheduleOperations (da_reschedule acc);
                           CallSetStatus (da_statuses acc)]).
    split_and!; [|exact Eres|reflexivity].
    change (events (set_filesystemAttachments ?m ?c)) with (events c).
    by rewrite !emitted_app, events_emitted.
Qed.

Lemma emits_bind_ok {A B} (P : event -> Prop) (m : M A) (f : A -> M B) :
  emits P m ->
  (forall ctx a ctx', m ctx = (Ok a, ctx') -> emits P (f a)) ->
  emits P (m ≫= f).
Proof.
  intros Hm Hf ctx r ctx'. rewrite run_bind.
  destruct (m ctx) as [[a|e|] ctx1] eqn:Em;
    destruct (Hm _ _ _ Em) as (evs1 & Hev1 & HP1).
  - intros Ef. destruct (Hf _ _ _ Em _ _ _ Ef) as (evs2 & Hev2 & HP2).
    exists (evs1 ++ evs2). split; [|by apply Forall_app].
    by rewrite Hev2, Hev1, app_assoc.
  - intros [= <- <-]. eauto.
  - intros [= <- <-]. eauto.
Qed.

(** X18. In [detachFilesystems] the name of every partition is bound in
    the map of sources the resolver returns with it, so the branch that
    skips a source whose name is not bound is never taken, CAAS model or
    not: whatever the pass returns, it has logged nothing at the level
    Critical. *)
Theorem detach_never_skips_a_source ro ops ctx :
  let run := detachFilesystems ro ops ctx in
  exists evs, events run.2 = events ctx ++ evs /\
              Forall (fun e => isCritical e = false) evs.
Proof.
  cbv zeta. destruct (detachFilesystems ro ops ctx) as [r ctx'] eqn:Hrun. cbn [snd].
  revert ctx r ctx' Hrun.
  change (emits (fun e => isCritical e = false) (detachFilesystems ro ops)).
  unfold detachFilesystems. apply emits_bind; [apply emits_get|intros c].
  apply emits_bind_ok; [emits_auto ltac:(reflexivity)|].
  intros ctx0 [pbs srcs] ctx1 Er.
  apply emits_bind.
  - unfold detachFromSources. apply emits_rangeSlice_elem.
    intros i [n ps] acc Hin%range_lookup.
    pose proof (attachment_partition_bound _ _ _ _ _ _ _ _ _ _ Er Hin) as Hb.
    unfold detachFromSource.
    apply emits_bind; [emits_auto ltac:(reflexivity)|intros _].
    apply emits_bind; [apply emits_get|intros c0].
    rewrite bool_decide_eq_true_2 by done. cbn [negb andb].
    emits_auto ltac:(reflexivity).
  - intros acc. unfold scheduleOperations, setStatus. emits_auto ltac:(reflexivity).
Qed.

End DetachMore.

(** ** [removeFilesystems]: bounds of the loops, a failing destroy *)

Section RemoveMore.
Context {names : Names}.

(** X19. [partitionRemoveFilesystemParams] panics exactly when it is given
    more parameters than tags (the index [removeTags[i]] is out of
    range). Otherwise it pairs each parameter with the tag at its
    position, ignores the tags beyond the parameters, and returns the
    pairs to destroy and the pairs to release, each in input order. *)
Theorem partition_remove_total (removeTags : list FilesystemTag)
    (removeParams : list RemoveFilesystemParams) ctx :
  let z := zip removeTags removeParams in
  partitionRemoveFilesystemParams removeTags removeParams ctx =
  (if decide (length removeParams ≤ length removeTags)%nat
   then Ok ((toDestroy z).*1, idsOf (toDestroy z), (toRelease z).*1, idsOf (toRelease z))
   else Panic,
   ctx).
Proof.
  intros z. case_decide as Hlen; [by apply partitionRemoveFilesystemParams_spec|].
  unfold partitionRemoveFilesystemParams.
  rewrite <-(take_drop (length removeTags) removeParams) at 1.
  rewrite rangeSlice_app, run_bind.
  pose proof (partitionRemoveFilesystemParams_loop removeTags
                (take (length removeTags) removeParams) 0 [] [] [] [] ctx) as Hloop.
  cbv zeta in Hloop. rewrite Hloop by (rewrite length_take; lia).
  rewrite length_take, Nat.min_l by lia. cbn [Nat.add].
  destruct (drop (length removeTags) removeParams) as [|r rest] eqn:Ed.
  { apply (f_equal length) in Ed. rewrite length_drop in Ed. cbn in Ed. lia. }
  cbn [rangeSlice]. rewrite !run_bind. unfold index.
  rewrite lookup_ge_None_2 by lia. by mrun.
Qed.

Lemma removeParamsByTag_loop (tags : list FilesystemTag) :
  forall (rps : list RemoveFilesystemParams) i
    (byTag : gmap FilesystemTag RemoveFilesystemParams)
    (done : list FilesystemParams) k ctx,
  length done = i ->
  (i + length rps ≤ length tags)%nat ->
  let z := zip (drop i tags) rps in
  rangeSlice (fun i args '(byTag, filesystemParams) =>
      tag ← index tags i;
      mret (<[tag := args]> byTag,
            <[i := {| fp_Tag := tag; fp_Volume := VolumeTag_zero; fp_Size := 0%N;
                      fp_Provider := rfp_Provider args |}]> filesystemParams))
    i rps (byTag, done ++ replicate (length rps + k) FilesystemParams_zero) ctx =
  (Ok (foldl (fun m x => <[x.1 := x.2]> m) byTag z,
       done ++ (removalParams <$> z) ++ replicate k FilesystemParams_zero), ctx).
Proof.
  induction rps as [|a rps IH]; intros i byTag done k ctx Hi Hlen z.
  - subst z. by rewrite zip_with_nil_r.
  - cbn [length] in Hlen.
    destruct (lookup_lt_is_Some_2 tags i) as [t Ht]; [lia|].
    subst z. rewrite (drop_S _ _ _ Ht). cbn [rangeSlice zip_with length].
    rewrite !run_bind, (run_index _ _ _ _ Ht). mrun.
    replace (<[i := {| fp_Tag := t; fp_Volume := VolumeTag_zero; fp_Size := 0%N;
                       fp_Provider := rfp_Provider a |}]>
               (done ++ replicate (S (length rps) + k) FilesystemParams_zero))
      with ((done ++ [removalParams (t, a)]) ++
            replicate (length rps + k) FilesystemParams_zero).
    2: { rewrite insert_app_r_alt by lia. rewrite Hi, Nat.sub_diag. cbn.
         by rewrite <-app_assoc. }
    rewrite IH by (rewrite ?length_app; cbn; lia).
    cbn [foldl fmap list_fmap fst snd]. by rewrite <-!app_assoc.
Qed.

(** X20. The second loop of [removeFilesystems] panics exactly when the
    controller has returned more parameters than there are tags.
    Otherwise each parameter is stored under the tag at its position and
    turned into filesystem parameters with that tag and the parameter's
    provider; a tag without a parameter keeps zero-valued filesystem
    parameters, with the empty tag and the empty provider name. *)
Theorem remove_params_by_tag (tags : list FilesystemTag)
    (rps : list RemoveFilesystemParams) ctx :
  let z := zip tags rps in
  removeParamsByTag tags rps ctx =
  (if decide (length rps ≤ length tags)%nat
   then Ok (removalsByTag z,
            (removalParams <$> z) ++
            replicate (length tags - length rps) FilesystemParams_zero)
   else Panic,
   ctx).
Proof.
  intros z. subst z. unfold removeParamsByTag. case_decide as Hlen.
  - pose proof (removeParamsByTag_loop tags rps 0 ∅ [] (length tags - length rps) ctx
                  eq_refl Hlen) as Hloop.
    cbv zeta in Hloop. rewrite drop_0, !app_nil_l in Hloop.
    replace (length rps + (length tags - length rps))%nat with (length tags) in Hloop by lia.
    exact Hloop.
  - rewrite <-(take_drop (length tags) rps) at 1.
    rewrite rangeSlice_app, run_bind.
    pose proof (removeParamsByTag_loop tags (take (length tags) rps) 0 ∅ [] 0 ctx
                  eq_refl) as Hloop.
    cbv zeta in Hloop. rewrite length_take, Nat.min_l, Nat.add_0_r, !app_nil_l in Hloop by lia.
    rewrite Hloop by lia.
    rewrite length_take, Nat.min_l by lia. cbn [Nat.add].
    destruct (drop (length tags) rps) as [|r rest] eqn:Ed.
    { apply (f_equal length) in Ed. rewrite length_drop in Ed. cbn in Ed. lia. }
    cbn [rangeSlice]. rewrite !run_bind. unfold index.
    rewrite lookup_ge_None_2 by lia. by mrun.
Qed.

(** X21. When [DestroyFilesystems] returns an error for the whole
    sub-batch to destroy, the loop over the sources ends there with that
    error, without the source's name: [ReleaseFilesystems] is not called
    for this source, and the sources after it are not visited. *)
Theorem remove_destroy_error_skips_release ops byTag srcs n ps rest acc ctx s err i :
  let tags := fp_Tag <$> ps in
  let rps := (fun a => default RemoveFilesystemParams_zero (byTag !! fp_Tag a)) <$> ps in
  let D := toDestroy (zip tags rps) in
  let start := CallLog Debug "removing filesystems from %q: %v"
                 [LStr n; LFilesystemParams ps] in
  sourceOf srcs n = Some s ->
  idsOf D ≠ [] ->
  DestroyFilesystems s (events ctx ++ [start]) (idsOf D) = BulkError err ->
  rangeSlice (fun _ '(sourceName, filesystemParams) =>
      removeFromSource ops byTag srcs sourceName filesystemParams)
    i ((n, ps) :: rest) acc ctx =
  (Err (errorNew err), emitted [start; CallDestroyFilesystems (idsOf D)] ctx).
Proof.
  intros tags rps D start Hs Hne Hcall. cbn [rangeSlice]. rewrite run_bind.
  unfold removeFromSource. mrun.
  rewrite partitionRemoveFilesystemParams_spec by (by rewrite !length_fmap).
  mrun. rewrite Hs. mrun. fold tags rps D. unfold removeFilesystemsWith.
  rewrite decide_False by (destruct (idsOf D); [done|cbn; lia]).
  mrun. rewrite events_emitted. fold start. rewrite Hcall. mrun.
  by rewrite emitted_app.
Qed.

End RemoveMore.

(** ** Empty batches *)

Section Empty.
Context {names : Names} (ro : RangeOrder).

Lemma range_empty `{Countable K} {A} : range ro (∅ : gmap K A) = [].
Proof.
  apply Permutation_nil_r. rewrite (range_perm ro). by rewrite map_to_list_empty.
Qed.

(** X22. On an empty batch of operations no source is resolved or called.
    [createFilesystems] and [attachFilesystems] still call
    [scheduleOperations] and [setStatus], with nothing, make no call to
    the controller and return nil; [detachFilesystems] also calls
    [removeAttachments], with no ids, and returns its error, annotated,
    if it has one. *)
Theorem empty_batches ctx :
  let flush := [CallScheduleOperations []; CallSetStatus []] in
  createFilesystems ro ∅ ctx = (Ok tt, emitted flush ctx) /\
  attachFilesystems ro ∅ ctx = (Ok tt, emitted flush ctx) /\
  detachFilesystems ro ∅ ctx =
    (match removeAttachments_result (ctx_collab ctx) (events ctx ++ flush) [] with
     | None => Ok tt
     | Some e => Err (Annotated (errorNew e) "removing attachments from state" [])
     end,
     emitted (flush ++ [CallRemoveAttachments []]) ctx).
Proof.
  cbv zeta. split_and!.
  - unfold createFilesystems. mrun. rewrite range_empty.
    unfold filesystemParamsBySource. cbn [fmap list_fmap rangeSlice]. mrun.
    unfold collectParams. cbn [foldl]. rewrite range_empty.
    unfold createFromSources. cbn [rangeSlice]. mrun.
    unfold scheduleOperations, setStatus, publishFilesystems. mrun.
    cbn [ca_reschedule ca_statuses ca_filesystems createAcc_empty length].
    rewrite decide_True by done. mrun. by rewrite emitted_app.
  - unfold attachFilesystems. mrun. rewrite range_empty.
    unfold filesystemAttachmentParamsBySource. cbn [fmap list_fmap rangeSlice]. mrun.
    rewrite range_empty. cbn [rangeSlice]. mrun.
    unfold scheduleOperations, setStatus, setFilesystemAttachmentInfo. mrun.
    cbn [aa_reschedule aa_statuses aa_filesystemAttachments attachAcc_empty length].
    rewrite decide_True by done. mrun. by rewrite emitted_app.
  - unfold detachFilesystems. mrun. rewrite range_empty.
    unfold filesystemAttachmentParamsBySource. cbn [fmap list_fmap rangeSlice]. mrun.
    rewrite range_empty. unfold detachFromSources. cbn [rangeSlice]. mrun.
    unfold scheduleOperations, setStatus. mrun.
    cbn [da_reschedule da_statuses da_remove detachAcc_empty].
    rewrite removeAttachments_run. rewrite !emitted_app, events_emitted.
    change (ctx_collab (emitted ?e ?c)) with (ctx_collab c).
    destruct (removeAttachments_result _ _ _); [done|].
    cbn [rangeSlice]. by mrun.
Qed.

End Empty.


(** * Passes that return nil, source by source *)

(** ** Loops that have not panicked *)

Lemma rangeSlice_ok_bound {A B C} (ps : list C) (body : nat -> A -> B -> M B) :
  (forall i x b ctx b' ctx', ps !! i = None -> body i x b ctx ≠ (Ok b', ctx')) ->
  forall l i b ctx b' ctx',
  rangeSlice body i l b ctx = (Ok b', ctx') -> l = [] \/ (i + length l ≤ length ps)%nat.
Proof.
  intros Hbody. induction l as [|x l IH]; intros i b ctx b' ctx'; [by left|].
  cbn [rangeSlice]. intros (b1 & ctx1 & Hx & Hl)%run_bind_inv. right.
  destruct (ps !! i) as [p|] eqn:Hp; [|by destruct (Hbody _ _ _ _ _ _ Hp Hx)].
  apply lookup_lt_Some in Hp. apply IH in Hl as [->|Hl]; cbn [length]; lia.
Qed.

Lemma rangeSlice_ok_Forall {A B} (P : A -> Prop) (body : nat -> A -> B -> M B) :
  (forall i x b ctx b' ctx', body i x b ctx = (Ok b', ctx') -> P x) ->
  forall l i b ctx b' ctx',
  rangeSlice body i l b ctx = (Ok b', ctx') -> Forall P l.
Proof.
  intros Hbody. induction l as [|x l IH]; intros i b ctx b' ctx'; [constructor|].
  cbn [rangeSlice]. intros (b1 & ctx1 & Hx & Hl)%run_bind_inv.
  constructor; [by eapply Hbody|by eapply IH].
Qed.

Lemma range_elem `{Countable K} {A} (ro : RangeOrder) (m : gmap K A) k v :
  m !! k = Some v -> (k, v) ∈ range ro m.
Proof. apply range_lookup. Qed.

Lemma range_elem_inv `{Countable K} {A} (ro : RangeOrder) (m : gmap K A) k v :
  (k, v) ∈ range ro m -> m !! k = Some v.
Proof. apply range_lookup. Qed.

Lemma run_index_None {A} (l : list A) i ctx :
  l !! i = None -> index l i ctx = (Panic, ctx).
Proof. intros Hl. unfold index. by rewrite Hl. Qed.

(** ** [createFilesystems], source by source *)

Section CreateRuns.
Context {names : Names}.

(** The body of the loop over the sources up to the bulk call, for a
    source that is not nil and has a valid parameter. *)
Lemma createFromSource_submit ops srcs n ps acc ctx s :
  let b0 := {| cb_name := n; cb_params := ps; cb_source := s;
               cb_before := events ctx; cb_results := [] |} in
  sourceOf srcs n = Some s ->
  cb_valid b0 ≠ [] ->
  createFromSource ops srcs n ps acc ctx =
  match CreateFilesystems s (events ctx ++ cb_start b0 :: cb_validation b0) (cb_valid b0) with
  | BulkError err =>
      (Err (Annotated (errorNew err) "creating filesystems from source %q" [n]),
       emitted (cb_start b0 :: cb_validation b0 ++ [CallCreateFilesystems (cb_valid b0)]) ctx)
  | BulkResults results =>
      interpretCreateResults ops (cb_valid b0) results
        {| ca_reschedule := ca_reschedule acc; ca_filesystems := ca_filesystems acc;
           ca_statuses := ca_statuses acc ++
                          errorStatuses (zip ps (cb_errs b0)) |}
        (emitted (cb_start b0 :: cb_validation b0 ++ [CallCreateFilesystems (cb_valid b0)])
           ctx)
  end.
Proof.
  intros b0 Hs Hne. unfold createFromSource. mrun. rewrite Hs.
  rewrite validateFilesystemParams_spec. mrun. rewrite events_emitted.
  change (validationResults s _ ps) with (cb_errs b0).
  change (passed ps (cb_errs b0)) with (cb_valid b0).
  unfold recordValidationErrors.
  rewrite (recordValidationErrors_loop ps (cb_errs b0) 0)
    by (unfold cb_errs; rewrite validationResults_length; cbn; lia).
  rewrite drop_0. mrun. cbn [ca_reschedule ca_filesystems ca_statuses].
  rewrite decide_False by (destruct (cb_valid b0); [done|cbn; lia]).
  unfold method. mrun. rewrite !events_emitted, !emitted_app.
  unfold cb_validation, cb_start. rewrite <-!app_assoc. cbn [app cb_params].
  by destruct (CreateFilesystems s _ _).
Qed.

Lemma interpretCreateResults_ok ops (vps : list FilesystemParams)
    (results : list CreateFilesystemsResult) acc ctx acc' ctx' :
  interpretCreateResults ops vps results acc ctx = (Ok acc', ctx') ->
  (length results ≤ length vps)%nat /\ Forall resultOk results.
Proof.
  unfold interpretCreateResults. intros H. split.
  - eapply (rangeSlice_ok_bound vps) in H as [->|H]; [cbn; lia|lia|].
    intros i x b c b' c' Hi. by rewrite run_bind, (run_index_None _ _ _ Hi).
  - eapply rangeSlice_ok_Forall in H; [exact H|].
    intros i x b c b' c'. rewrite run_bind. unfold index.
    destruct (vps !! i) as [p|]; mrun; [|done]. intros Hb He. rewrite He in Hb.
    destruct (cfr_Filesystem x); [eauto|]. revert Hb. by mrun.
Qed.

(** The body of the loop over the sources, when it returns nil for a
    source with parameters. *)
Lemma createFromSource_inv ops srcs n ps acc ctx acc' ctx' :
  ps ≠ [] ->
  createFromSource ops srcs n ps acc ctx = (Ok acc', ctx') ->
  exists b,
    cb_name b = n /\ cb_params b = ps /\ cb_before b = events ctx /\
    sourceOf srcs n = Some (cb_source b) /\ cb_answered b /\
    acc' = {| ca_reschedule := ca_reschedule acc ++ cb_reschedule ops b;
              ca_filesystems := ca_filesystems acc ++ cb_filesystems b;
              ca_statuses := ca_statuses acc ++ cb_statuses b |} /\
    ctx' = emitted (cb_trace b) ctx.
Proof.
  intros Hps Hrun. destruct (sourceOf srcs n) as [s|] eqn:Hs.
  2: { exfalso. revert Hrun. unfold createFromSource. mrun. rewrite Hs.
       destruct ps as [|p ps]; [done|]. unfold validateFilesystemParams.
       cbn [rangeSlice]. unfold method. by mrun. }
  assert (Hdone : forall results,
    cb_answered {| cb_name := n; cb_params := ps; cb_source := s;
                   cb_before := events ctx; cb_results := results |} ->
    exists b,
      cb_name b = n /\ cb_params b = ps /\ cb_before b = events ctx /\
      Some s = Some (cb_source b) /\ cb_answered b /\
      acc' = {| ca_reschedule := ca_reschedule acc ++ cb_reschedule ops b;
                ca_filesystems := ca_filesystems acc ++ cb_filesystems b;
                ca_statuses := ca_statuses acc ++ cb_statuses b |} /\
      ctx' = emitted (cb_trace b) ctx).
  { intros results Hb.
    exists {| cb_name := n; cb_params := ps; cb_source := s;
              cb_before := events ctx; cb_results := results |}.
    pose proof Hb as (Hcall & Hlen & Hok).
    rewrite (createFromSource_spec ops srcs n ps acc ctx s results Hs Hcall Hlen Hok)
      in Hrun.
    injection Hrun as <- <-.
    split_and!; [reflexivity..|exact Hb| |].
    - unfold cb_reschedule, cb_filesystems, cb_statuses. cbn.
      by rewrite <-?app_assoc.
    - unfold cb_trace, cb_validation, cb_submit, cb_start. cbn.
      by rewrite <-?app_assoc. }
  set (b0 := {| cb_name := n; cb_params := ps; cb_source := s;
                cb_before := events ctx; cb_results := [] |}).
  destruct (decide (cb_valid b0 = [])) as [He|Hne].
  - apply (Hdone []). split_and!; [|cbn; lia|constructor].
    by rewrite decide_True by exact He.
  - pose proof Hrun as Hrun'.
    rewrite (createFromSource_submit ops srcs n ps acc ctx s Hs Hne) in Hrun'.
    destruct (CreateFilesystems s _ _) as [results|err] eqn:Hcall; [|done].
    apply interpretCreateResults_ok in Hrun' as [Hlen Hok].
    apply (Hdone results). split_and!; [|exact Hlen|exact Hok].
    by rewrite decide_False by exact Hne.
Qed.

(** The loop over the sources, when it returns nil: one batch per
    source, each starting where the one before has stopped. *)
Lemma createFromSources_runs ops srcs :
  forall (l : list (string * list FilesystemParams)) acc ctx acc' ctx',
  (forall n ps, (n, ps) ∈ l -> ps ≠ []) ->
  createFromSources ops srcs l acc ctx = (Ok acc', ctx') ->
  exists bs,
    (fun b => (cb_name b, cb_params b)) <$> bs = l /\
    createBatches srcs (events ctx) bs /\
    acc' = {| ca_reschedule := ca_reschedule acc ++ (bs ≫= cb_reschedule ops);
              ca_filesystems := ca_filesystems acc ++ (bs ≫= cb_filesystems);
              ca_statuses := ca_statuses acc ++ (bs ≫= cb_statuses) |} /\
    ctx' = emitted (bs ≫= cb_trace) ctx.
Proof.
  unfold createFromSources.
  induction l as [|[n ps] l IH]; intros acc ctx acc' ctx' Hne.
  - intros [= <- <-]. exists []. cbn. rewrite emitted_nil, !app_nil_r.
    split_and!; try done. by destruct acc.
  - cbn [rangeSlice]. intros (acc1 & ctx1 & Hb & Hl)%run_bind_inv.
    apply createFromSource_inv in Hb
      as (b & <- & <- & Hh & Hs & Ha & -> & ->); [|apply (Hne n); set_solver].
    rewrite (rangeSlice_shift _ _ _ 0) in Hl.
    apply IH in Hl as (bs & Hbs & Hch & -> & ->);
      [|intros n' ps' Hin; apply (Hne n' ps'); set_solver].
    exists (b :: bs). cbn [fmap list_fmap createBatches mbind list_bind].
    rewrite Hbs. split_and!; try done.
    + cbn. by rewrite <-!app_assoc.
    + by rewrite emitted_app.
Qed.

End CreateRuns.


Section CreatePass.
Context {names : Names} (ro : RangeOrder).

Lemma publishLogs_any (fs : list Filesystem) :
  forall (errorResults : list ErrorResult) i ctx r ctx',
  rangeSlice (fun i result (_ : unit) =>
      match er_Error result with
      | Some e =>
          f ← index fs i;
          logf LError "publishing filesystem %s to state: %v"
            [LStr (Tag_Id (TagFilesystem (fs_Tag f))); LStr e]
      | None => mret tt
      end) i errorResults tt ctx = (r, ctx') ->
  exists logs, Forall isPublishLog logs /\ ctx' = emitted logs ctx.
Proof.
  induction errorResults as [|x l IH]; intros i ctx r ctx'.
  - intros [= <- <-]. exists []. by rewrite emitted_nil.
  - cbn [rangeSlice]. rewrite run_bind. destruct (er_Error x) as [e|].
    + rewrite run_bind. unfold index. destruct (fs !! i) as [f|]; mrun.
      * intros (logs & Hlogs & ->)%IH. eexists (_ :: logs). rewrite emitted_app.
        split; [|done]. constructor; [by eexists|done].
      * intros [= <- <-]. exists []. by rewrite emitted_nil.
    + mrun. apply IH.
Qed.

(** [publishFilesystems], when it returns nil. *)
Lemma publishFilesystems_ok fs ctx ctx' :
  publishFilesystems fs ctx = (Ok tt, ctx') ->
  exists logs,
    Forall isPublishLog logs /\
    ctx' = set_filesystems (mergeFilesystems fs (ctx_filesystems ctx))
             (emitted (if decide (fs = []) then []
                       else CallSetFilesystemInfo (filesystemsFromStorage fs) :: logs) ctx).
Proof.
  unfold publishFilesystems. destruct (decide (fs = [])) as [->|Hne].
  - cbn. intros [= <-]. exists []. split; [done|].
    by rewrite emitted_nil, set_filesystems_id.
  - rewrite decide_False by (destruct fs; [done|cbn; lia]).
    mrun. destruct (SetFilesystemInfo _ _ _) as [errorResults|err]; mrun; [|done].
    intros (u & ctx1 & Hlogs & Hupd)%run_bind_inv.
    apply publishLogs_any in Hlogs as (logs & Hlogs & ->).
    rewrite updateFilesystem_loop in Hupd. injection Hupd as <-.
    exists logs. split; [done|]. by rewrite emitted_app.
Qed.

(** The partitions of the creation resolver, when it returns nil. *)
Lemma creation_partitions dir params managed ctx pbs srcs ctx' :
  filesystemParamsBySource dir params managed ctx = (Ok (pbs, srcs), ctx') ->
  (exists evs, ctx' = emitted evs ctx /\
     Forall (fun e => exists n, e = CallFilesystemSource dir n n) evs) /\
  (forall n l, pbs !! n = Some l ->
     l ≠ [] /\ l = filter (fun p => fp_Provider p = n) params /\
     exists s, srcs !! n = Some (Some s)) /\
  (forall p s, p ∈ params -> sourceOf srcs (fp_Provider p) = Some s ->
     exists l, pbs !! fp_Provider p = Some l /\ p ∈ l).
Proof.
  intros Hrun. unfold filesystemParamsBySource in Hrun. rewrite run_bind in Hrun.
  destruct (rangeSlice _ 0 params ∅ ctx) as [[srcs1|e|] ctx1] eqn:Hloop; [|done..].
  injection Hrun as <- <- <-.
  apply creationResolver_loop in Hloop as (evs & -> & _ & _ & Hevs & _).
  assert (Hpart : forall n l, foldl (collectParams srcs1) ∅ params !! n = Some l ->
            l ≠ [] /\ l = filter (fun p => fp_Provider p = n) params /\
            is_Some (sourceOf srcs1 n)).
  { intros n l Hn. destruct (collectParams_foldl srcs1 params ∅ n) as [Hl Hne].
    cbn zeta in Hl, Hne. rewrite Hn, lookup_empty in Hl. cbn in Hl.
    assert (l ≠ []) by (intros ->; apply Hne; [by rewrite lookup_empty|done]).
    case_decide; [done|congruence]. }
  split_and!.
  - exists evs. split; [done|]. apply Forall_forall. intros e He.
    apply list_elem_of_split in He as (evs1 & evs2 & ->).
    destruct (Hevs evs1 e evs2 eq_refl) as (n & v & -> & _). eauto.
  - intros n l Hn. destruct (Hpart n l Hn) as (? & ? & [s Hs]). split_and!; [done..|].
    exists s. unfold sourceOf in Hs. destruct (srcs1 !! n) as [[s'|]|]; naive_solver.
  - intros p s Hp Hs. destruct (collectParams_foldl srcs1 params ∅ (fp_Provider p)) as [Hl _].
    cbn zeta in Hl. rewrite lookup_empty, decide_True in Hl by eauto. cbn in Hl.
    assert (Hin : p ∈ default [] (foldl (collectParams srcs1) ∅ params !! fp_Provider p))
      by (rewrite Hl; by apply list_elem_of_filter).
    destruct (foldl (collectParams srcs1) ∅ params !! fp_Provider p) as [l|]; [eauto|].
    by apply elem_of_nil in Hin.
Qed.

(** A create pass that returns nil, from the first call to the last. *)
Lemma createFilesystems_runs ops ctx ctx' :
  createFilesystems ro ops ctx = (Ok tt, ctx') ->
  exists pbs srcs resolution bs logs,
    filesystemParamsBySource (StorageDir (ctx_config ctx))
      ((fun kv => cfo_args kv.2) <$> range ro ops) (managedFilesystemSource ctx) ctx
      = (Ok (pbs, srcs), emitted resolution ctx) /\
    Forall (fun e => exists n, e = CallFilesystemSource (StorageDir (ctx_config ctx)) n n)
      resolution /\
    (fun b => (cb_name b, cb_params b)) <$> bs = range ro pbs /\
    createBatches srcs (events ctx ++ resolution) bs /\
    Forall isPublishLog logs /\
    ctx' = set_filesystems
             (mergeFilesystems (bs ≫= cb_filesystems) (ctx_filesystems ctx))
             (emitted (resolution ++ (bs ≫= cb_trace) ++
                       [CallScheduleOperations (bs ≫= cb_reschedule ops);
                        CallSetStatus (bs ≫= cb_statuses)] ++
                       (if decide (bs ≫= cb_filesystems = []) then []
                        else CallSetFilesystemInfo
                               (filesystemsFromStorage (bs ≫= cb_filesystems)) :: logs))
                ctx).
Proof.
  unfold createFilesystems. rewrite run_bind, run_get. cbv beta iota.
  intros ([pbs srcs] & ctx1 & Hres & Hrun)%run_bind_inv.
  pose proof (creation_partitions _ _ _ _ _ _ _ Hres) as ((resolution & -> & Hq) & Hparts & _).
  apply run_bind_inv in Hrun as (acc & ctx2 & Hloop & Hrun).
  apply createFromSources_runs in Hloop as (bs & Hbs & Hch & -> & ->).
  2: { intros n ps Hin%range_elem_inv. by destruct (Hparts n ps Hin). }
  unfold scheduleOperations, setStatus in Hrun.
  do 2 (rewrite run_bind, run_emit in Hrun; cbv beta iota in Hrun).
  cbn [ca_reschedule ca_statuses ca_filesystems createAcc_empty app] in Hrun.
  apply publishFilesystems_ok in Hrun as (logs & Hlogs & ->).
  exists pbs, srcs, resolution, bs, logs. split_and!; try done.
  rewrite !emitted_app. change (ctx_filesystems (emitted ?e ?c)) with (ctx_filesystems c).
  by rewrite <-!app_assoc.
Qed.

End CreatePass.


Section CreateClaims.
Context {names : Names} (ro : RangeOrder).

Lemma createBatches_elem srcs : forall bs h b,
  createBatches srcs h bs -> b ∈ bs ->
  sourceOf srcs (cb_name b) = Some (cb_source b) /\ cb_answered b.
Proof.
  induction bs as [|b0 bs IH]; intros h b; [by intros _ ?%elem_of_nil|].
  cbn [createBatches]. intros (_ & Hs & Ha & Hch) [->|Hin]%elem_of_cons; [done|].
  by eapply IH.
Qed.

(** The only bulk call in the calls made for a source is the one with
    its valid parameters. *)
Lemma cb_trace_submits b qs :
  CallCreateFilesystems qs ∈ cb_trace b -> qs = cb_valid b.
Proof.
  unfold cb_trace, cb_validation, cb_submit, cb_start, validationLogs, createLogs.
  rewrite elem_of_cons, !elem_of_app.
  intros [?|[[Hin|Hin]|[Hin|Hin]]]; [done| | | |].
  - by apply list_elem_of_fmap in Hin as (? & ? & _).
  - apply list_elem_of_omap in Hin as ([? [?|]] & _ & ?); naive_solver.
  - case_decide; [by apply elem_of_nil in Hin|].
    apply list_elem_of_singleton in Hin. by injection Hin.
  - apply list_elem_of_omap in Hin as ([? r] & _ & Hr). cbn in Hr.
    destruct (cfr_Error r); naive_solver.
Qed.

(** Two elements of a list with the same image under a function whose
    images are distinct. *)
Lemma NoDup_fmap_elem {A B} (f : A -> B) (l : list A) x y :
  NoDup (f <$> l) -> x ∈ l -> y ∈ l -> f x = f y -> x = y.
Proof.
  intros Hnd [i Hi]%list_elem_of_lookup [j Hj]%list_elem_of_lookup Hxy.
  assert (i = j) as ->; [|congruence].
  eapply (NoDup_lookup _ _ _ _ Hnd); rewrite list_lookup_fmap; [by rewrite Hi|].
  by rewrite Hj, Hxy.
Qed.

Lemma range_keys_NoDup `{Countable K} {A} (m : gmap K A) : NoDup (range ro m).*1.
Proof. rewrite (range_perm ro). apply NoDup_fst_map_to_list. Qed.

(** Operations stored under their key have distinct parameters. *)
Lemma keyed_params_NoDup (ops : gmap FilesystemTag createFilesystemOp) :
  (forall t o, ops !! t = Some o -> fp_Tag (cfo_args o) = t) ->
  NoDup (fp_Tag <$> ((fun kv => cfo_args kv.2) <$> range ro ops)).
Proof.
  intros Hkey. rewrite <-list_fmap_compose.
  rewrite (list_fmap_ext _ fst (range ro ops)); [apply range_keys_NoDup|].
  intros i [k o] Hi. cbn. apply Hkey, (range_elem_inv ro).
  by eapply list_elem_of_lookup_2.
Qed.

(** A parameter its source has rejected is in no bulk call of the
    pass. *)
Lemma rejected_not_valid (params : list FilesystemParams)
    (pbs : gmap string (list FilesystemParams)) (bs : list createBatch) b b' i p e :
  NoDup params ->
  (fun b => (cb_name b, cb_params b)) <$> bs = range ro pbs ->
  (forall n l, pbs !! n = Some l -> l = filter (fun p => fp_Provider p = n) params) ->
  b ∈ bs -> b' ∈ bs ->
  cb_params b !! i = Some p -> cb_errs b !! i = Some (Some e) ->
  p ∉ cb_valid b'.
Proof.
  intros Hnd Hbs Hparts Hb Hb' Hp He (j & Hj & Hnone)%passed_lookup.
  assert (Hin : forall x, x ∈ bs ->
            cb_params x = filter (fun p => fp_Provider p = cb_name x) params).
  { intros x Hx. apply Hparts, (range_elem_inv ro). rewrite <-Hbs.
    apply list_elem_of_fmap. by exists x. }
  assert (Hname : forall x k, x ∈ bs -> cb_params x !! k = Some p ->
            cb_name x = fp_Provider p).
  { intros x k Hx Hk. apply list_elem_of_lookup_2 in Hk. rewrite (Hin x Hx) in Hk.
    by apply list_elem_of_filter in Hk as [-> _]. }
  assert (b = b') as <-.
  { apply (NoDup_fmap_elem cb_name bs); [|done|done|].
    - replace (cb_name <$> bs) with ((range ro pbs).*1); [apply range_keys_NoDup|].
      rewrite <-Hbs, <-list_fmap_compose. done.
    - by rewrite (Hname b i Hb Hp), (Hname b' j Hb' Hj). }
  assert (i = j) as ->; [|congruence].
  eapply NoDup_lookup; [|exact Hp|exact Hj].
  rewrite (Hin b Hb). by apply NoDup_filter.
Qed.

(** C4, amended. In a pass of [createFilesystems] that returns nil, the
    pass is one batch per partition of the resolver, and every operation
    whose provider is bound to a source has its parameters in the batch
    of that source. For every parameter of a batch that the batch's
    source rejects when [ValidateFilesystemParams] is called on it, the
    statuses given to the pass's one [setStatus] call hold the status
    [error] with the validation error's text; and when the operations
    are stored under the tags of their parameters, no [CreateFilesystems]
    call of the pass holds the parameter, and the operations given to
    the pass's one [scheduleOperations] call do not hold the parameter's
    operation. *)
Theorem rejected_params_get_error_status ops ctx ctx' :
  createFilesystems ro ops ctx = (Ok tt, ctx') ->
  exists pbs srcs resolution bs post,
    let statuses := bs ≫= cb_statuses in
    let reschedule := bs ≫= cb_reschedule ops in
    let evs := resolution ++ (bs ≫= cb_trace) ++
               [CallScheduleOperations reschedule; CallSetStatus statuses] ++ post in
    filesystemParamsBySource (StorageDir (ctx_config ctx))
      ((fun kv => cfo_args kv.2) <$> range ro ops) (managedFilesystemSource ctx) ctx
      = (Ok (pbs, srcs), emitted resolution ctx) /\
    (fun b => (cb_name b, cb_params b)) <$> bs = range ro pbs /\
    createBatches srcs (events ctx ++ resolution) bs /\
    events ctx' = events ctx ++ evs /\
    Forall beforeFlush (resolution ++ (bs ≫= cb_trace)) /\ Forall afterFlush post /\
    (forall k op s, ops !! k = Some op ->
       sourceOf srcs (fp_Provider (cfo_args op)) = Some s ->
       exists b, b ∈ bs /\ cb_name b = fp_Provider (cfo_args op) /\ cb_source b = s /\
                 cfo_args op ∈ cb_params b) /\
    (forall b i p e, b ∈ bs -> cb_params b !! i = Some p ->
       cb_errs b !! i = Some (Some e) ->
       {| esa_Tag := Tag_String (TagFilesystem (fp_Tag p)); esa_Status := "error";
          esa_Info := e |} ∈ statuses /\
       ((forall t o, ops !! t = Some o -> fp_Tag (cfo_args o) = t) ->
        (forall qs, CallCreateFilesystems qs ∈ evs -> p ∉ qs) /\
        (forall o, ops !! fp_Tag p = Some o -> OpCreate (Some o) ∉ reschedule))).
Proof.
  intros Hrun.
  destruct (createFilesystems_runs ro ops ctx ctx' Hrun)
    as (pbs & srcs & resolution & bs & logs & Hres & Hq & Hbs & Hch & Hlogs & ->).
  pose proof (creation_partitions _ _ _ _ _ _ _ Hres) as (_ & Hparts & Hall).
  set (params := (fun kv => cfo_args kv.2) <$> range ro ops) in *.
  assert (Hfilter : forall n l, pbs !! n = Some l ->
            l = filter (fun p => fp_Provider p = n) params).
  { intros n l Hn. by destruct (Hparts n l Hn) as (_ & ? & _). }
  assert (Hsub : forall b p, b ∈ bs -> p ∈ cb_params b -> p ∈ params).
  { intros b p Hb Hp. rewrite (Hfilter (cb_name b) (cb_params b)) in Hp.
    - by apply list_elem_of_filter in Hp as [_ ?].
    - apply (range_elem_inv ro). rewrite <-Hbs. apply list_elem_of_fmap. by exists b. }
  assert (Hvalid : forall b q, q ∈ cb_valid b -> q ∈ cb_params b).
  { intros b q (j & Hj & _)%passed_lookup. by eapply list_elem_of_lookup_2. }
  eexists pbs, srcs, resolution, bs, _. cbv zeta.
  split_and!; [exact Hres|exact Hbs|exact Hch| | | | |].
  - change (events (set_filesystems ?m ?c)) with (events c). rewrite events_emitted.
    reflexivity.
  - apply Forall_app. split.
    + eapply Forall_impl; [exact Hq|]. by intros e [n ->].
    + apply Forall_forall. intros e (b & He & Hb)%list_elem_of_bind.
      revert He. unfold cb_trace, cb_validation, cb_submit, cb_start, validationLogs,
        createLogs. rewrite elem_of_cons, !elem_of_app.
      intros [->|[[Hin|Hin]|[Hin|Hin]]]; [done| | | |].
      * by apply list_elem_of_fmap in Hin as (? & -> & _).
      * apply list_elem_of_omap in Hin as ([? [?|]] & _ & ?); naive_solver.
      * case_decide; [by apply elem_of_nil in Hin|].
        by apply list_elem_of_singleton in Hin as ->.
      * apply list_elem_of_omap in Hin as ([? r] & _ & Hr). cbn in Hr.
        destruct (cfr_Error r); naive_solver.
  - case_decide; [constructor|]. constructor; [done|].
    eapply Forall_impl; [exact Hlogs|]. by intros e [args ->].
  - intros k op s Hop Hs.
    assert (Hp : cfo_args op ∈ params).
    { apply list_elem_of_fmap. exists (k, op). split; [done|]. by apply range_elem. }
    destruct (Hall _ _ Hp Hs) as (l & Hl & Hin).
    apply (range_elem ro) in Hl. rewrite <-Hbs in Hl.
    apply list_elem_of_fmap in Hl as (b & [= Hn Hps] & Hb).
    exists b. split_and!; [done|done| |by rewrite <-Hps].
    destruct (createBatches_elem _ _ _ _ Hch Hb) as [Hsb _].
    rewrite <-Hn, Hs in Hsb. by injection Hsb.
  - intros b i p e Hb Hp He. split; [|intros Hkey; split].
    + apply list_elem_of_bind. exists b. split; [|done].
      unfold cb_statuses. apply elem_of_app. left. apply list_elem_of_omap.
      exists (p, Some e). split; [|done].
      eapply list_elem_of_lookup_2. by apply zip_lookup.
    + pose proof (keyed_params_NoDup ops Hkey) as Htags.
      pose proof (NoDup_fmap_1 _ _ Htags) as Hnd.
      intros qs Hqs Hin.
      assert (Hbq : exists b', b' ∈ bs /\ qs = cb_valid b').
      { rewrite !elem_of_app in Hqs. destruct Hqs as [Hqs|[Hqs|[Hqs|Hqs]]].
        - rewrite Forall_forall in Hq. by destruct (Hq _ Hqs) as [? ?].
        - apply list_elem_of_bind in Hqs as (b' & Hqs & Hb').
          exists b'. split; [done|]. by apply cb_trace_submits.
        - set_solver.
        - case_decide; [by apply elem_of_nil in Hqs|].
          apply elem_of_cons in Hqs as [?|Hqs]; [done|].
          rewrite Forall_forall in Hlogs. by destruct (Hlogs _ Hqs) as [? ?]. }
      destruct Hbq as (b' & Hb' & ->).
      by eapply (rejected_not_valid params pbs bs b b').
    + pose proof (keyed_params_NoDup ops Hkey) as Htags.
      pose proof (NoDup_fmap_1 _ _ Htags) as Hnd.
      intros o Ho (b' & Hin & Hb')%list_elem_of_bind.
      apply list_elem_of_omap in Hin as ([q r] & Hqr & Hr). cbn in Hr.
      destruct (cfr_Error r); [|done]. injection Hr as Hr.
      apply list_elem_of_lookup in Hqr as [j Hj].
      apply lookup_zip_with_Some in Hj as (? & ? & [= <- <-] & Hq' & _).
      apply list_elem_of_lookup_2 in Hq'.
      assert (q = p) as ->.
      { apply (NoDup_fmap_elem fp_Tag params); [done| | |].
        - apply (Hsub b'); [done|]. by apply Hvalid.
        - apply (Hsub b); [done|]. by eapply list_elem_of_lookup_2.
        - by rewrite <-(Hkey _ _ Hr), (Hkey _ _ Ho). }
      by eapply (rejected_not_valid params pbs bs b b').
Qed.

End CreateClaims.


Section CreateClaims2.
Context {names : Names} (ro : RangeOrder).

Lemma mergeFilesystems_lookup_other (fs : list Filesystem) :
  forall m t, t ∉ fs_Tag <$> fs -> mergeFilesystems fs m !! t = m !! t.
Proof.
  unfold mergeFilesystems. induction fs as [|f fs IH]; intros m t Ht; [done|].
  cbn [foldl]. rewrite fmap_cons, not_elem_of_cons in Ht. destruct Ht as [Hne Ht].
  rewrite IH by done. by rewrite lookup_insert_ne.
Qed.

(** C5, amended. In a pass of [createFilesystems] that returns nil, the
    pass is one batch per partition of the resolver, every operation
    whose provider is bound to a source has its parameters in the batch
    of that source, and the results of each batch's bulk call are read
    by position. A result without error gives its parameter the status
    [attaching] in the pass's one [setStatus] call; its filesystem is
    sent to the controller in the pass's one [SetFilesystemInfo] call,
    as a record of its tag, volume tag, id and size, and is in the cache
    afterwards under its tag (the filesystem itself when the created
    filesystems have distinct tags). A result with an error gives the
    status [pending] with the error's text, and the entry of [ops] under
    the parameter's tag is given to the pass's one [scheduleOperations]
    call. Nothing else is sent or cached: the [SetFilesystemInfo] call
    holds the records of the filesystems of the results without error,
    every one of which comes from such a result, and the cache is as
    before under every other tag. *)
Theorem create_results_interpreted ops ctx ctx' :
  createFilesystems ro ops ctx = (Ok tt, ctx') ->
  exists pbs srcs resolution bs logs,
    let statuses := bs ≫= cb_statuses in
    let reschedule := bs ≫= cb_reschedule ops in
    let created := bs ≫= cb_filesystems in
    let record (f : Filesystem) :=
      {| pf_FilesystemTag := Tag_String (TagFilesystem (fs_Tag f));
         pf_VolumeTag :=
           if decide (fs_Volume f = {| vt_id := EmptyString |}) then EmptyString
           else Tag_String (TagVolume (fs_Volume f));
         pf_FilesystemId := fs_FilesystemId f;
         pf_Pool := EmptyString;
         pf_Size := fs_Size f |} in
    let publish :=
      if decide (created = []) then []
      else CallSetFilesystemInfo (record <$> created) :: logs in
    let evs := resolution ++ (bs ≫= cb_trace) ++
               [CallScheduleOperations reschedule; CallSetStatus statuses] ++ publish in
    filesystemParamsBySource (StorageDir (ctx_config ctx))
      ((fun kv => cfo_args kv.2) <$> range ro ops) (managedFilesystemSource ctx) ctx
      = (Ok (pbs, srcs), emitted resolution ctx) /\
    (fun b => (cb_name b, cb_params b)) <$> bs = range ro pbs /\
    createBatches srcs (events ctx ++ resolution) bs /\
    events ctx' = events ctx ++ evs /\
    Forall isPublishLog logs /\
    (forall k op s, ops !! k = Some op ->
       sourceOf srcs (fp_Provider (cfo_args op)) = Some s ->
       exists b, b ∈ bs /\ cb_name b = fp_Provider (cfo_args op) /\ cb_source b = s /\
                 cfo_args op ∈ cb_params b) /\
    (forall sent, CallSetFilesystemInfo sent ∈ evs -> sent = record <$> created) /\
    ctx_filesystems ctx' = mergeFilesystems created (ctx_filesystems ctx) /\
    (forall t, t ∉ fs_Tag <$> created ->
       ctx_filesystems ctx' !! t = ctx_filesystems ctx !! t) /\
    (forall f, f ∈ created ->
       exists b i q r, b ∈ bs /\ cb_valid b !! i = Some q /\ cb_results b !! i = Some r /\
                       cfr_Error r = None /\ cfr_Filesystem r = Some f) /\
    (forall b i q r, b ∈ bs -> cb_valid b !! i = Some q -> cb_results b !! i = Some r ->
       let tag := Tag_String (TagFilesystem (fp_Tag q)) in
       (cfr_Error r = None ->
          {| esa_Tag := tag; esa_Status := "attaching"; esa_Info := EmptyString |}
            ∈ statuses /\
          exists f sent, cfr_Filesystem r = Some f /\
            CallSetFilesystemInfo sent ∈ evs /\ record f ∈ sent /\
            is_Some (ctx_filesystems ctx' !! fs_Tag f) /\
            (NoDup (fs_Tag <$> created) -> ctx_filesystems ctx' !! fs_Tag f = Some f)) /\
       (forall e, cfr_Error r = Some e ->
          {| esa_Tag := tag; esa_Status := "pending"; esa_Info := e |} ∈ statuses /\
          OpCreate (ops !! fp_Tag q) ∈ reschedule)).
Proof.
  intros Hrun.
  destruct (createFilesystems_runs ro ops ctx ctx' Hrun)
    as (pbs & srcs & resolution & bs & logs & Hres & Hq & Hbs & Hch & Hlogs & ->).
  exists pbs, srcs, resolution, bs, logs. cbv zeta.
  change (ctx_filesystems (set_filesystems ?m ?c)) with m.
  change (events (set_filesystems ?m ?c)) with (events c). rewrite events_emitted.
  assert (Hrec : forall l : list Filesystem,
    filesystemsFromStorage l =
    (fun f => {| pf_FilesystemTag := Tag_String (TagFilesystem (fs_Tag f));
                 pf_VolumeTag :=
                   if decide (fs_Volume f = {| vt_id := EmptyString |}) then EmptyString
                   else Tag_String (TagVolume (fs_Volume f));
                 pf_FilesystemId := fs_FilesystemId f;
                 pf_Pool := EmptyString;
                 pf_Size := fs_Size f |}) <$> l).
  { intros l. unfold filesystemsFromStorage. apply list_fmap_ext. intros _ f _.
    unfold VolumeTag_zero. by repeat case_decide. }
  rewrite Hrec.
  pose proof (creation_partitions _ _ _ _ _ _ _ Hres) as (_ & _ & Hall).
  assert (Hsent : forall sent,
    sent ∈ resolution ++ (bs ≫= cb_trace) ++
      [CallScheduleOperations (bs ≫= cb_reschedule ops);
       CallSetStatus (bs ≫= cb_statuses)] ++
      (if decide (bs ≫= cb_filesystems = []) then []
       else CallSetFilesystemInfo (filesystemsFromStorage (bs ≫= cb_filesystems)) :: logs) ->
    (forall l, sent ≠ CallSetFilesystemInfo l) \/
    bs ≫= cb_filesystems ≠ [] /\
    sent = CallSetFilesystemInfo (filesystemsFromStorage (bs ≫= cb_filesystems))).
  { intros e. rewrite !elem_of_app. intros [He|[He|[He|He]]].
    - left. rewrite Forall_forall in Hq. by destruct (Hq _ He) as [n ->].
    - left. apply list_elem_of_bind in He as (b & He & _). revert He.
      unfold cb_trace, cb_validation, cb_submit, cb_start, validationLogs, createLogs.
      rewrite elem_of_cons, !elem_of_app.
      intros [->|[[Hin|Hin]|[Hin|Hin]]]; [done| | | |].
      + by apply list_elem_of_fmap in Hin as (? & -> & _).
      + apply list_elem_of_omap in Hin as ([? [?|]] & _ & ?); naive_solver.
      + case_decide; [by apply elem_of_nil in Hin|].
        by apply list_elem_of_singleton in Hin as ->.
      + apply list_elem_of_omap in Hin as ([? r] & _ & Hr). cbn in Hr.
        destruct (cfr_Error r); naive_solver.
    - left. rewrite !elem_of_cons in He.
      destruct He as [->|[->|He]]; [done..|by apply elem_of_nil in He].
    - case_decide; [by apply elem_of_nil in He|].
      apply elem_of_cons in He as [->|He]; [by right|left].
      rewrite Forall_forall in Hlogs. by destruct (Hlogs _ He) as [? ->]. }
  rewrite Hrec in Hsent.
  split_and!; [exact Hres|exact Hbs|exact Hch|reflexivity|exact Hlogs| | |reflexivity| | |].
  - intros k op s Hop Hs.
    assert (Hp : cfo_args op ∈ (fun kv => cfo_args kv.2) <$> range ro ops).
    { apply list_elem_of_fmap. exists (k, op). split; [done|]. by apply range_elem. }
    destruct (Hall _ _ Hp Hs) as (l & Hl & Hin).
    apply (range_elem ro) in Hl. rewrite <-Hbs in Hl.
    apply list_elem_of_fmap in Hl as (b & [= Hn Hps] & Hb).
    exists b. split_and!; [done|done| |by rewrite <-Hps].
    destruct (createBatches_elem _ _ _ _ Hch Hb) as [Hsb _].
    rewrite <-Hn, Hs in Hsb. by injection Hsb.
  - intros sent [Hno|[_ [= ->]]]%Hsent; [by destruct (Hno sent)|done].
  - intros t Ht. by apply mergeFilesystems_lookup_other.
  - intros f (b & Hf & Hb)%list_elem_of_bind.
    apply createdFilesystems_elem in Hf as (i & q & r & Hi & ? & ?).
    apply lookup_zip_with_Some in Hi as (? & ? & [= <- <-] & ? & ?). eauto 10.
  - intros b i q r Hb Hq' Hr. pose proof (zip_lookup _ _ _ _ _ Hq' Hr) as Hz.
    destruct (createBatches_elem _ _ _ _ Hch Hb) as (_ & _ & _ & Hok).
    assert (Hst : forall st, createStatus q r = st -> st ∈ bs ≫= cb_statuses).
    { intros st <-. apply list_elem_of_bind. exists b. split; [|done].
      unfold cb_statuses. apply elem_of_app. right. unfold createStatuses.
      apply list_elem_of_fmap. exists (q, r). split; [done|].
      by eapply list_elem_of_lookup_2. }
    split.
    + intros He. split; [apply Hst; unfold createStatus; by rewrite He|].
      rewrite Forall_forall in Hok.
      destruct (Hok r) as [f Hf]; [by eapply list_elem_of_lookup_2|done|].
      assert (Hin : f ∈ bs ≫= cb_filesystems).
      { apply list_elem_of_bind. exists b. split; [|done].
        apply createdFilesystems_elem. eauto 6. }
      exists f. eexists. split_and!; [done| | | |].
      * rewrite decide_False by (intros He'; rewrite He' in Hin; by apply elem_of_nil in Hin).
        rewrite !elem_of_app. do 3 right. left.
      * apply list_elem_of_fmap. by exists f.
      * by apply mergeFilesystems_lookup.
      * intros Hnd. by apply mergeFilesystems_lookup_NoDup.
    + intros e He. split; [apply Hst; unfold createStatus; by rewrite He|].
      apply list_elem_of_bind. exists b. split; [|done].
      apply list_elem_of_omap. exists (q, r).
      split; [by eapply list_elem_of_lookup_2|]. cbn. by rewrite He.
Qed.

End CreateClaims2.


(** ** Accumulate over the sources, then flush *)

Section Grows.
Context {Acc Y : Type} (proj : Acc -> list Y).







End Grows.


Section Trail.
Context {X Acc : Type} (body : string * X -> Acc -> M Acc)
  (reschedule : Acc -> list scheduleOp) (statuses : Acc -> list EntityStatusArgs).


End Trail.

Section Accumulate.
Context {names : Names} (ro : RangeOrder).







End Accumulate.


Section AccumulatePass.
Context {names : Names} (ro : RangeOrder).



Lemma creationResolver_emits dir params managed :
  emits beforeFlush (filesystemParamsBySource dir params managed).
Proof. emits_auto ltac:(reflexivity). Qed.



End AccumulatePass.

(** ** [removeFilesystems], source by source *)

Section RemoveRuns.
Context {names : Names}.




End RemoveRuns.

Section RemovePass.
Context {names : Names} (ro : RangeOrder).


End RemovePass.

Section RemoveClaims.
Context {names : Names} (ro : RangeOrder).









End RemoveClaims.

(** ** [detachFilesystems] without a source *)

Section DetachNoSource.
Context {names : Names} (ro : RangeOrder).



End DetachNoSource.

(** ** [filepath.Join] on examples *)

Example Join_storage_fs0 : filepath.Join ["/storage"; "fs-0"] = "/storage/fs-0".
Proof. reflexivity. Qed.

Example Join_cleans : filepath.Join ["/storage//x/"; "../a/./b"] = "/storage/a/b".
Proof. reflexivity. Qed.

Example Join_relative : filepath.Join [EmptyString; "a/../../b"] = "../b".
Proof. reflexivity. Qed.

(** * The executors on concrete batches *)

Lemma attach_synthesizes_path_witness :
  let ctx := testContext goodAccessor false ∅ in
  let ops : gmap MachineStorageId attachFilesystemOp :=
    {[ attachKey "fs-0" := attachOp "fs-0" "loop" EmptyString ]} in
  let run := attachFilesystems (names := plainNames) range_canonical ops ctx in
  run = (Ok tt, run.2) /\
  ops !! attachKey "fs-0" = Some (attachOp "fs-0" "loop" EmptyString) /\
  exists ps, CallAttachFilesystems ps ∈ events run.2 /\
    attachParams "fs-0" "loop" "/storage/fs-0" ∈ ps.
Proof.
  cbv zeta.
  assert (Hrun : attachFilesystems (names := plainNames) range_canonical
            {[ attachKey "fs-0" := attachOp "fs-0" "loop" EmptyString ]}
            (testContext goodAccessor false ∅) =
          (Ok tt, (attachFilesystems (names := plainNames) range_canonical
            {[ attachKey "fs-0" := attachOp "fs-0" "loop" EmptyString ]}
            (testContext goodAccessor false ∅)).2)) by (vm_compute; reflexivity).
  assert (Hop : ({[ attachKey "fs-0" := attachOp "fs-0" "loop" EmptyString ]}
                  : gmap MachineStorageId attachFilesystemOp) !! attachKey "fs-0"
                = Some (attachOp "fs-0" "loop" EmptyString)) by (vm_compute; reflexivity).
  split_and!; [exact Hrun|exact Hop|].
  destruct (attach_synthesizes_path (names := plainNames) range_canonical _ _ _ _ _
              Hrun Hop) as (p & ps & evs & Hev & Hin & Hp & Hempty & _ & _).
  exists ps. split.
  - rewrite Hev. apply elem_of_app. by right.
  - rewrite Hempty in Hp by reflexivity. exact Hp.
Defined.

Lemma twoCreateOps_keyed :
  forall t o, twoCreateOps !! t = Some o -> fp_Tag (cfo_args o) = t.
Proof.
  intros t o Ho. apply elem_of_map_to_list in Ho.
  let l := eval vm_compute in (map_to_list twoCreateOps) in
  change (map_to_list twoCreateOps) with l in Ho.
  repeat (apply elem_of_cons in Ho as [[= -> ->]|Ho]; [reflexivity|]).
  by apply elem_of_nil in Ho.
Defined.

Lemma create_results_aligned_witness :
  let ctx := testContext goodAccessor false ∅ in
  let srcs := flakySources in
  let run := createFromSource (names := plainNames) twoCreateOps srcs "flaky"
               twoCreateParams createAcc_empty ctx in
  sourceOf srcs "flaky" = Some badSource /\
  match run with
  | (Ok acc', ctx') =>
      ca_statuses acc' =
        [{| esa_Tag := "filesystem-1"; esa_Status := "error"; esa_Info := "invalid size" |};
         {| esa_Tag := "filesystem-2"; esa_Status := "pending"; esa_Info := "no space" |}] /\
      ca_reschedule acc' = [OpCreate (Some (createOp "2" "flaky" 3))] /\
      ca_filesystems acc' = []
  | _ => False
  end.
Proof.
  cbv zeta. split; [vm_compute; reflexivity|].
  destruct (create_results_aligned (names := plainNames)
              twoCreateOps flakySources "flaky" twoCreateParams
              createAcc_empty (testContext goodAccessor false ∅) badSource
              [{| cfr_Filesystem := None; cfr_Error := Some "no space" |}]
              ltac:(vm_compute; reflexivity) ltac:(vm_compute; reflexivity) ltac:(vm_compute; lia)
              ltac:(repeat constructor; intros [=]))
    as (acc' & ctx' & -> & Hst & Hres & Hfs & _).
  split_and!.
  - rewrite Hst. reflexivity.
  - rewrite Hres. reflexivity.
  - rewrite Hfs. reflexivity.
Defined.

(** C10, as stated, fails: the second parameter's filesystem is absent
    from the cache, yet its provider [loop] has been bound by the first
    parameter, whose filesystem is cached without a backing volume; the
    registry has been asked about [loop], and the source bound is the
    registry's (which accepts parameters of size 0), not the managed
    source of this run (which rejects them). *)
Lemma uncached_attachment_uses_registry_source :
  let p0 := attachParams "0" "loop" "/mnt/0" in
  let p1 := attachParams "1" "loop" "/mnt/1" in
  let managed := Some badSource in
  let ctx := testContext goodAccessor false cacheOfZero in
  let run := filesystemAttachmentParamsBySource "/storage" [p0; p1] cacheOfZero
               managed ctx in
  cacheOfZero !! fap_Filesystem p1 = None /\
  events run.2 = events ctx ++ [CallFilesystemSource "/storage" "loop" "loop"] /\
  consulted (fap_Provider p1) (events run.2) /\
  match run.1 with
  | Ok (pbs, srcs) => srcs !! fap_Provider p1 ≠ Some managed
  | _ => False
  end.
Proof.
  cbv zeta. split; [vm_compute; reflexivity|].
  set (run := filesystemAttachmentParamsBySource "/storage"
                [attachParams "0" "loop" "/mnt/0"; attachParams "1" "loop" "/mnt/1"]
                cacheOfZero (Some badSource) (testContext goodAccessor false cacheOfZero)).
  assert (Hev : events run.2 = [CallFilesystemSource "/storage" "loop" "loop"])
    by (vm_compute; reflexivity).
  split; [exact Hev|]. split.
  { rewrite Hev. exists "/storage", "loop". apply list_elem_of_singleton. reflexivity. }
  assert (Hacc : acceptsSizeZero
            (match run.1 with Ok (_, srcs) => srcs !! "loop" | _ => None end) = true)
    by (vm_compute; reflexivity).
  destruct run.1 as [[pbs srcs]|e|]; [|discriminate Hacc..].
  change (fap_Provider (attachParams "1" "loop" "/mnt/1")) with "loop".
  intros E. rewrite E in Hacc. discriminate Hacc.
Qed.

Lemma attachment_first_uncached_is_managed_witness :
  let p1 := attachParams "1" "loop" "/mnt/1" in
  let ctx := testContext goodAccessor false cacheOfZero in
  let run := filesystemAttachmentParamsBySource "/storage" [p1] cacheOfZero
               (Some badSource) ctx in
  let pbs := (okOr (∅, ∅) run.1).1 in
  let srcs := (okOr (∅, ∅) run.1).2 in
  run = (Ok (pbs, srcs), run.2) /\
  [p1] !! 0%nat = Some p1 /\
  cacheOfZero !! fap_Filesystem p1 = None /\
  srcs !! fap_Provider p1 = Some (Some badSource) /\
  exists evs, events run.2 = events ctx ++ evs /\ ~ consulted (fap_Provider p1) evs.
Proof.
  cbv zeta.
  set (run := filesystemAttachmentParamsBySource "/storage"
                [attachParams "1" "loop" "/mnt/1"] cacheOfZero (Some badSource)
                (testContext goodAccessor false cacheOfZero)).
  assert (Hrun : run = (Ok ((okOr (∅, ∅) run.1).1, (okOr (∅, ∅) run.1).2), run.2))
    by (vm_compute; reflexivity).
  assert (Hc : cacheOfZero !! fap_Filesystem (attachParams "1" "loop" "/mnt/1") = None)
    by (vm_compute; reflexivity).
  split; [exact Hrun|]. split; [reflexivity|]. split; [exact Hc|].
  apply (attachment_first_uncached_is_managed _ _ _ _ _ _ _ _ 0%nat _ Hrun eq_refl).
  - intros j q Hj. lia.
  - left. exact Hc.
Defined.

(** C2, as stated, fails on the attachment path: the registry reports
    the provider [static] as non-dynamic, and the call returns an error
    instead of dropping the parameter. *)
Lemma attachment_of_non_dynamic_provider_fails :
  let p := attachParams "0" "static" "/mnt/0" in
  let ctx := testContext goodAccessor false cacheOfZero in
  (exists e, filesystemSource_result (ctx_collab ctx) (events ctx) "/storage" "static" "static"
               = (None, Some e) /\ Cause e = errNonDynamic) /\
  filesystemAttachmentParamsBySource "/storage" [p] cacheOfZero (Some goodSource) ctx =
    (Err (Annotated
            (Annotated errNonDynamic "getting storage source %q params" ["static"])
            "getting filesystem source" []),
     emitted [CallFilesystemSource "/storage" "static" "static"] ctx).
Proof.
  cbv zeta. split.
  - eexists. split; reflexivity.
  - vm_compute. reflexivity.
Qed.

Lemma testCollaborators_total : registryTotal testCollaborators "/storage".
Proof.
  intros h n src. cbn. repeat case_decide; intros [= <-]; eauto.
Defined.

Lemma partition_complete_witness :
  let p0 := cfo_args (createOp "0" "loop" 1) in
  let p3 := cfo_args (createOp "3" "static" 3) in
  let ctx := testContext goodAccessor false ∅ in
  let run := filesystemParamsBySource "/storage" [p0; p3] (Some goodSource) ctx in
  let pbs := (okOr (∅, ∅) run.1).1 in
  let srcs := (okOr (∅, ∅) run.1).2 in
  run = (Ok (pbs, srcs), run.2) /\
  is_Some (Some goodSource) /\
  registryTotal (ctx_collab ctx) "/storage" /\
  pbs !! "loop" = Some [p0] /\ pbs !! "static" = None /\
  exists evs, events run.2 = events ctx ++ evs /\
    (forall p, (exists n l, pbs !! n = Some l /\ p ∈ l) <->
       p ∈ [p0; p3] /\
       ~ nonDynamic (ctx_collab ctx) (events ctx) evs "/storage" (fp_Provider p)).
Proof.
  cbv zeta.
  set (run := filesystemParamsBySource "/storage"
                [cfo_args (createOp "0" "loop" 1); cfo_args (createOp "3" "static" 3)]
                (Some goodSource) (testContext goodAccessor false ∅)).
  assert (Hrun : run = (Ok ((okOr (∅, ∅) run.1).1, (okOr (∅, ∅) run.1).2), run.2))
    by (vm_compute; reflexivity).
  assert (Hman : is_Some (Some goodSource)) by (by eexists).
  split; [exact Hrun|]. split; [exact Hman|]. split; [exact testCollaborators_total|].
  split; [vm_compute; reflexivity|]. split; [vm_compute; reflexivity|].
  destruct (proj1 (partition_complete "/storage") _ _ _ _ _ _ Hrun
              Hman testCollaborators_total)
    as (evs & Hev & _ & Hmem).
  exists evs. split; [exact Hev|exact Hmem].
Defined.

(** C1, as stated, fails for [attachFilesystems]: the controller takes
    the batch (no top-level error) and rejects the first record; the
    executor returns that error instead of nil, and the remaining
    record, which the controller has accepted, is not recorded in the
    cache. *)
Lemma attach_aborts_on_entity_error :
  let ctx := testContext rejectFirstAccessor false ∅ in
  let run := attachFilesystems (names := plainNames) range_canonical twoAttachOps ctx in
  (forall h fas, exists rs,
     SetFilesystemAttachmentInfo rejectFirstAccessor h fas = BulkResults rs) /\
  run.1 = Err (Annotated (errorNew "not found")
                 "publishing attachment of %s to %s to state"
                 ["filesystem 1"; "machine 0"]) /\
  run.1 ≠ Ok tt /\
  (exists fas, last (events run.2) = Some (CallSetFilesystemAttachmentInfo fas) /\
     length fas = 2%nat) /\
  ctx_filesystemAttachments run.2 = ∅.
Proof.
  cbv zeta. split; [intros h fas; eexists; reflexivity|].
  assert (Hrun : (attachFilesystems (names := plainNames) range_canonical twoAttachOps
                    (testContext rejectFirstAccessor false ∅)).1 =
                 Err (Annotated (errorNew "not found")
                        "publishing attachment of %s to %s to state"
                        ["filesystem 1"; "machine 0"])) by (vm_compute; reflexivity).
  split; [exact Hrun|]. split; [rewrite Hrun; discriminate|].
  split; [eexists; split; vm_compute; reflexivity|].
  vm_compute. reflexivity.
Qed.

Lemma persistence_entity_errors_witness :
  let f0 := filesystemOf (cfo_args (createOp "0" "loop" 1)) in
  let a0 := attachmentOf (attachParams "0" "loop" "/mnt/0") in
  let a1 := attachmentOf (attachParams "1" "loop" "/mnt/1") in
  let ctx := testContext rejectFirstAccessor false ∅ in
  (let run := publishFilesystems (names := plainNames) [f0] ctx in
   run.1 = Ok tt /\
   events run.2 =
     [CallSetFilesystemInfo (filesystemsFromStorage (names := plainNames) [f0]);
      CallLog LError "publishing filesystem %s to state: %v" [LStr "0"; LStr "not found"]] /\
   is_Some (ctx_filesystems run.2 !! fsTag "0")) /\
  (let run := setFilesystemAttachmentInfo (names := plainNames) [a0; a1] ctx in
   run.1 = Err (Annotated (errorNew "not found")
                  "publishing attachment of %s to %s to state"
                  ["filesystem 0"; "machine 0"]) /\
   ctx_filesystemAttachments run.2 = ∅).
Proof.
  cbv zeta.
  set (f0 := filesystemOf (cfo_args (createOp "0" "loop" 1))).
  set (a0 := attachmentOf (attachParams "0" "loop" "/mnt/0")).
  set (a1 := attachmentOf (attachParams "1" "loop" "/mnt/1")).
  set (ctx := testContext rejectFirstAccessor false ∅).
  pose proof (persistence_entity_errors (names := plainNames)) as [Hcreate Hattach].
  split.
  - assert (Hne : [f0] ≠ []) by done.
    assert (Hcall : SetFilesystemInfo (Filesystems (ctx_config ctx)) (events ctx)
              (filesystemsFromStorage (names := plainNames) [f0])
            = BulkResults [{| er_Error := Some "not found" |}]) by (vm_compute; reflexivity).
    assert (Hl : (length [{| er_Error := Some "not found" |}] ≤ length [f0])%nat)
      by (cbn; lia).
    destruct (Hcreate [f0] ctx _ Hne Hcall Hl) as (ctx' & Hrun & Hev & _ & _ & Hin).
    rewrite Hrun. cbn [fst snd]. split; [reflexivity|]. split.
    + rewrite Hev. reflexivity.
    + apply (Hin f0). apply list_elem_of_singleton. reflexivity.
  - assert (Hcall : SetFilesystemAttachmentInfo (Filesystems (ctx_config ctx)) (events ctx)
              (filesystemAttachmentsFromStorage (names := plainNames) [a0; a1])
            = BulkResults [{| er_Error := Some "not found" |}; {| er_Error := None |}])
      by (vm_compute; reflexivity).
    destruct (Hattach [a0; a1] ctx _ 0%nat a0 {| er_Error := Some "not found" |}
                "not found" Hcall eq_refl eq_refl eq_refl
                ltac:(intros j r' Hj; lia)) as (ctx' & Hrun & _ & Hcache).
    rewrite Hrun. cbn [fst snd]. split; [reflexivity|].
    rewrite Hcache. reflexivity.
Defined.

Lemma creation_partitions_have_sources_witness :
  let ctx := testContext goodAccessor false ∅ in
  let run := filesystemParamsBySource "/storage" twoCreateParams (Some goodSource) ctx in
  let pbs := (okOr (∅, ∅) run.1).1 in
  let srcs := (okOr (∅, ∅) run.1).2 in
  run = (Ok (pbs, srcs), run.2) /\
  pbs !! "flaky" = Some twoCreateParams /\
  exists s, srcs !! "flaky" = Some (Some s).
Proof.
  cbv zeta.
  set (run := filesystemParamsBySource "/storage" twoCreateParams (Some goodSource)
                (testContext goodAccessor false ∅)).
  assert (Hrun : run = (Ok ((okOr (∅, ∅) run.1).1, (okOr (∅, ∅) run.1).2), run.2))
    by (vm_compute; reflexivity).
  assert (Hl : (okOr (∅, ∅) run.1).1 !! "flaky" = Some twoCreateParams)
    by (vm_compute; reflexivity).
  split_and!; [exact Hrun|exact Hl|].
  exact (proj1 (proj2 (creation_partitions_have_sources _ _ _ _ _ _ _ _ _ Hrun Hl))).
Defined.

Lemma attachment_partitions_bound_witness :
  let ctx := testContext goodAccessor false ∅ in
  let run := filesystemAttachmentParamsBySource "/storage" twoAttachParams ∅
               (Some goodSource) ctx in
  let pbs := (okOr (∅, ∅) run.1).1 in
  let srcs := (okOr (∅, ∅) run.1).2 in
  run = (Ok (pbs, srcs), run.2) /\
  pbs !! "loop" = Some twoAttachParams /\
  is_Some (srcs !! "loop").
Proof.
  cbv zeta.
  set (run := filesystemAttachmentParamsBySource "/storage" twoAttachParams ∅
                (Some goodSource) (testContext goodAccessor false ∅)).
  assert (Hrun : run = (Ok ((okOr (∅, ∅) run.1).1, (okOr (∅, ∅) run.1).2), run.2))
    by (vm_compute; reflexivity).
  assert (Hl : (okOr (∅, ∅) run.1).1 !! "loop" = Some twoAttachParams)
    by (vm_compute; reflexivity).
  split_and!; [exact Hrun|exact Hl|].
  exact (proj1 (proj2 (attachment_partitions_bound _ _ _ _ _ _ _ _ _ _ Hrun Hl))).
Defined.

Lemma create_malformed_results_panic_witness :
  let ctx := testContext goodAccessor false ∅ in
  let p := cfo_args (createOp "0" "loop" 1) in
  let results := [{| cfr_Filesystem := Some (filesystemOf p); cfr_Error := None |};
                  {| cfr_Filesystem := Some (filesystemOf p); cfr_Error := None |}] in
  (1 < length results)%nat /\ (1 ≤ length [p])%nat /\
  Forall resultOk (take 1 results) /\
  interpretCreateResults (names := plainNames) ∅ [p] results createAcc_empty ctx =
    (Panic, ctx).
Proof.
  cbv zeta.
  set (p := cfo_args (createOp "0" "loop" 1)).
  set (results := [{| cfr_Filesystem := Some (filesystemOf p); cfr_Error := None |};
                   {| cfr_Filesystem := Some (filesystemOf p); cfr_Error := None |}]).
  assert (H1 : (1 < length results)%nat) by (cbn; lia).
  assert (H2 : (1 ≤ length [p])%nat) by (cbn; lia).
  assert (H3 : Forall resultOk (take 1 results)).
  { repeat constructor. intros _. by eexists. }
  split_and!; [exact H1|exact H2|exact H3|].
  rewrite (create_malformed_results_panic (names := plainNames) ∅ [p] results
             createAcc_empty _ 1 H1 H2 H3 (or_introl eq_refl)).
  reflexivity.
Defined.

Lemma create_bulk_error_aborts_witness :
  let ctx := testContext goodAccessor false ∅ in
  let p := cfo_args (createOp "0" "down" 1) in
  sourceOf downSources "down" = Some downSource /\
  createFromSources (names := plainNames) ∅ downSources
    [("down", [p]); ("loop", [cfo_args (createOp "1" "loop" 1)])] createAcc_empty ctx =
  (Err (Annotated (errorNew "connection refused")
          "creating filesystems from source %q" ["down"]),
   emitted [CallLog Debug "creating filesystems: %v" [LFilesystemParams [p]];
            CallValidateFilesystemParams p; CallCreateFilesystems [p]] ctx).
Proof.
  cbv zeta. split; [vm_compute; reflexivity|].
  rewrite (create_bulk_error_aborts (names := plainNames) ∅ downSources "down"
             [cfo_args (createOp "0" "down" 1)] _ createAcc_empty
             (testContext goodAccessor false ∅) downSource "connection refused"
             ltac:(vm_compute; reflexivity) ltac:(vm_compute; discriminate)
             ltac:(vm_compute; reflexivity)).
  reflexivity.
Defined.

Lemma attach_results_interpreted_witness :
  let ctx := testContext goodAccessor false ∅ in
  let run := interpretAttachResults (names := plainNames) twoAttachOps twoAttachParams
               secondFails attachAcc_empty ctx in
  (length secondFails ≤ length twoAttachParams)%nat /\
  Forall attachResultOk secondFails /\
  run.1 = Ok {| aa_reschedule := [OpAttach (Some (attachOp "1" "loop" "/mnt/1"))];
                aa_filesystemAttachments :=
                  [attachmentOf (attachParams "0" "loop" "/mnt/0")];
                aa_statuses :=
                  [{| esa_Tag := "filesystem-0"; esa_Status := "attached";
                      esa_Info := EmptyString |};
                   {| esa_Tag := "filesystem-1"; esa_Status := "attaching";
                      esa_Info := "not mounted" |}] |}.
Proof.
  cbv zeta.
  assert (H1 : (length secondFails ≤ length twoAttachParams)%nat) by (cbn; lia).
  assert (H2 : Forall attachResultOk secondFails).
  { repeat constructor; [intros _; by eexists|intros [=]]. }
  split_and!; [exact H1|exact H2|].
  destruct (attach_results_interpreted (names := plainNames) twoAttachOps twoAttachParams
              secondFails attachAcc_empty (testContext goodAccessor false ∅) H1 H2)
    as (acc' & -> & Hst & Hre & Hfa & _).
  cbn [fst]. f_equal. destruct acc'. cbn in Hst, Hre, Hfa. subst.
  vm_compute. reflexivity.
Defined.

Lemma attach_reschedules_original_op_witness :
  let ctx := testContext goodAccessor false ∅ in
  let op := attachOp "1" "loop" EmptyString in
  let ops : gmap MachineStorageId attachFilesystemOp := {[ attachKey "1" := op ]} in
  let ps := [attachParams "1" "loop" "/storage/1"] in
  let results := [{| afr_FilesystemAttachment := None; afr_Error := Some "not mounted" |}] in
  ops !! attachFilesystemOp_key (names := plainNames) op = Some op /\
  ps !! 0%nat = Some (attachArgs (names := plainNames) "/storage" op) /\
  exists acc' ctx',
    interpretAttachResults (names := plainNames) ops ps results attachAcc_empty ctx
      = (Ok acc', ctx') /\
    OpAttach (Some op) ∈ aa_reschedule acc'.
Proof.
  cbv zeta.
  set (op := attachOp "1" "loop" EmptyString).
  set (results := [{| afr_FilesystemAttachment := None; afr_Error := Some "not mounted" |}]).
  assert (Hop : ({[ attachKey "1" := op ]} : gmap MachineStorageId attachFilesystemOp)
                  !! attachFilesystemOp_key (names := plainNames) op = Some op)
    by (vm_compute; reflexivity).
  assert (Hp : [attachParams "1" "loop" "/storage/1"] !! 0%nat
               = Some (attachArgs (names := plainNames) "/storage" op))
    by (vm_compute; reflexivity).
  split_and!; [exact Hop|exact Hp|].
  apply (attach_reschedules_original_op (names := plainNames) "/storage" _ _ results
           attachAcc_empty _ 0 op
           {| afr_FilesystemAttachment := None; afr_Error := Some "not mounted" |}
           "not mounted");
    [cbn; lia|repeat constructor; intros [=]|exact Hop|exact Hp|reflexivity|reflexivity].
Defined.

Lemma attach_bulk_error_aborts_witness :
  let ctx := testContext goodAccessor false ∅ in
  let ps := [attachParams "0" "down" "/mnt/0"] in
  sourceOf downSources "down" = Some downSource /\
  rangeSlice (fun _ '(sourceName, filesystemAttachmentParams) =>
      attachFromSource (names := plainNames) ∅ downSources sourceName
        filesystemAttachmentParams)
    0 [("down", ps); ("loop", twoAttachParams)] attachAcc_empty ctx =
  (Err (Annotated (errorNew "connection refused")
          "attaching filesystems from source %q" ["down"]),
   emitted [CallLog Debug "attaching filesystems: %+v" [LAttachmentParams ps];
            CallAttachFilesystems ps] ctx).
Proof.
  cbv zeta. split; [vm_compute; reflexivity|].
  rewrite (attach_bulk_error_aborts (names := plainNames) ∅ downSources "down"
             [attachParams "0" "down" "/mnt/0"] _ attachAcc_empty
             (testContext goodAccessor false ∅) downSource "connection refused" 0
             ltac:(vm_compute; reflexivity) ltac:(vm_compute; reflexivity)).
  reflexivity.
Defined.

Lemma attachments_all_accepted_witness :
  let ctx := testContext goodAccessor false ∅ in
  let a0 := attachmentOf (attachParams "0" "loop" "/mnt/0") in
  let a1 := attachmentOf (attachParams "1" "loop" "/mnt/1") in
  let run := setFilesystemAttachmentInfo (names := plainNames) [a0; a1] ctx in
  [a0; a1] ≠ [] /\
  run.1 = Ok tt /\
  ctx_filesystemAttachments run.2 = {[ attachKey "0" := a0; attachKey "1" := a1 ]} /\
  events run.2 =
    [CallSetFilesystemAttachmentInfo
       (filesystemAttachmentsFromStorage (names := plainNames) [a0; a1]);
     CallRemovePendingFilesystemAttachment (attachKey "0");
     CallRemovePendingFilesystemAttachment (attachKey "1")].
Proof.
  cbv zeta.
  set (a0 := attachmentOf (attachParams "0" "loop" "/mnt/0")).
  set (a1 := attachmentOf (attachParams "1" "loop" "/mnt/1")).
  set (ctx := testContext goodAccessor false ∅).
  assert (Hne : [a0; a1] ≠ []) by done.
  assert (Hcall : SetFilesystemAttachmentInfo (Filesystems (ctx_config ctx)) (events ctx)
            (filesystemAttachmentsFromStorage (names := plainNames) [a0; a1])
          = BulkResults [{| er_Error := None |}; {| er_Error := None |}])
    by (vm_compute; reflexivity).
  assert (Hok : Forall (fun r => er_Error r = None)
                  (take (length [a0; a1]) [{| er_Error := None |}; {| er_Error := None |}]))
    by (repeat constructor).
  split; [exact Hne|].
  rewrite (attachments_all_accepted (names := plainNames) [a0; a1] ctx _ Hne Hcall Hok).
  cbn [fst snd]. split_and!; [reflexivity|vm_compute; reflexivity|reflexivity].
Defined.

Lemma detach_bulk_error_aborts_witness :
  let ctx := testContext goodAccessor true ∅ in
  let ps := [attachParams "0" "down" "/mnt"] in
  downSources !! "down" = Some (Some downSource) /\
  detachFromSources (names := plainNames) ∅ downSources
    [("down", ps); ("loop", twoAttachParams)] detachAcc_empty ctx =
  (Err (Annotated (errorNew "connection refused")
          "detaching filesystems from source %q" ["down"]),
   emitted [CallLog Debug "detaching filesystems: %+v" [LAttachmentParams ps];
            CallDetachFilesystems ps] ctx).
Proof.
  cbv zeta. split; [vm_compute; reflexivity|].
  rewrite (detach_bulk_error_aborts (names := plainNames) ∅ downSources "down"
             [attachParams "0" "down" "/mnt"] _ detachAcc_empty
             (testContext goodAccessor true ∅) downSource "connection refused"
             ltac:(vm_compute; reflexivity) ltac:(vm_compute; reflexivity)).
  reflexivity.
Defined.

Lemma nil_source_panics_witness :
  let ctx := testContext goodAccessor true ∅ in
  let ps := [attachParams "0" "static" "/mnt"] in
  nilSources !! "static" = Some None /\
  IsCAASModel ctx = true /\
  detachFromSource (names := plainNames) ∅ nilSources "static" ps detachAcc_empty ctx =
  (Panic, emitted [CallLog Debug "detaching filesystems: %+v" [LAttachmentParams ps]] ctx).
Proof.
  cbv zeta. split_and!; [vm_compute; reflexivity|reflexivity|].
  apply (proj1 (proj2 (proj2 (nil_source_panics (names := plainNames) nilSources "static"
                                (testContext goodAccessor true ∅)
                                ltac:(vm_compute; reflexivity))))).
Defined.

Lemma remove_destroy_error_skips_release_witness :
  let ctx := testContext goodAccessor false ∅ in
  sourceOf downSources "down" = Some downSource /\
  rangeSlice (fun _ '(sourceName, filesystemParams) =>
      removeFromSource (names := plainNames) twoRemoveOps twoRemoveParams downSources
        sourceName filesystemParams)
    0 [("down", removeBatch)] removeAcc_empty ctx =
  (Err (errorNew "connection refused"),
   emitted [CallLog Debug "removing filesystems from %q: %v"
              [LStr "down"; LFilesystemParams removeBatch];
            CallDestroyFilesystems ["id-0"]] ctx).
Proof.
  cbv zeta. split; [vm_compute; reflexivity|].
  rewrite (remove_destroy_error_skips_release (names := plainNames) twoRemoveOps
             twoRemoveParams downSources "down" removeBatch [] removeAcc_empty
             (testContext goodAccessor false ∅) downSource "connection refused" 0
             ltac:(vm_compute; reflexivity) ltac:(vm_compute; discriminate)
             ltac:(vm_compute; reflexivity)).
  reflexivity.
Defined.

(** C4, as stated, fails: the source rejects the first parameter, and
    its [CreateFilesystems] then returns an error for the whole batch of
    the valid ones; the pass returns that error before it calls
    [setStatus], so that the rejected parameter gets no status. *)
Lemma rejected_param_without_status :
  let run := createFilesystems (names := plainNames) range_canonical pickyOps
               outageContext in
  let p1 := cfo_args (createOp "1" "picky" 0) in
  let p2 := cfo_args (createOp "2" "picky" 3) in
  pickyOps !! fsTag "1" = Some (createOp "1" "picky" 0) /\
  (forall h, ValidateFilesystemParams pickySource h p1 = Some "invalid size") /\
  run.1 = Err (Annotated (errorNew "connection refused")
                 "creating filesystems from source %q" ["picky"]) /\
  events run.2 =
    [CallFilesystemSource "/storage" "picky" "picky";
     CallLog Debug "creating filesystems: %v" [LFilesystemParams [p1; p2]];
     CallValidateFilesystemParams p1;
     CallValidateFilesystemParams p2;
     CallLog Debug "failed to validate parameters for %s: %v"
       [LStr "filesystem 1"; LStr "invalid size"];
     CallCreateFilesystems [p2]] /\
  (forall statuses, CallSetStatus statuses ∉ events run.2).
Proof.
  cbv zeta.
  assert (Hev : events (createFilesystems (names := plainNames) range_canonical pickyOps
                          outageContext).2 =
    [CallFilesystemSource "/storage" "picky" "picky";
     CallLog Debug "creating filesystems: %v"
       [LFilesystemParams [cfo_args (createOp "1" "picky" 0);
                           cfo_args (createOp "2" "picky" 3)]];
     CallValidateFilesystemParams (cfo_args (createOp "1" "picky" 0));
     CallValidateFilesystemParams (cfo_args (createOp "2" "picky" 3));
     CallLog Debug "failed to validate parameters for %s: %v"
       [LStr "filesystem 1"; LStr "invalid size"];
     CallCreateFilesystems [cfo_args (createOp "2" "picky" 3)]])
    by (vm_compute; reflexivity).
  split_and!; [vm_compute; reflexivity|intros h; reflexivity|vm_compute; reflexivity
              |exact Hev|].
  intros statuses Hin. rewrite Hev in Hin.
  repeat (apply elem_of_cons in Hin as [Hin|Hin]; [discriminate Hin|]).
  by apply elem_of_nil in Hin.
Qed.

Lemma rejected_params_get_error_status_witness :
  let ctx := testContext goodAccessor false ∅ in
  let run := createFilesystems (names := plainNames) range_canonical twoCreateOps ctx in
  run = (Ok tt, run.2) /\
  (forall t o, twoCreateOps !! t = Some o -> fp_Tag (cfo_args o) = t) /\
  exists bs post,
    events run.2 =
      events ctx ++ [CallFilesystemSource "/storage" "flaky" "flaky"] ++
      (bs ≫= cb_trace (names := plainNames)) ++
      [CallScheduleOperations (bs ≫= cb_reschedule twoCreateOps);
       CallSetStatus (bs ≫= cb_statuses (names := plainNames))] ++ post /\
    (forall b i p e, b ∈ bs -> cb_params b !! i = Some p ->
       cb_errs b !! i = Some (Some e) ->
       {| esa_Tag := "filesystem-" +:+ ft_id (fp_Tag p); esa_Status := "error";
          esa_Info := e |} ∈ bs ≫= cb_statuses (names := plainNames) /\
       (forall qs, CallCreateFilesystems qs ∈ events run.2 -> p ∉ qs) /\
       (forall o, twoCreateOps !! fp_Tag p = Some o ->
          OpCreate (Some o) ∉ bs ≫= cb_reschedule twoCreateOps)).
Proof.
  cbv zeta.
  set (run := createFilesystems (names := plainNames) range_canonical twoCreateOps
                (testContext goodAccessor false ∅)).
  assert (Hrun : run = (Ok tt, run.2)) by (vm_compute; reflexivity).
  split; [exact Hrun|]. split; [exact twoCreateOps_keyed|].
  destruct (rejected_params_get_error_status (names := plainNames) range_canonical
              twoCreateOps (testContext goodAccessor false ∅) run.2 Hrun)
    as (pbs & srcs & resolution & bs & post & Hres & _ & _ & Hev & _ & _ & _ & Hrej).
  assert (Hresolution : resolution = [CallFilesystemSource "/storage" "flaky" "flaky"]).
  { apply (f_equal (fun r => events r.2)) in Hres. cbn [snd] in Hres.
    rewrite events_emitted in Hres. cbn [events testContext app] in Hres.
    rewrite <-Hres. vm_compute. reflexivity. }
  subst resolution. exists bs, post. split; [exact Hev|].
  intros b i p e Hb Hp He. destruct (Hrej b i p e Hb Hp He) as [Hst Hkeyed].
  destruct (Hkeyed twoCreateOps_keyed) as [Hcall Hre].
  split_and!; [exact Hst| |exact Hre].
  intros qs Hqs. apply Hcall. rewrite Hev in Hqs. exact Hqs.
Defined.

(** C5, as stated, fails: the source [loop] creates the first
    filesystem, and the source [down], visited after it, returns an
    error for its whole batch; the pass returns that error, and the
    filesystem that [loop] has created is neither sent to the controller
    nor put in the cache, and gets no status. *)
Lemma created_filesystem_lost_on_later_error :
  let run := createFilesystems (names := plainNames) range_canonical outageOps
               outageContext in
  let p1 := cfo_args (createOp "1" "loop" 1) in
  let p2 := cfo_args (createOp "2" "down" 1) in
  (forall h, CreateFilesystems goodSource h [p1] =
     BulkResults [{| cfr_Filesystem := Some (filesystemOf p1); cfr_Error := None |}]) /\
  run.1 = Err (Annotated (errorNew "connection refused")
                 "creating filesystems from source %q" ["down"]) /\
  events run.2 =
    [CallFilesystemSource "/storage" "loop" "loop";
     CallFilesystemSource "/storage" "down" "down";
     CallLog Debug "creating filesystems: %v" [LFilesystemParams [p1]];
     CallValidateFilesystemParams p1;
     CallCreateFilesystems [p1];
     CallLog Debug "creating filesystems: %v" [LFilesystemParams [p2]];
     CallValidateFilesystemParams p2;
     CallCreateFilesystems [p2]] /\
  (forall sent, CallSetFilesystemInfo sent ∉ events run.2) /\
  (forall statuses, CallSetStatus statuses ∉ events run.2) /\
  ctx_filesystems run.2 !! fsTag "1" = None.
Proof.
  cbv zeta.
  assert (Hev : events (createFilesystems (names := plainNames) range_canonical outageOps
                          outageContext).2 =
    [CallFilesystemSource "/storage" "loop" "loop";
     CallFilesystemSource "/storage" "down" "down";
     CallLog Debug "creating filesystems: %v"
       [LFilesystemParams [cfo_args (createOp "1" "loop" 1)]];
     CallValidateFilesystemParams (cfo_args (createOp "1" "loop" 1));
     CallCreateFilesystems [cfo_args (createOp "1" "loop" 1)];
     CallLog Debug "creating filesystems: %v"
       [LFilesystemParams [cfo_args (createOp "2" "down" 1)]];
     CallValidateFilesystemParams (cfo_args (createOp "2" "down" 1));
     CallCreateFilesystems [cfo_args (createOp "2" "down" 1)]])
    by (vm_compute; reflexivity).
  split_and!; [intros h; reflexivity|vm_compute; reflexivity|exact Hev| |
               |vm_compute; reflexivity].
  - intros sent Hin. rewrite Hev in Hin.
    repeat (apply elem_of_cons in Hin as [Hin|Hin]; [discriminate Hin|]).
    by apply elem_of_nil in Hin.
  - intros statuses Hin. rewrite Hev in Hin.
    repeat (apply elem_of_cons in Hin as [Hin|Hin]; [discriminate Hin|]).
    by apply elem_of_nil in Hin.
Qed.

Lemma create_results_interpreted_witness :
  let ctx := testContext goodAccessor false ∅ in
  let run := createFilesystems (names := plainNames) range_canonical mixedCreateOps ctx in
  let f1 := filesystemOf (cfo_args (createOp "1" "loop" 1)) in
  run = (Ok tt, run.2) /\
  ctx_filesystems run.2 !! fsTag "1" = Some f1 /\
  ctx_filesystems run.2 !! fsTag "2" = None /\
  exists bs logs,
    let created := bs ≫= cb_filesystems in
    ctx_filesystems run.2 = mergeFilesystems created (ctx_filesystems ctx) /\
    Forall isPublishLog logs /\
    (forall f, f ∈ created ->
       exists b i q r, b ∈ bs /\ cb_valid b !! i = Some q /\ cb_results b !! i = Some r /\
                       cfr_Error r = None /\ cfr_Filesystem r = Some f).
Proof.
  cbv zeta.
  set (run := createFilesystems (names := plainNames) range_canonical mixedCreateOps
                (testContext goodAccessor false ∅)).
  assert (Hrun : run = (Ok tt, run.2)) by (vm_compute; reflexivity).
  split; [exact Hrun|]. split; [vm_compute; reflexivity|].
  split; [vm_compute; reflexivity|].
  destruct (create_results_interpreted (names := plainNames) range_canonical
              mixedCreateOps (testContext goodAccessor false ∅) run.2 Hrun)
    as (pbs & srcs & resolution & bs & logs & _ & _ & _ & _ & Hlogs & _ & _ & Hcache &
        _ & Hfrom & _).
  exists bs, logs. split_and!; [exact Hcache|exact Hlogs|exact Hfrom].
Defined.




